(** * chart: a shallow embedding of github.com/michenriksen/chart

    The development follows the Go packages of the repository:

    - [chart]   (chart.go): the insertion-ordered label/value store, the
      [Chart] queries and [ParseLine];
    - [mermaid] (mermaid/renderer.go): the Mermaid renderer;
    - [simple]  (simple/renderer.go): the terminal renderer;
    - [cli]     (internal/cli): the flags and the input loop of the command.

    Go strings are byte strings and are modelled by [string]; [float64] is
    IEEE 754 binary64, modelled by [spec_float] with precision 53 and
    maximal exponent 1024; [int] is modelled by [Z]. *)

From Stdlib Require Import ZArith Lia Bool List Ascii String.
From Stdlib Require Import Sorting.Permutation Sorting.Sorted.
From Stdlib Require Import Floats.SpecFloat.
From stdpp Require Import gmap strings list fin_maps.

(** ** Errors *)

(** Go functions that return [(T, error)] return [result T]. *)
Inductive result (E A : Type) : Type :=
| Ok (a : A)
| Err (e : E).
Arguments Ok {E A} a.
Arguments Err {E A} e.

(** ** Go byte strings *)

Module gostring.

Definition byte (n : nat) : ascii := ascii_of_nat n.
Definition code (c : ascii) : nat := nat_of_ascii c.

Definition bytes (l : list nat) : string :=
  string_of_list_ascii (map byte l).

(** [len(s)] *)
Definition len (s : string) : nat := String.length s.

(** [s[i:j]] for [0 <= i <= j <= len(s)] and [s[i:]]. *)
Definition slice (s : string) (i j : nat) : string := substring i (j - i) s.
Definition slice_from (s : string) (i : nat) : string := substring i (len s - i) s.

(** [strings.Join] *)
Fixpoint Join (elems : list string) (sep : string) : string :=
  match elems with
  | [] => EmptyString
  | [e] => e
  | e :: rest => e +:+ sep +:+ Join rest sep
  end.

(** [strings.HasSuffix] and [strings.TrimSuffix] *)
Definition HasSuffix (s suffix : string) : bool :=
  (len suffix <=? len s) &&
  String.eqb (slice_from s (len s - len suffix)) suffix.

Definition TrimSuffix (s suffix : string) : string :=
  if HasSuffix s suffix then slice s 0 (len s - len suffix) else s.

(** [strings.Repeat] for a count that is not negative. *)
Fixpoint Repeat (s : string) (count : nat) : string :=
  match count with
  | O => EmptyString
  | S n => s +:+ Repeat s n
  end.

(** The runes for which [unicode.IsSpace] holds, in their UTF-8 encoding.
    One byte: TAB, LF, VT, FF, CR and SPACE. *)
Definition isSpaceByte (c : ascii) : bool :=
  let n := code c in
  (9 <=? n) && (n <=? 13) || (n =? 32).

(** Two and three bytes: U+0085, U+00A0, U+1680, U+2000 to U+200A,
    U+2028, U+2029, U+202F, U+205F and U+3000. *)
Definition spaceRunes : list (list nat) :=
  [ [194; 133]; [194; 160]; [225; 154; 128];
    [226; 128; 128]; [226; 128; 129]; [226; 128; 130]; [226; 128; 131];
    [226; 128; 132]; [226; 128; 133]; [226; 128; 134]; [226; 128; 135];
    [226; 128; 136]; [226; 128; 137]; [226; 128; 138];
    [226; 128; 168]; [226; 128; 169]; [226; 128; 175];
    [226; 129; 159]; [227; 128; 128] ].

Fixpoint hasPrefix (p l : list ascii) : bool :=
  match p, l with
  | [], _ => true
  | a :: p', b :: l' => Ascii.eqb a b && hasPrefix p' l'
  | _ :: _, [] => false
  end.

(** Width in bytes of the white-space rune that [l] starts with when the
    runes are encoded as in [encs]; [0] when there is none. *)
Definition spaceWidth (encs : list (list nat)) (l : list ascii) : nat :=
  match l with
  | [] => O
  | c :: _ =>
      if isSpaceByte c then 1
      else match find (fun p => hasPrefix (map byte p) l) encs with
           | Some p => length p
           | None => O
           end
  end.

(** Drops white-space runes from the front, rune by rune. *)
Fixpoint trimFront (encs : list (list nat)) (fuel : nat) (l : list ascii)
  : list ascii :=
  match fuel with
  | O => l
  | S fuel' =>
      match spaceWidth encs l with
      | O => l
      | w => trimFront encs fuel' (skipn w l)
      end
  end.

Definition TrimLeftSpace (l : list ascii) : list ascii :=
  trimFront spaceRunes (length l) l.

(** From the back the last rune is decoded; its bytes are met in reverse. *)
Definition TrimRightSpace (l : list ascii) : list ascii :=
  rev (trimFront (map (@rev nat) spaceRunes) (length l) (rev l)).

(** [strings.TrimSpace] *)
Definition TrimSpace (s : string) : string :=
  string_of_list_ascii
    (TrimRightSpace (TrimLeftSpace (list_ascii_of_string s))).

(** [string(r)] for a rune [r]: its UTF-8 encoding; a value that is not a
    Unicode scalar value is encoded as U+FFFD. *)
Definition utf8 (r : Z) : string :=
  let b (z : Z) := byte (Z.to_nat z) in
  (if (r <? 0) || (1114111 <? r) || ((55296 <=? r) && (r <=? 57343)) then
     bytes [239; 191; 189]%nat
   else if r <? 128 then String (b r) EmptyString
   else if r <? 2048 then
     String (b (192 + r / 64)) (String (b (128 + r mod 64)) EmptyString)
   else if r <? 65536 then
     String (b (224 + r / 4096))
       (String (b (128 + (r / 64) mod 64))
          (String (b (128 + r mod 64)) EmptyString))
   else
     String (b (240 + r / 262144))
       (String (b (128 + (r / 4096) mod 64))
          (String (b (128 + (r / 64) mod 64))
             (String (b (128 + r mod 64)) EmptyString))))%Z.

(** [strings.HasPrefix] *)
Definition HasPrefix (s prefix : string) : bool :=
  hasPrefix (list_ascii_of_string prefix) (list_ascii_of_string s).

(** [utf8.RuneCountInString]: the number of runes of a string, where a
    byte that does not begin a well-formed encoding is a rune of width
    one.  [runeSize c rest] is the width of the rune that begins with the
    byte [c] when [rest] follows it: the first byte gives the size and
    the range of the second byte, as the tables [first] and
    [acceptRanges] of package utf8 do. *)
Definition continues (lo hi : nat) (rest : string) (i : nat) : bool :=
  match String.get i rest with
  | Some c => (lo <=? code c) && (code c <=? hi)
  | None => false
  end.

Definition runeSize (c : ascii) (rest : string) : nat :=
  let b := code c in
  let '(size, lo, hi) :=
    if b <? 128 then (1, 0, 0)
    else if (194 <=? b) && (b <=? 223) then (2, 128, 191)
    else if b =? 224 then (3, 160, 191)
    else if b =? 237 then (3, 128, 159)
    else if (225 <=? b) && (b <=? 239) then (3, 128, 191)
    else if b =? 240 then (4, 144, 191)
    else if (241 <=? b) && (b <=? 243) then (4, 128, 191)
    else if b =? 244 then (4, 128, 143)
    else (1, 0, 0) in
  if size =? 1 then 1
  else if len rest <? size - 1 then 1
  else if negb (continues lo hi rest 0) then 1
  else if size =? 2 then 2
  else if negb (continues 128 191 rest 1) then 1
  else if size =? 3 then 3
  else if negb (continues 128 191 rest 2) then 1
  else 4.

(** [skip] bytes of the rune that was counted last are still ahead. *)
Fixpoint runeCount (skip : nat) (s : string) : nat :=
  match s with
  | EmptyString => O
  | String c rest =>
      match skip with
      | S skip' => runeCount skip' rest
      | O => S (runeCount (runeSize c rest - 1) rest)
      end
  end.

Definition RuneCountInString (s : string) : nat := runeCount 0 s.

End gostring.

(** ** float64 *)

Module float64.
Local Open Scope Z_scope.

Definition prec : Z := 53.
Definition emax : Z := 1024.

Definition add : spec_float -> spec_float -> spec_float := SFadd prec emax.
Definition mul : spec_float -> spec_float -> spec_float := SFmul prec emax.
Definition div : spec_float -> spec_float -> spec_float := SFdiv prec emax.

(** [x == y], [x < y] and [x > y] *)
Definition eqb : spec_float -> spec_float -> bool := SFeqb.
Definition ltb : spec_float -> spec_float -> bool := SFltb.
Definition gtb (x y : spec_float) : bool := SFltb y x.

Definition isNaN (x : spec_float) : bool :=
  match x with S754_nan => true | _ => false end.

(** The conversion [float64(n)] of an integer, and integer constants. *)
Definition ofZ (n : Z) : spec_float := binary_normalize prec emax n 0 false.

Definition zero : spec_float := S754_zero false.
Definition one : spec_float := ofZ 1.

(** A float64 is a [spec_float] in canonical form. *)
Definition valid (x : spec_float) : bool := valid_binary prec emax x.

(** [cmp.Compare] at float64: a NaN is less than any non-NaN and equal to
    a NaN; [-0.0] is equal to [0.0]. *)
Definition Compare (x y : spec_float) : Z :=
  if isNaN x then (if isNaN y then 0 else -1)
  else if isNaN y then 1
  else if ltb x y then -1
  else if gtb x y then 1
  else 0.

(** [math.Round]: the nearest integer, half away from zero; zeros,
    infinities and NaN are returned unchanged, and so is the sign. *)
Definition Round (x : spec_float) : spec_float :=
  match x with
  | S754_finite s m e =>
      if 0 <=? e then x
      else
        let unit := 2 ^ (- e) in
        let t := Z.pos m / unit in
        let n := if unit <=? 2 * (Z.pos m mod unit) then t + 1 else t in
        binary_normalize prec emax (cond_Zopp s n) 0 s
  | _ => x
  end.

(** The integer part of a finite [x], toward zero. *)
Definition trunc (x : spec_float) : option Z :=
  match x with
  | S754_zero _ => Some 0
  | S754_finite s m e =>
      Some (cond_Zopp s (if 0 <=? e then Z.pos m * 2 ^ e
                         else Z.pos m / 2 ^ (- e)))
  | _ => None
  end.

(** *** [math.Pow(10, y)] for a [y] that is a non-negative integer

    The only call shape of the repository.  After the special cases
    [y == 0] and [y == 1], [10 = x1 * 2^xe] is raised to the power by
    repeated squaring on the fraction and the exponent separately, and
    the two are put together by [math.Ldexp]. *)
Fixpoint powLoop (fuel : nat) (i : Z) (a1 : spec_float) (ae : Z)
    (x1 : spec_float) (xe : Z) : spec_float * Z :=
  match fuel with
  | O => (a1, ae)
  | S fuel' =>
      if i =? 0 then (a1, ae)
      else if (xe <? - 4096) || (4096 <? xe) then (a1, ae + xe)
      else
        let '(a1, ae) := if Z.odd i then (mul a1 x1, ae + xe) else (a1, ae) in
        let x1 := mul x1 x1 in
        let xe := 2 * xe in
        let '(x1, xe) :=
          if ltb x1 (div one (ofZ 2)) then (add x1 x1, xe - 1) else (x1, xe) in
        powLoop fuel' (i / 2) a1 ae x1 xe
  end.

Definition Pow10 (y : spec_float) : spec_float :=
  if eqb y zero then one
  else if eqb y one then ofZ 10
  else
    match trunc y with
    | Some yi =>
        if 2 ^ 63 <=? yi then S754_infinity false
        else
          let '(x1, xe) := SFfrexp prec emax (ofZ 10) in
          let '(a1, ae) := powLoop 64 yi one 0 x1 xe in
          SFldexp prec emax a1 ae
    | None => y
    end.

(** *** [strconv.ParseFloat(s, 64)] on digits and dots

    [floatRE] lets only the bytes [0-9] and [.] through, so the decimal
    grammar without sign and exponent is all that is needed: digits with
    at most one dot and at least one digit.  The result is the binary64
    nearest to the decimal, ties to even; a decimal that rounds to
    infinity is a range error. *)
Definition isDigit (c : ascii) : bool :=
  let n := nat_of_ascii c in ((48 <=? n) && (n <=? 57))%nat.

Definition digitVal (c : ascii) : Z := Z.of_nat (nat_of_ascii c) - 48.

Fixpoint allDigits (s : string) : bool :=
  match s with
  | EmptyString => true
  | String c s' => isDigit c && allDigits s'
  end.

Fixpoint decimalValue (acc : Z) (s : string) : Z :=
  match s with
  | EmptyString => acc
  | String c s' => decimalValue (10 * acc + digitVal c) s'
  end.

(** The bytes before the first dot, and those after it when there is one. *)
Fixpoint splitDot (s : string) : string * option string :=
  match s with
  | EmptyString => (EmptyString, None)
  | String c s' =>
      if Ascii.eqb c "." then (EmptyString, Some s')
      else let '(i, f) := splitDot s' in (String c i, f)
  end.

(** The binary64 nearest to [n / d] for positive [n] and [d]. *)
Definition nearest (n d : Z) : spec_float :=
  let '(q, e, l) := SFdiv_core_binary prec emax n 0 d 0 in
  binary_round_aux prec emax false q e l.

Definition ParseFloat (s : string) : option spec_float :=
  let '(int, frac) := splitDot s in
  let frac := match frac with Some f => f | None => EmptyString end in
  if allDigits int && allDigits frac
     && negb (String.length int + String.length frac =? 0)%nat
  then
    let n := decimalValue 0 (int +:+ frac) in
    if n =? 0 then Some zero
    else
      match nearest n (10 ^ Z.of_nat (String.length frac)) with
      | S754_infinity _ => None
      | f => Some f
      end
  else None.

(** *** [fmt.Sprintf("%g", x)]

    The verb [%g] without precision prints the shortest decimal that
    parses back to [x], in the [%e] layout when the decimal exponent is
    below [-4] or at least [6], and in the [%f] layout otherwise. *)

Fixpoint digitsOf (fuel : nat) (n : Z) (acc : list Z) : list Z :=
  match fuel with
  | O => acc
  | S fuel' =>
      if n <? 10 then n :: acc
      else digitsOf fuel' (n / 10) (n mod 10 :: acc)
  end.

(** The decimal digits of [n > 0], most significant first. *)
Definition decimalDigits (n : Z) : list Z :=
  digitsOf (S (Z.to_nat (Z.log2 n))) n [].

Fixpoint dropZeros (l : list Z) : list Z :=
  match l with
  | 0 :: l' => dropZeros l'
  | _ => l
  end.

Definition trimZeros (l : list Z) : list Z := rev (dropZeros (rev l)).

(** [x = d / 10^s] lies between the midpoints [lo / 10^s] and
    [up / 10^s] to its neighbours, which round to [x] themselves when the
    mantissa is even ([inclusive]).  Going down the decimal positions
    from the first digit of [up], the first position at which [d] cut
    off ([down]) or [d] cut off plus one unit ([above]) stays inside is
    where the digits end; when both do, the nearer one is taken, ties to
    the even digit. *)
Fixpoint roundShortest (pos : nat) (d lo up : Z) (inclusive : bool) : Z :=
  let unit := 10 ^ Z.of_nat pos in
  let down := d / unit * unit in
  let above := down + unit in
  let okdown := (lo <? down) || (inclusive && (lo =? down)) in
  let okup := (above <? up) || (inclusive && (above =? up)) in
  let r := d mod unit in
  let roundUp :=
    (unit <? 2 * r) || ((unit =? 2 * r) && Z.odd (d / unit)) in
  if okdown && okup then (if roundUp then above else down)
  else if okdown then down
  else if okup then above
  else match pos with
       | O => d
       | S pos' => roundShortest pos' d lo up inclusive
       end.

(** The shortest digits of [m * 2^e] and the position [dp] of the decimal
    point: the value is [0.d1 d2 ... dn * 10^dp]. *)
Definition shortest (m : positive) (e : Z) : list Z * Z :=
  let s := Z.max 0 (2 - e) in
  let k := if 2 <=? e then 2 ^ (e - 2) else 5 ^ s in
  let d := 4 * Z.pos m * k in
  let up := (4 * Z.pos m + 2) * k in
  let lo :=
    (if (Z.pos m =? 2 ^ 52) && negb (e =? -1074)
     then 4 * Z.pos m - 1 else 4 * Z.pos m - 2) * k in
  let v :=
    roundShortest (Nat.pred (length (decimalDigits up))) d lo up
      (Z.even (Z.pos m)) in
  let ds := decimalDigits v in
  (trimZeros ds, Z.of_nat (length ds) - s).

Definition digitChar (d : Z) : ascii := ascii_of_nat (Z.to_nat (48 + d)).

Fixpoint digitString (ds : list Z) : string :=
  match ds with
  | [] => EmptyString
  | d :: ds' => String (digitChar d) (digitString ds')
  end.

(** The digit at index [j], ["0"] outside of the digits. *)
Definition digitAt (ds : list Z) (j : Z) : Z :=
  if (0 <=? j) && (j <? Z.of_nat (length ds))
  then nth (Z.to_nat j) ds 0 else 0.

(** [%e]: [d.ddd] and an exponent of at least two digits. *)
Definition fmtE (ds : list Z) (dp : Z) : string :=
  let exp := dp - 1 in
  let mant :=
    match ds with
    | [] => "0"
    | [d] => digitString [d]
    | d :: ds' => digitString [d] +:+ "." +:+ digitString ds'
    end in
  let a := Z.abs exp in
  mant +:+ "e" +:+ (if exp <? 0 then "-" else "+") +:+
  (if a <? 10 then digitString [0; a] else digitString (decimalDigits a)).

(** [%f] with [max(nd - dp, 0)] digits after the point. *)
Definition fmtF (ds : list Z) (dp : Z) : string :=
  let nd := Z.of_nat (length ds) in
  let int :=
    if 0 <? dp
    then digitString (map (digitAt ds) (map Z.of_nat (seq 0 (Z.to_nat dp))))
    else "0" in
  let prec := Z.max (nd - dp) 0 in
  if 0 <? prec
  then int +:+ "." +:+
       digitString
         (map (fun i => digitAt ds (dp + Z.of_nat i)) (seq 0 (Z.to_nat prec)))
  else int.

Definition FormatG (x : spec_float) : string :=
  match x with
  | S754_nan => "NaN"
  | S754_infinity s => if s then "-Inf" else "+Inf"
  | S754_zero s => if s then "-0" else "0"
  | S754_finite s m e =>
      let '(ds, dp) := shortest m e in
      let exp := dp - 1 in
      (if s then "-" else EmptyString) +:+
      (if (exp <? -4) || (6 <=? exp) then fmtE ds dp else fmtF ds dp)
  end.

End float64.

(** ** Package strconv: [Atoi] *)

Module strconv.
Local Open Scope Z_scope.

(** [strconv.Atoi] with a 64-bit [int]: an optional sign and at least one
    decimal digit, nothing else; a value outside of the [int] range is an
    error. *)
Definition Atoi (s : string) : option Z :=
  let '(neg, body) :=
    match s with
    | String "-" t => (true, t)
    | String "+" t => (false, t)
    | _ => (false, s)
    end in
  if float64.allDigits body && negb (String.length body =? 0)%nat then
    let n := float64.decimalValue 0 body in
    let v := if neg then - n else n in
    if (- 2 ^ 63 <=? v) && (v <=? 2 ^ 63 - 1) then Some v else None
  else None.

End strconv.

(** ** Package fmt: a string at a computed width *)

Module fmt.
Import gostring.
Local Open Scope Z_scope.

(** [fmt.Sprintf(fmt.Sprintf("%%%ds", n), s)].

    The inner call writes the format: [%0s] for [n = 0], where [0] is a
    flag and there is no width; [%-Ns] for a negative [n], where [-] is
    the flag of padding on the right; [%Ns] otherwise.  The width is
    counted in runes and filled with spaces.  The scan of the width
    gives up when the number read before a further digit exceeds
    [1e6]; the verb is then lost and the operand is reported as extra. *)
Definition padding (n : Z) : string := Repeat " " (Z.to_nat n).

Definition SprintfWidth (n : Z) (s : string) : string :=
  let runes := Z.of_nat (RuneCountInString s) in
  if 1000000 <? Z.abs n / 10 then "%!(NOVERB)%!(EXTRA string=" +:+ s +:+ ")"
  else if n =? 0 then s
  else if 0 <? n then padding (n - runes) +:+ s
  else s +:+ padding (- n - runes).

End fmt.

(** ** Package slices and cmp *)

Module slices.
Local Open Scope Z_scope.

Section Sort.
Context {A : Type} (cmp : A -> A -> Z).

(** [x] stood before every element of [l]: it goes behind the elements
    that are less and before the first one that is not. *)
Fixpoint insert (x : A) (l : list A) : list A :=
  match l with
  | [] => [x]
  | y :: l' => if cmp y x <? 0 then y :: insert x l' else x :: y :: l'
  end.

(** [slices.SortStableFunc] sorts blocks by insertion and merges them
    keeping equal elements in order; for a [cmp] that is a strict weak
    ordering the stable result is unique, and is the one of insertion
    sort over the whole slice. *)
Fixpoint SortStableFunc (l : list A) : list A :=
  match l with
  | [] => []
  | x :: l' => insert x (SortStableFunc l')
  end.
End Sort.

(** [cmp.Compare] at [int] and at [string] (byte-wise). *)
Definition ofComparison (c : comparison) : Z :=
  match c with Lt => -1 | Eq => 0 | Gt => 1 end.

Definition CompareInt (x y : Z) : Z := ofComparison (x ?= y).
Definition CompareString (x y : string) : Z := ofComparison (String.compare x y).

End slices.

(** ** Package chart *)

Module chart.
Local Open Scope Z_scope.
Import gostring.

Inductive error : Type :=
| missingSeparator                     (* "missing data separator" *)
| missingLabel                         (* "missing label" *)
| missingValue                         (* "missing value" *)
| parsingFloat (value : string)        (* "parsing %q as float64: %w" *)
| unknownLabel                         (* "unknown label" *)
| applyingOption (i : Z) (e : error)   (* "applying option #%d: %w" *)
| gettingValue (label : string) (e : error) (* "getting value for %q label: %w" *)
| writingToOut (e : error)             (* "writing to out: %w" *)
| invalidOption (msg : string)         (* an option that refuses its argument *)
| writerError (msg : string).          (* an error of the io.Writer *)

(** *** The two regular expressions

    Both are a single character class of ASCII characters, so a match is
    one byte: a byte of a longer UTF-8 sequence is never in the class. *)

(** [[\s,;:|#]]; [\s] is TAB, LF, FF, CR and SPACE. *)
Definition dataSepRE (c : ascii) : bool :=
  let n := code c in
  ((n =? 9) || (n =? 10) || (n =? 12) || (n =? 13) || (n =? 32)
   || (n =? 44) || (n =? 59) || (n =? 58) || (n =? 124) || (n =? 35))%nat.

(** [[\d\.]] *)
Definition floatRE (c : ascii) : bool :=
  float64.isDigit c || Ascii.eqb c ".".

(** [re.FindStringIndex(s)]: the location of the leftmost match. *)
Fixpoint FindStringIndex (re : ascii -> bool) (s : string) : option (nat * nat) :=
  match s with
  | EmptyString => None
  | String c s' =>
      if re c then Some (O, 1%nat)
      else match FindStringIndex re s' with
           | Some (i, j) => Some (S i, S j)
           | None => None
           end
  end.

(** [re.FindAllString(s, -1)]: all matches, left to right. *)
Fixpoint FindAllString (re : ascii -> bool) (s : string) : list string :=
  match s with
  | EmptyString => []
  | String c s' =>
      if re c then String c EmptyString :: FindAllString re s'
      else FindAllString re s'
  end.

(** *** Sort options *)

Inductive SortOption := SortNone | SortByLabel | SortByLabelNumeric | SortByValue.
Inductive SortDirection := OrderNone | OrderAsc | OrderDesc.

Definition DefaultSort := SortNone.
Definition DefaultSortDirection := OrderNone.
Definition DefaultPrecision : Z := 2.

(** *** orderedMap

    The lock is left out: every method holds it from entry to return. *)
Record orderedMap := { m : gmap string spec_float; k : list string }.

Definition newOrderedMap : orderedMap := {| m := ∅; k := [] |}.

Definition orderedMap_set (om : orderedMap) (key : string) (val : spec_float)
  : orderedMap :=
  match m om !! key with
  | Some _ => {| m := <[key := val]> (m om); k := k om |}
  | None => {| m := <[key := val]> (m om); k := k om ++ [key] |}
  end.

Definition orderedMap_get (om : orderedMap) (key : string) : spec_float * bool :=
  match m om !! key with
  | Some val => (val, true)
  | None => (float64.zero, false)
  end.

Definition orderedMap_keys (om : orderedMap) : list string := k om.

(** [m.m[k]] is the zero value for an absent key. *)
Definition orderedMap_values (om : orderedMap) : list spec_float :=
  map (fun key => default float64.zero (m om !! key)) (k om).

(** *** Chart *)

Record Chart := {
  data : orderedMap;
  sort : SortOption;
  sortDir : SortDirection;
  p : spec_float
}.

Definition ChartOption := Chart -> result error Chart.

Fixpoint applyOptions (i : Z) (opts : list ChartOption) (c : Chart)
  : result error Chart :=
  match opts with
  | [] => Ok c
  | opt :: opts' =>
      match opt c with
      | Err e => Err (applyingOption (i + 1) e)
      | Ok c' => applyOptions (i + 1) opts' c'
      end
  end.

Definition New (opts : list ChartOption) : result error Chart :=
  applyOptions 0 opts
    {| data := newOrderedMap;
       sort := DefaultSort;
       sortDir := DefaultSortDirection;
       p := float64.Pow10 (float64.ofZ DefaultPrecision) |}.

Definition WithSorting (sort : SortOption) (dir : SortDirection) : ChartOption :=
  fun c => Ok {| data := data c; sort := sort; sortDir := dir; p := p c |}.

Definition WithPrecision (p : Z) : ChartOption :=
  fun c =>
    let p := if p <? 0 then 0 else p in
    Ok {| data := data c; sort := sort c; sortDir := sortDir c;
          p := float64.Pow10 (float64.ofZ p) |}.

Definition Chart_Set (c : Chart) (label : string) (value : spec_float) : Chart :=
  {| data := orderedMap_set (data c) label value;
     sort := sort c; sortDir := sortDir c; p := p c |}.

Definition Chart_Add (c : Chart) (label : string) (value : spec_float) : Chart :=
  let value :=
    match orderedMap_get (data c) label with
    | (val, true) => float64.add value val
    | (_, false) => value
    end in
  Chart_Set c label value.

(** [stringToInt] *)
Definition stringToInt (s : string) : Z :=
  match strconv.Atoi s with
  | Some num => num
  | None =>
      let numStr := Join (FindAllString floatRE s) EmptyString in
      if String.eqb numStr EmptyString then 0
      else match strconv.Atoi numStr with
           | Some num => num
           | None => 0
           end
  end.

Definition Chart_Labels (c : Chart) : list string :=
  let labels := orderedMap_keys (data c) in
  let labels :=
    match sort c with
    | SortByLabel => slices.SortStableFunc slices.CompareString labels
    | SortByLabelNumeric =>
        slices.SortStableFunc
          (fun i j => slices.CompareInt (stringToInt i) (stringToInt j)) labels
    | SortByValue =>
        slices.SortStableFunc
          (fun i j =>
             let iVal := fst (orderedMap_get (data c) i) in
             let jVal := fst (orderedMap_get (data c) j) in
             float64.Compare iVal jVal) labels
    | SortNone => labels
    end in
  match sortDir c with
  | OrderDesc => rev labels
  | _ => labels
  end.

Definition Chart_Value (c : Chart) (label : string) : result error spec_float :=
  match orderedMap_get (data c) label with
  | (val, true) =>
      Ok (float64.div (float64.Round (float64.mul val (p c))) (p c))
  | (_, false) => Err unknownLabel
  end.

Definition Chart_MaxValue (c : Chart) : spec_float :=
  let vals := orderedMap_values (data c) in
  if (length vals =? 0)%nat then float64.zero
  else
    let maxVal :=
      fold_left (fun maxVal val => if float64.gtb val maxVal then val else maxVal)
        vals float64.zero in
    float64.div (float64.Round (float64.mul maxVal (p c))) (p c).

Definition Chart_MaxLabel (c : Chart) : string :=
  let labels := orderedMap_keys (data c) in
  if (length labels =? 0)%nat then EmptyString
  else
    fold_left (fun maxLabel label =>
                 if (len maxLabel <? len label)%nat then label else maxLabel)
      labels EmptyString.

(** [ParseLine] *)
Definition ParseLine (line : string) : result error (spec_float * string) :=
  match FindStringIndex dataSepRE line with
  | None => Err missingSeparator
  | Some (sep0, sep1) =>
      let value := TrimSpace (slice line 0 sep0) in
      let label := TrimSpace (slice_from line sep1) in
      if String.eqb label EmptyString then Err missingLabel
      else
        let value :=
          TrimSuffix (Join (FindAllString floatRE value) EmptyString) "." in
        if String.eqb value EmptyString then Err missingValue
        else
          match float64.ParseFloat value with
          | None => Err (parsingFloat value)
          | Some count => Ok (count, label)
          end
  end.

(** *** Histories

    A chart is populated by calls of [Set] and [Add]. *)
Inductive call :=
| CallSet (label : string) (value : spec_float)
| CallAdd (label : string) (value : spec_float).

Definition callLabel (o : call) : string :=
  match o with CallSet l _ | CallAdd l _ => l end.

Definition step (c : Chart) (o : call) : Chart :=
  match o with
  | CallSet l v => Chart_Set c l v
  | CallAdd l v => Chart_Add c l v
  end.

Definition run (c : Chart) (calls : list call) : Chart := fold_left step calls c.

End chart.

(** ** Package mermaid *)

Module mermaid.
Local Open Scope Z_scope.
Import gostring chart.

Definition quote : string := String (ascii_of_nat 34) EmptyString.
Definition newline : string := String (ascii_of_nat 10) EmptyString.

Record Renderer := { title : string }.

Definition RendererOption := Renderer -> result error Renderer.

Fixpoint applyOptions (i : Z) (opts : list RendererOption) (r : Renderer)
  : result error Renderer :=
  match opts with
  | [] => Ok r
  | opt :: opts' =>
      match opt r with
      | Err e => Err (applyingOption (i + 1) e)
      | Ok r' => applyOptions (i + 1) opts' r'
      end
  end.

Definition NewRenderer (opts : list RendererOption) : result error Renderer :=
  applyOptions 0 opts {| title := EmptyString |}.

Definition WithTitle (title : string) : RendererOption :=
  fun _ => Ok {| title := title |}.

(** The loop of [Render] over the labels: [fmt.Sprintf("%g", value)] of
    every value, or the error of the first label without one. *)
Fixpoint formatValues (c : Chart) (labels : list string)
  : result error (list string) :=
  match labels with
  | [] => Ok []
  | label :: labels' =>
      match Chart_Value c label with
      | Err err => Err (gettingValue label err)
      | Ok value =>
          match formatValues c labels' with
          | Err err => Err err
          | Ok values => Ok (float64.FormatG value :: values)
          end
      end
  end.

(** What [Render] has in [buf] when it calls [out.Write]. *)
Definition buffer (r : Renderer) (labels values : list string) : string :=
  let buf := "xychart-beta" +:+ newline in
  let buf :=
    if negb (String.eqb (title r) EmptyString)
    then buf +:+ "  title " +:+ quote +:+ title r +:+ quote +:+ newline
    else buf in
  let buf :=
    buf +:+ "  x-axis [" +:+ quote +:+ Join labels (quote +:+ ", " +:+ quote)
        +:+ quote +:+ "]" +:+ newline in
  buf +:+ "  bar [" +:+ Join values ", " +:+ "]" +:+ newline.

Section Render.
(** An [io.Writer] in state [W]: [Write] returns the number of bytes
    written, an error or none, and the next state. *)
Context {W : Type} (Write : W -> string -> Z * option error * W).

Definition Render (r : Renderer) (c : Chart) (out : W)
  : Z * option error * W :=
  let labels := Chart_Labels c in
  match formatValues c labels with
  | Err err => (0, Some err, out)
  | Ok values =>
      match Write out (buffer r labels values) with
      | (n, Some err, out') => (n, Some (writingToOut err), out')
      | (n, None, out') => (n, None, out')
      end
  end.
End Render.

(** A writer that appends to a byte string and never fails, like
    [bytes.Buffer]. *)
Definition appendWrite (out : string) (b : string) : Z * option error * string :=
  (Z.of_nat (len b), None, out +:+ b).

End mermaid.

(** ** Package simple: the bar of the terminal renderer *)

Module simple.
Local Open Scope Z_scope.
Import gostring chart.

Definition smallTick : Z := 9615.       (* U+258F *)

Definition DefaultTick : Z := 9607.     (* U+2587 *)
Definition DefaultMaxLength : Z := 80.
Definition DefaultMaxLabelLength : Z := 20.
Definition DefaultScale : bool := false.

Record Renderer := {
  maxLen : Z;
  maxLabelLen : Z;
  scale : bool;
  tick : Z;
  longestLabelLen : Z;
  longestValLen : Z;
  maxVal : spec_float;
  barLen : Z
}.

Definition RendererOption := Renderer -> result error Renderer.

Fixpoint applyOptions (i : Z) (opts : list RendererOption) (r : Renderer)
  : result error Renderer :=
  match opts with
  | [] => Ok r
  | opt :: opts' =>
      match opt r with
      | Err e => Err (applyingOption (i + 1) e)
      | Ok r' => applyOptions (i + 1) opts' r'
      end
  end.

Definition NewRenderer (opts : list RendererOption) : result error Renderer :=
  applyOptions 0 opts
    {| maxLen := DefaultMaxLength;
       maxLabelLen := DefaultMaxLabelLength;
       scale := DefaultScale;
       tick := DefaultTick;
       longestLabelLen := 0;
       longestValLen := 0;
       maxVal := float64.zero;
       barLen := 0 |}.

Definition WithMaxLength (n : Z) : RendererOption :=
  fun r =>
    if n <=? 0 then Err (invalidOption "maximum length must be a positive integer")
    else
      Ok {| maxLen := n; maxLabelLen := maxLabelLen r; scale := scale r;
            tick := tick r; longestLabelLen := longestLabelLen r;
            longestValLen := longestValLen r; maxVal := maxVal r;
            barLen := barLen r |}.

Definition WithMaxLabelLength (n : Z) : RendererOption :=
  fun r =>
    if n <=? 0
    then Err (invalidOption "maximum label length must be a positive integer")
    else
      Ok {| maxLen := maxLen r; maxLabelLen := n; scale := scale r;
            tick := tick r; longestLabelLen := longestLabelLen r;
            longestValLen := longestValLen r; maxVal := maxVal r;
            barLen := barLen r |}.

Definition WithScaling (enable : bool) : RendererOption :=
  fun r =>
    Ok {| maxLen := maxLen r; maxLabelLen := maxLabelLen r; scale := enable;
          tick := tick r; longestLabelLen := longestLabelLen r;
          longestValLen := longestValLen r; maxVal := maxVal r;
          barLen := barLen r |}.

Definition WithTick (tick : Z) : RendererOption :=
  fun r =>
    Ok {| maxLen := maxLen r; maxLabelLen := maxLabelLen r; scale := scale r;
          tick := tick; longestLabelLen := longestLabelLen r;
          longestValLen := longestValLen r; maxVal := maxVal r;
          barLen := barLen r |}.

(** [r.value(value)] *)
Definition value (v : spec_float) : string := float64.FormatG v.

(** The four assignments with which [Render] starts, before it writes
    the rows. *)
Definition Render_setup (r : Renderer) (c : Chart) : Renderer :=
  let maxVal := Chart_MaxValue c in
  let longestLabelLen :=
    Z.min (Z.of_nat (len (Chart_MaxLabel c))) (maxLabelLen r) in
  let longestValLen := Z.of_nat (len (value maxVal)) in
  {| maxLen := maxLen r; maxLabelLen := maxLabelLen r; scale := scale r;
     tick := tick r; longestLabelLen := longestLabelLen;
     longestValLen := longestValLen; maxVal := maxVal;
     barLen := maxLen r - longestLabelLen - longestValLen - 2 |}.

(** What a call returns: a string, a run-time panic, or a value that the
    language leaves to the implementation. *)
Inductive outcome :=
| Returns (s : string)
| Panics
| ImplementationDefined.

Section Bar.
(** [math.Log10] *)
Variable Log10 : spec_float -> spec_float.

(** The bar length of a row before the zero test: a float64. *)
Definition barLength (r : Renderer) (value : spec_float) : spec_float :=
  let length :=
    float64.mul (float64.div value (maxVal r)) (float64.ofZ (barLen r)) in
  let length :=
    if scale r then
      float64.mul
        (float64.div (Log10 (float64.add value float64.one))
                     (Log10 (float64.add (maxVal r) float64.one)))
        (float64.ofZ (barLen r))
    else length in
  float64.Round length.

(** [int(length)] is exact for an integer in the range of [int] and
    left to the implementation otherwise; [strings.Repeat] panics on a
    negative count and on a result longer than the largest [int]. *)
Definition bar (r : Renderer) (value : spec_float) : outcome :=
  let length := barLength r value in
  if float64.eqb length float64.zero then
    if tick r =? DefaultTick then Returns (utf8 smallTick)
    else Returns EmptyString
  else
    match float64.trunc length with
    | Some n =>
        if (- 2 ^ 63 <=? n) && (n <=? 2 ^ 63 - 1) then
          if n <? 0 then Panics
          else if 2 ^ 63 - 1 <? Z.of_nat (len (utf8 (tick r))) * n then Panics
          else Returns (Repeat (utf8 (tick r)) (Z.to_nat n))
        else ImplementationDefined
    | None => ImplementationDefined
    end.
End Bar.

(** [int] arithmetic wraps around at 64 bits. *)
Definition int (z : Z) : Z := (z + 2 ^ 63) mod 2 ^ 64 - 2 ^ 63.

(** [truncate]: [sLen] counts runes and the two slice expressions count
    bytes; a slice expression panics when its bounds are not within the
    string, and the division of [int] rounds toward zero. *)
Definition truncate (s : string) (maxLen : Z) : outcome :=
  let sLen := Z.of_nat (RuneCountInString s) in
  if sLen <=? maxLen then Returns s
  else
    let ellips := "..." in
    let ellipsLen := Z.of_nat (len ellips) in
    let partLen := Z.quot (int (maxLen - ellipsLen)) 2 in
    if (partLen <? 0) || (Z.of_nat (len s) <? partLen) then Panics
    else
      let start := slice s 0 (Z.to_nat partLen) in
      if (sLen - partLen <? 0) || (Z.of_nat (len s) <? sLen - partLen)
      then Panics
      else
        let end_ := slice_from s (Z.to_nat (sLen - partLen)) in
        Returns (start +:+ ellips +:+ end_).

(** [r.label(label)] *)
Definition label (r : Renderer) (label : string) : outcome :=
  let truncated :=
    if maxLabelLen r <? Z.of_nat (len label)
    then truncate label (maxLabelLen r)
    else Returns label in
  match truncated with
  | Returns label =>
      Returns (fmt.SprintfWidth (Z.min (longestLabelLen r) (maxLabelLen r)) label)
  | o => o
  end.

(** The errors of [Render]: those of package chart, and
    ["writing bar for label %q (value %g): %w"]. *)
Inductive renderError :=
| chartError (err : error)
| writingBar (label : string) (value : spec_float) (err : error).

(** What [write] and [Render] do: they return a count, an error or none
    and leave the writer in a state, or they panic, or the language leaves
    open what they do. *)
Inductive rendering (E W : Type) :=
| Rendered (n : Z) (err : option E) (out : W)
| RenderPanics (out : W)
| RenderImplementationDefined (out : W).
Arguments Rendered {E W} n err out.
Arguments RenderPanics {E W} out.
Arguments RenderImplementationDefined {E W} out.

Section Render.
(** [math.Log10], and an [io.Writer] in state [W]. *)
Variable Log10 : spec_float -> spec_float.
Context {W : Type} (Write : W -> string -> Z * option error * W).

(** The operands of the [Fprintf] of [write] are evaluated from left to
    right, and the row is formatted from them. *)
Definition row (r : Renderer) (l : string) (v : spec_float) : outcome :=
  match label r l with
  | Returns l' =>
      match bar Log10 r v with
      | Returns b =>
          Returns (l' +:+ " " +:+ b +:+ " " +:+ value v +:+ mermaid.newline)
      | o => o
      end
  | o => o
  end.

(** [r.write(label, value, out)]: [Fprintf] formats the row and writes it
    with one call of [out.Write]. *)
Definition write (r : Renderer) (l : string) (v : spec_float) (out : W)
  : rendering error W :=
  match row r l v with
  | Returns s =>
      match Write out s with
      | (n, Some err, out') => Rendered n (Some (writingToOut err)) out'
      | (n, None, out') => Rendered n None out'
      end
  | Panics => RenderPanics out
  | ImplementationDefined => RenderImplementationDefined out
  end.

(** The loop of [Render] over the labels, from [written] bytes on. *)
Fixpoint rows (r : Renderer) (c : Chart) (labels : list string) (written : Z)
    (out : W) : rendering renderError W :=
  match labels with
  | [] => Rendered written None out
  | l :: labels' =>
      match Chart_Value c l with
      | Err err => Rendered written (Some (chartError (gettingValue l err))) out
      | Ok v =>
          match write r l v out with
          | Rendered n (Some err) out' =>
              Rendered written (Some (writingBar l v err)) out'
          | Rendered n None out' => rows r c labels' (int (written + n)) out'
          | RenderPanics out' => RenderPanics out'
          | RenderImplementationDefined out' => RenderImplementationDefined out'
          end
      end
  end.

Definition Render (r : Renderer) (c : Chart) (out : W)
  : rendering renderError W :=
  rows (Render_setup r c) c (Chart_Labels c) 0 out.
End Render.

End simple.

(** ** Package cli: the flags and the input loop of [Run] *)

Module cli.
Local Open Scope Z_scope.
Import gostring chart.

Record flags := {
  Count : bool;
  MaxLength : Z;
  MaxLabelLength : Z;
  Precision : Z;
  Scale : bool;
  Mermaid : bool;
  Chartjs : bool;
  Version : bool;
  Title : string;
  in_ : string;
  out : string;
  sort : string;
  desc : bool;
  tick : string
}.

Definition sortOptMap (key : string) : option SortOption :=
  if String.eqb key "none" then Some SortNone
  else if String.eqb key "label" then Some SortByLabel
  else if String.eqb key "labelnum" then Some SortByLabelNumeric
  else if String.eqb key "value" then Some SortByValue
  else None.

(** [f.Sort()]: a map indexed by a key that it does not have gives the
    zero value of [SortOption], which is [SortNone]. *)
Definition flags_Sort (f : flags) : SortOption :=
  match sortOptMap (sort f) with
  | Some o => o
  | None => SortNone
  end.

(** [f.SortDirection()] *)
Definition flags_SortDirection (f : flags) : SortDirection :=
  if desc f then OrderDesc else OrderAsc.

(** [f.Tick()]: [rune(f.tick[0])] is the first byte of the string. *)
Definition flags_Tick (f : flags) : Z :=
  match tick f with
  | EmptyString => simple.DefaultTick
  | String c _ => Z.of_nat (code c)
  end.

(** The chart that [Run] makes from the flags. *)
Definition newChart (f : flags) : result error Chart :=
  New [WithSorting (flags_Sort f) (flags_SortDirection f);
       WithPrecision (Precision f)].

(** The body of the input loop of [Run] on the text of one line, as the
    scanner gives it; the warning that is logged for a line that
    [ParseLine] rejects is left out. *)
Definition scanLine (f : flags) (c : Chart) (text : string) : Chart :=
  let line := TrimSpace text in
  if String.eqb line EmptyString || HasPrefix line "#" then c
  else if Count f then Chart_Add c (TrimSpace text) float64.one
  else
    match ParseLine line with
    | Err _ => c
    | Ok (value, label) => Chart_Set c label value
    end.

Definition scan (f : flags) (c : Chart) (texts : list string) : Chart :=
  fold_left (scanLine f) texts c.

(** The renderers that [Run] makes for the terminal and for Mermaid. *)
Definition newSimpleRenderer (f : flags) : result error simple.Renderer :=
  simple.NewRenderer
    [simple.WithMaxLength (MaxLength f);
     simple.WithMaxLabelLength (MaxLabelLength f);
     simple.WithScaling (Scale f);
     simple.WithTick (flags_Tick f)].

Definition newMermaidRenderer (f : flags) : result error mermaid.Renderer :=
  mermaid.NewRenderer [mermaid.WithTitle (Title f)].

End cli.

(** * Vocabulary of the specification *)

Import chart.

(** ** Sorting *)

(** The elements that compare equal to [k]. *)
Definition tied {A : Type} (cmp : A -> A -> Z) (k x : A) : bool :=
  (cmp x k =? 0)%Z.

(** The comparison by an integer key, and the elements with the key [n]. *)
Definition byKey {A : Type} (key : A -> Z) (i j : A) : Z :=
  slices.CompareInt (key i) (key j).

Definition keyed {A : Type} (key : A -> Z) (n : Z) (a : A) : bool :=
  (key a =? n)%Z.

(** The order of the floats that are not NaN, as the lexicographic order
    of triples of integers: the class (negative infinity, negative, zero,
    positive, positive infinity), then exponent and mantissa. *)
Definition rank (x : spec_float) : Z * Z * Z :=
  match x with
  | S754_nan => (-3, 0, 0)
  | S754_infinity s => (if s then -2 else 2, 0, 0)
  | S754_zero _ => (0, 0, 0)
  | S754_finite s m e =>
      if s then (-1, - e, - Z.pos m) else (1, e, Z.pos m)
  end%Z.

Definition lex3 (a b : Z * Z * Z) : comparison :=
  let '(a1, a2, a3) := a in
  let '(b1, b2, b3) := b in
  match (a1 ?= b1)%Z with
  | Eq => match (a2 ?= b2)%Z with
          | Eq => (a3 ?= b3)%Z
          | c => c
          end
  | c => c
  end.

(** Whether [a] and [b] have equal sort keys: their bytes for ByLabel,
    their integers for ByLabelNumeric, and for ByValue their stored values,
    where NaN ties with NaN and [-0] with [0]. *)
Definition sameSortKey (c : Chart) (a b : string) : bool :=
  let value l := fst (orderedMap_get (data c) l) in
  match sort c with
  | SortNone => true
  | SortByLabel => String.eqb b a
  | SortByLabelNumeric => (stringToInt b =? stringToInt a)%Z
  | SortByValue =>
      (float64.isNaN (value b) && float64.isNaN (value a))
      || float64.eqb (value b) (value a)
  end.

(** The chart [c] with the direction [d]. *)
Definition withDirection (c : Chart) (d : SortDirection) : Chart :=
  {| data := data c; sort := sort c; sortDir := d; p := p c |}.

(** ** Charts and their histories *)

(** The chart that [New] returns for the sort option [s], the direction
    [d] and the precision [prec]. *)
Definition configured (s : SortOption) (d : SortDirection) (prec : Z) : Chart :=
  {| data := newOrderedMap; sort := s; sortDir := d;
     p := float64.Pow10 (float64.ofZ (Z.max 0 prec)) |}.

(** The two options of a chart by name. *)
Inductive optionName :=
| sorting (s : SortOption) (d : SortDirection)
| precision (prec : Z).

Definition optionOf (o : optionName) : ChartOption :=
  match o with
  | sorting s d => WithSorting s d
  | precision prec => WithPrecision prec
  end.

(** The sorting and the precision that a list of options ends with, or
    the defaults. *)
Definition lastSorting (opts : list optionName) : SortOption * SortDirection :=
  fold_left (fun acc o => match o with
                          | sorting s d => (s, d)
                          | precision _ => acc
                          end)
    opts (DefaultSort, DefaultSortDirection).

Definition lastPrecision (opts : list optionName) : Z :=
  fold_left (fun acc o => match o with
                          | sorting _ _ => acc
                          | precision prec => prec
                          end)
    opts DefaultPrecision.

(** A store is well formed when its keys are distinct and are the labels
    that its map binds. *)
Definition wellFormed (om : orderedMap) : Prop :=
  NoDup (k om) /\ forall key, is_Some (m om !! key) <-> In key (k om).

(** Every label once, at its first occurrence. *)
Fixpoint firstOccurrences (l : list string) : list string :=
  match l with
  | [] => []
  | x :: l' =>
      x :: List.filter (fun y => negb (String.eqb x y)) (firstOccurrences l')
  end.

(** The value of every label after one more call: [Set] replaces it and
    [Add] adds to it, or sets it when there is none. *)
Definition storedStep (f : string -> option spec_float) (o : call)
  : string -> option spec_float :=
  fun l =>
    if String.eqb l (callLabel o) then
      match o with
      | CallSet _ v => Some v
      | CallAdd _ v =>
          match f l with
          | Some old => Some (float64.add v old)
          | None => Some v
          end
      end
    else f l.

(** The last value set, with what was added to it since. *)
Definition stored (calls : list call) : string -> option spec_float :=
  fold_left storedStep calls (fun _ => None).

(** ** Bytes of a string *)

(** The bytes of [s] that satisfy [f], in order. *)
Fixpoint keep (f : ascii -> bool) (s : string) : string :=
  match s with
  | EmptyString => EmptyString
  | String c s' => if f c then String c (keep f s') else keep f s'
  end.

(** Whether some byte of [s] satisfies [f]. *)
Fixpoint anyByte (f : ascii -> bool) (s : string) : bool :=
  match s with
  | EmptyString => false
  | String c s' => f c || anyByte f s'
  end.

Definition isDot (c : ascii) : bool := Ascii.eqb c ".".

(** All digit characters of the label, concatenated and read as a decimal
    integer; [0] when there is none. *)
Definition digitsKey (label : string) : Z :=
  float64.decimalValue 0 (keep float64.isDigit label).

(** No byte of the encodings [encs] is a digit or a dot. *)
Definition spaceOnly (encs : list (list nat)) : bool :=
  forallb (forallb (fun n => negb (floatRE (gostring.byte n)))) encs.

(** ** Lines *)

(** The separator characters: TAB, LF, FF, CR, SPACE, comma, semicolon,
    colon, pipe and number sign. *)
Definition separators : list ascii :=
  map gostring.byte [9; 10; 12; 13; 32; 44; 59; 58; 124; 35].

(** The value region [pre] with everything but digits and dots deleted,
    and then one trailing dot. *)
Definition numeral (pre : string) : string :=
  gostring.TrimSuffix (keep (fun c => float64.isDigit c || isDot c) pre) ".".

(** [sep] is a separator and no byte of [pre] is one. *)
Definition firstSeparator (pre : string) (sep : ascii) : Prop :=
  (forall c, In c (list_ascii_of_string pre) -> ~ In c separators) /\
  In sep separators.

(** The outcomes of [ParseLine], by the shape of the line. *)
Inductive ParseLineSpec : string -> result error (spec_float * string) -> Prop :=
| PL_noSeparator (line : string) :
    (forall c, In c (list_ascii_of_string line) -> ~ In c separators) ->
    ParseLineSpec line (Err missingSeparator)
| PL_emptyLabel (pre post : string) (sep : ascii) :
    firstSeparator pre sep ->
    gostring.TrimSpace post = EmptyString ->
    ParseLineSpec (pre +:+ String sep post) (Err missingLabel)
| PL_emptyValue (pre post : string) (sep : ascii) :
    firstSeparator pre sep ->
    gostring.TrimSpace post <> EmptyString ->
    numeral pre = EmptyString ->
    ParseLineSpec (pre +:+ String sep post) (Err missingValue)
| PL_invalidNumber (pre post : string) (sep : ascii) :
    firstSeparator pre sep ->
    gostring.TrimSpace post <> EmptyString ->
    numeral pre <> EmptyString ->
    float64.ParseFloat (numeral pre) = None ->
    ParseLineSpec (pre +:+ String sep post) (Err (parsingFloat (numeral pre)))
| PL_value (pre post : string) (sep : ascii) (value : spec_float) :
    firstSeparator pre sep ->
    gostring.TrimSpace post <> EmptyString ->
    numeral pre <> EmptyString ->
    float64.ParseFloat (numeral pre) = Some value ->
    ParseLineSpec (pre +:+ String sep post) (Ok (value, gostring.TrimSpace post)).

(** ** Renderers *)

(** The lines of [l], each ended by a newline, and a string in double
    quotes. *)
Definition lines (l : list string) : string :=
  fold_right (fun line rest => line +:+ mermaid.newline +:+ rest) EmptyString l.

Definition quoted (s : string) : string := mermaid.quote +:+ s +:+ mermaid.quote.

(** The renderer that [NewRenderer] makes with the tick [tick] and the
    defaults. *)
Definition defaultRenderer (tick : Z) : simple.Renderer :=
  {| simple.maxLen := simple.DefaultMaxLength;
     simple.maxLabelLen := simple.DefaultMaxLabelLength;
     simple.scale := simple.DefaultScale;
     simple.tick := tick;
     simple.longestLabelLen := 0;
     simple.longestValLen := 0;
     simple.maxVal := float64.zero;
     simple.barLen := 0 |}.

(** ** Orders of the sort options *)

(** [a] may stand before [b] in ascending order: by the bytes of the
    labels, by their integers, or by their values as [cmp.Compare] orders
    them (NaN first, then by [<]). *)
Definition sortedBefore (c : Chart) (a b : string) : Prop :=
  let value l := fst (orderedMap_get (data c) l) in
  match sort c with
  | SortNone => True
  | SortByLabel => String.leb a b = true
  | SortByLabelNumeric => (stringToInt a <= stringToInt b)%Z
  | SortByValue => (float64.Compare (value a) (value b) <= 0)%Z
  end.

(** ** The terminal renderer *)

(** The four options of the terminal renderer by name. *)
Inductive rendererOptionName :=
| maxLength (n : Z)
| maxLabelLength (n : Z)
| scaling (enable : bool)
| tickRune (tick : Z).

Definition rendererOptionOf (o : rendererOptionName) : simple.RendererOption :=
  match o with
  | maxLength n => simple.WithMaxLength n
  | maxLabelLength n => simple.WithMaxLabelLength n
  | scaling enable => simple.WithScaling enable
  | tickRune tick => simple.WithTick tick
  end.

(** An option that gives a length gives a positive one. *)
Definition positiveLength (o : rendererOptionName) : bool :=
  match o with
  | maxLength n | maxLabelLength n => (0 <? n)%Z
  | _ => true
  end.

(** Every byte of [s] satisfies [f]. *)
Fixpoint allBytes (f : ascii -> bool) (s : string) : bool :=
  match s with
  | EmptyString => true
  | String c s' => f c && allBytes f s'
  end.

Definition isASCII (c : ascii) : bool := (gostring.code c <? 128)%nat.

(** ** The lines of the command *)

(** A line that the input loop passes over: blank, or a comment. *)
Definition ignored (text : string) : bool :=
  let line := gostring.TrimSpace text in
  String.eqb line EmptyString || gostring.HasPrefix line "#".

(** How many lines are [label], once trimmed. *)
Definition occurrences (label : string) (texts : list string) : nat :=
  length (List.filter (fun text => String.eqb (gostring.TrimSpace text) label)
            texts).

(** The line reads as [value] for [label]. *)
Definition reads (text : string) (value : spec_float) (label : string) : Prop :=
  ParseLine (gostring.TrimSpace text) = Ok (value, label).

(** * Properties *)

(** ** The models of the library functions on known values *)

Example ParseFloat_tenth :
  float64.ParseFloat "0.1" = Some (S754_finite false 7205759403792794 (-56)).
Proof. vm_compute. reflexivity. Qed.

Example ParseFloat_syntax :
  float64.ParseFloat "1.2.3" = None /\ float64.ParseFloat "." = None /\
  float64.ParseFloat "1." = Some float64.one /\
  float64.ParseFloat ".5" = Some (float64.div float64.one (float64.ofZ 2)).
Proof. vm_compute. auto. Qed.

Example Pow10_small :
  float64.Pow10 (float64.ofZ 0) = float64.one /\
  float64.Pow10 (float64.ofZ 2) = float64.ofZ 100 /\
  float64.Pow10 (float64.ofZ 22) = float64.ofZ (10 ^ 22) /\
  float64.Pow10 (float64.ofZ 400) = S754_infinity false.
Proof. vm_compute. auto. Qed.

(** [math.Pow(10, p)] is exactly [10^p] as long as [10^p] is a float64. *)
Example Pow10_exact :
  forallb (fun n => float64.eqb (float64.Pow10 (float64.ofZ (Z.of_nat n)))
                      (float64.ofZ (10 ^ Z.of_nat n)))
    (seq 0 23) = true.
Proof. vm_compute. reflexivity. Qed.

Example Round_half_away :
  float64.Round (float64.div (float64.ofZ 5) (float64.ofZ 2)) = float64.ofZ 3 /\
  float64.Round (float64.div (float64.ofZ (-5)) (float64.ofZ 2)) = float64.ofZ (-3) /\
  float64.Round (float64.div (float64.ofZ (-1)) (float64.ofZ 4)) = S754_zero true /\
  float64.Round (float64.div float64.one (float64.ofZ 2)) = float64.one.
Proof. vm_compute. auto. Qed.

Example FormatG_layouts :
  float64.FormatG (float64.ofZ 100000) = "100000" /\
  float64.FormatG (float64.ofZ 1000000) = "1e+06" /\
  float64.FormatG (float64.ofZ 123456789) = "1.23456789e+08" /\
  float64.FormatG (S754_finite false 7205759403792794 (-56)) = "0.1" /\
  float64.FormatG (S754_finite false 5255137815187948 (-48)) = "18.67" /\
  float64.FormatG (S754_finite false 5902958103587057 (-69)) = "1e-05" /\
  float64.FormatG (S754_finite true 4897664594765414 (-50)) = "-4.35".
Proof. vm_compute. repeat split. Qed.

Example TrimSpace_unicode :
  gostring.TrimSpace
    (gostring.bytes [194; 160; 32; 65; 32; 66; 226; 128; 128; 9; 194; 133])
  = "A B".
Proof. reflexivity. Qed.

Example utf8_ticks :
  gostring.utf8 simple.smallTick = "▏" /\ gostring.utf8 simple.DefaultTick = "▇".
Proof. split; reflexivity. Qed.

(** ** Stable sorting *)

Section SortFacts.
Context {A : Type} (cmp : A -> A -> Z).

Lemma insert_Permutation (x : A) (l : list A) :
  Permutation (slices.insert cmp x l) (x :: l).
Proof.
  induction l as [|y l IH]; simpl; [reflexivity|].
  destruct (cmp y x <? 0)%Z; [|reflexivity].
  rewrite IH. apply perm_swap.
Qed.

Lemma SortStableFunc_Permutation (l : list A) :
  Permutation (slices.SortStableFunc cmp l) l.
Proof.
  induction l as [|x l IH]; simpl; [reflexivity|].
  rewrite insert_Permutation. now rewrite IH.
Qed.

(** What stability needs of [cmp]: an element less than one tied with [k]
    is not tied with [k]. *)
Hypothesis cmp_tied :
  forall y x k, (cmp y x < 0)%Z -> cmp x k = 0%Z -> cmp y k <> 0%Z.

Lemma filter_insert (k x : A) (l : list A) :
  List.filter (tied cmp k) (slices.insert cmp x l) =
  if tied cmp k x then x :: List.filter (tied cmp k) l else List.filter (tied cmp k) l.
Proof.
  induction l as [|y l IH]; simpl.
  - destruct (tied cmp k x); reflexivity.
  - destruct (cmp y x <? 0)%Z eqn:Hlt; simpl.
    + rewrite IH. destruct (tied cmp k x) eqn:Hx; [|reflexivity].
      assert (tied cmp k y = false) as ->; [|reflexivity].
      unfold tied in *. apply Z.ltb_lt in Hlt. apply Z.eqb_eq in Hx.
      apply Z.eqb_neq. eauto.
    + destruct (tied cmp k x); reflexivity.
Qed.

Lemma SortStableFunc_stable (k : A) (l : list A) :
  List.filter (tied cmp k) (slices.SortStableFunc cmp l) = List.filter (tied cmp k) l.
Proof.
  induction l as [|x l IH]; simpl; [reflexivity|].
  rewrite filter_insert, IH. reflexivity.
Qed.

Lemma SortStableFunc_stable_ext (f : A -> bool) (k : A) (l : list A) :
  (forall a, f a = tied cmp k a) ->
  List.filter f (slices.SortStableFunc cmp l) = List.filter f l.
Proof.
  intros Hf. rewrite !(List.filter_ext f (tied cmp k) Hf).
  apply SortStableFunc_stable.
Qed.
End SortFacts.

(** Sorting by an integer key. *)
Section SortByKey.
Context {A : Type} (key : A -> Z).

Lemma byKey_lt (i j : A) : (byKey key i j <? 0)%Z = (key i <? key j)%Z.
Proof.
  unfold byKey, slices.CompareInt, Z.ltb.
  destruct (key i ?= key j)%Z; reflexivity.
Qed.

Lemma byKey_tied (y x k : A) :
  (byKey key y x < 0)%Z -> byKey key x k = 0%Z -> byKey key y k <> 0%Z.
Proof.
  unfold byKey, slices.CompareInt.
  destruct (Z.compare_spec (key y) (key x)); simpl; try lia.
  destruct (Z.compare_spec (key x) (key k)); simpl; try lia.
  destruct (Z.compare_spec (key y) (key k)); simpl; lia.
Qed.

Lemma insert_sorted (x : A) (l : list A) :
  StronglySorted (fun a b => (key a <= key b)%Z) l ->
  StronglySorted (fun a b => (key a <= key b)%Z) (slices.insert (byKey key) x l).
Proof.
  induction 1 as [|y l Hs IH Hall]; simpl.
  - repeat constructor.
  - rewrite byKey_lt. destruct (Z.ltb_spec (key y) (key x)).
    + constructor; [exact IH|].
      eapply Permutation_Forall; [symmetry; apply insert_Permutation|].
      constructor; [lia|exact Hall].
    + constructor; [now constructor|].
      constructor; [exact H|].
      eapply Forall_impl; [exact Hall|]. simpl. intros; lia.
Qed.

Lemma SortStableFunc_sorted (l : list A) :
  StronglySorted (fun a b => (key a <= key b)%Z)
    (slices.SortStableFunc (byKey key) l).
Proof.
  induction l as [|x l IH]; simpl; [constructor|].
  now apply insert_sorted.
Qed.

Lemma filter_keyed_insert (n : Z) (x : A) (l : list A) :
  List.filter (keyed key n) (slices.insert (byKey key) x l) =
  if keyed key n x then x :: List.filter (keyed key n) l
  else List.filter (keyed key n) l.
Proof.
  induction l as [|y l IH]; simpl.
  - destruct (keyed key n x); reflexivity.
  - rewrite byKey_lt. destruct (Z.ltb_spec (key y) (key x)); simpl.
    + rewrite IH. unfold keyed in *.
      destruct (Z.eqb_spec (key x) n); [|reflexivity].
      destruct (Z.eqb_spec (key y) n); [lia|reflexivity].
    + destruct (keyed key n x); reflexivity.
Qed.

Lemma SortStableFunc_keyed (n : Z) (l : list A) :
  List.filter (keyed key n) (slices.SortStableFunc (byKey key) l)
  = List.filter (keyed key n) l.
Proof.
  induction l as [|x l IH]; simpl; [reflexivity|].
  rewrite filter_keyed_insert, IH. reflexivity.
Qed.
End SortByKey.

(** ** The three comparisons keep ties apart from what is less *)

Lemma CompareString_tied (y x k : string) :
  (slices.CompareString y x < 0)%Z -> slices.CompareString x k = 0%Z ->
  slices.CompareString y k <> 0%Z.
Proof.
  unfold slices.CompareString. intros Hlt Heq.
  assert (x = k) as <-.
  { apply String.compare_eq_iff. destruct (String.compare x k); simpl in Heq; congruence. }
  lia.
Qed.

Lemma CompareString_zero (x k : string) :
  (slices.CompareString x k =? 0)%Z = String.eqb x k.
Proof.
  unfold slices.CompareString.
  destruct (String.eqb_spec x k) as [->|Hne].
  - pose proof (String.compare_antisym k k) as Hk.
    destruct (String.compare k k); simpl in *; congruence.
  - destruct (String.compare x k) eqn:Hc; simpl; try reflexivity.
    apply String.compare_eq_iff in Hc. contradiction.
Qed.

Lemma SFcompare_rank (x y : spec_float) :
  float64.isNaN x = false -> float64.isNaN y = false ->
  SFcompare x y = Some (lex3 (rank x) (rank y)).
Proof.
  destruct x as [sx|sx| |sx mx ex], y as [sy|sy| |sy my ey];
    simpl; try discriminate; intros _ _;
    try (destruct sx; reflexivity); try (destruct sy; reflexivity);
    try (destruct sx, sy; reflexivity).
  destruct sx, sy; simpl; try reflexivity.
  rewrite Z.compare_opp, (Z.compare_antisym ex ey).
    change (Pos.compare_cont Eq mx my) with (mx ?= my)%positive.
    destruct (ex ?= ey)%Z; reflexivity.
Qed.

Lemma lex3_tied (a b c : Z * Z * Z) :
  lex3 a b = Lt -> lex3 b c = Eq -> lex3 a c = Lt.
Proof.
  destruct a as [[a1 a2] a3], b as [[b1 b2] b3], c as [[c1 c2] c3]. simpl.
  destruct (Z.compare_spec a1 b1), (Z.compare_spec b1 c1); try discriminate;
    destruct (Z.compare_spec a2 b2), (Z.compare_spec b2 c2); try discriminate;
    destruct (Z.compare_spec a3 b3), (Z.compare_spec b3 c3); try discriminate;
    intros _ _; subst;
    repeat match goal with
           | |- context [(?u ?= ?v)%Z] => destruct (Z.compare_spec u v)
           end; try reflexivity; lia.
Qed.

Lemma lex3_antisym (a b : Z * Z * Z) : lex3 b a = CompOpp (lex3 a b).
Proof.
  destruct a as [[a1 a2] a3], b as [[b1 b2] b3]. simpl.
  rewrite (Z.compare_antisym a1 b1), (Z.compare_antisym a2 b2),
    (Z.compare_antisym a3 b3).
  destruct (a1 ?= b1)%Z, (a2 ?= b2)%Z, (a3 ?= b3)%Z; reflexivity.
Qed.

(** [cmp.Compare] at float64 in terms of the ranks. *)
Lemma Compare_rank (x y : spec_float) :
  float64.isNaN x = false -> float64.isNaN y = false ->
  float64.Compare x y = slices.ofComparison (lex3 (rank x) (rank y)).
Proof.
  intros Hx Hy. unfold float64.Compare, float64.ltb, float64.gtb, SFltb.
  rewrite Hx, Hy, (SFcompare_rank x y Hx Hy), (SFcompare_rank y x Hy Hx).
  rewrite (lex3_antisym (rank x) (rank y)).
  destruct (lex3 (rank x) (rank y)); reflexivity.
Qed.

Lemma Compare_tied (y x k : spec_float) :
  (float64.Compare y x < 0)%Z -> float64.Compare x k = 0%Z ->
  float64.Compare y k <> 0%Z.
Proof.
  destruct (float64.isNaN x) eqn:Hx, (float64.isNaN k) eqn:Hk,
    (float64.isNaN y) eqn:Hy;
    try (unfold float64.Compare; rewrite ?Hx, ?Hk, ?Hy; simpl; lia);
    try (unfold float64.Compare; rewrite ?Hx, ?Hk, ?Hy; simpl;
         destruct (float64.ltb _ _), (float64.gtb _ _); lia).
  rewrite !Compare_rank by assumption. intros Hlt Heq.
  assert (lex3 (rank y) (rank x) = Lt) as H1
      by (destruct (lex3 (rank y) (rank x)); simpl in Hlt; lia || reflexivity).
  assert (lex3 (rank x) (rank k) = Eq) as H2
      by (destruct (lex3 (rank x) (rank k)); simpl in Heq; lia || reflexivity).
  rewrite (lex3_tied _ _ _ H1 H2). simpl. lia.
Qed.

(** ** Multiplying and dividing a float64 by one, and rounding it *)

Lemma digits2_size (p : positive) : digits2_pos p = Pos.size p.
Proof. induction p; simpl; congruence. Qed.

Lemma Zdigits2_log2 (n : Z) : (0 < n)%Z -> Zdigits2 n = (Z.log2 n + 1)%Z.
Proof.
  destruct n as [|p|p]; try lia. intros _. simpl. rewrite digits2_size.
  destruct p; simpl; rewrite ?Pos2Z.inj_succ; lia.
Qed.

Lemma Zdigits2_shift (m : positive) (k : Z) :
  (0 <= k)%Z -> Zdigits2 (Z.pos m * 2 ^ k) = (Zdigits2 (Z.pos m) + k)%Z.
Proof.
  intros Hk. rewrite !Zdigits2_log2 by nia.
  rewrite Z.log2_mul_pow2 by lia. lia.
Qed.

Lemma shr_1_double (z : Z) :
  (0 < z)%Z ->
  shr_1 {| shr_m := 2 * z; shr_r := false; shr_s := false |}
  = {| shr_m := z; shr_r := false; shr_s := false |}.
Proof. destruct z; try lia. reflexivity. Qed.

Lemma iter_shr_1 (p : positive) (z : Z) :
  (0 < z)%Z ->
  SpecFloat.iter_pos shr_1 p
    {| shr_m := z * 2 ^ Z.pos p; shr_r := false; shr_s := false |}
  = {| shr_m := z; shr_r := false; shr_s := false |}.
Proof.
  revert z. induction p as [p IH|p IH|]; intros z Hz.
  - cbn [SpecFloat.iter_pos].
    replace (z * 2 ^ Z.pos p~1)%Z with (2 * ((z * 2 ^ Z.pos p) * 2 ^ Z.pos p))%Z.
    2:{ replace (Z.pos p~1) with (Z.pos p + Z.pos p + 1)%Z by lia.
        rewrite !Z.pow_add_r by lia. ring. }
    rewrite shr_1_double by (apply Z.mul_pos_pos; [apply Z.mul_pos_pos|]; lia).
    rewrite IH by (apply Z.mul_pos_pos; lia). now apply IH.
  - cbn [SpecFloat.iter_pos].
    replace (z * 2 ^ Z.pos p~0)%Z with ((z * 2 ^ Z.pos p) * 2 ^ Z.pos p)%Z.
    2:{ replace (Z.pos p~0) with (Z.pos p + Z.pos p)%Z by lia.
        rewrite !Z.pow_add_r by lia. ring. }
    rewrite IH by (apply Z.mul_pos_pos; lia). now apply IH.
  - cbn [SpecFloat.iter_pos]. rewrite Z.mul_comm. now apply shr_1_double.
Qed.

Lemma canonical_fexp (m : positive) (e : Z) :
  bounded float64.prec float64.emax m e = true ->
  fexp float64.prec float64.emax (Zdigits2 (Z.pos m) + e) = e /\
  (e <= float64.emax - float64.prec)%Z.
Proof.
  unfold bounded, canonical_mantissa. intros [H1 H2]%andb_true_iff.
  apply Z.eqb_eq in H1. apply Z.leb_le in H2. split; [exact H1|exact H2].
Qed.

Lemma shr_fexp_exact (m : positive) (e k : Z) :
  bounded float64.prec float64.emax m e = true -> (0 <= k)%Z ->
  shr_fexp float64.prec float64.emax (Z.pos m * 2 ^ k) (e - k) loc_Exact
  = ({| shr_m := Z.pos m; shr_r := false; shr_s := false |}, e).
Proof.
  intros [Hfexp _]%canonical_fexp Hk. unfold shr_fexp.
  rewrite Zdigits2_shift by exact Hk.
  replace (Zdigits2 (Z.pos m) + k + (e - k))%Z with (Zdigits2 (Z.pos m) + e)%Z by lia.
  rewrite Hfexp. replace (e - (e - k))%Z with k by lia.
  cbn [shr_record_of_loc]. unfold shr.
  destruct k as [|p|p]; try lia.
  - rewrite Z.mul_1_r, Z.sub_0_r. reflexivity.
  - rewrite iter_shr_1 by lia. f_equal. lia.
Qed.

Lemma binary_round_aux_exact (s : bool) (m : positive) (e k : Z) :
  bounded float64.prec float64.emax m e = true -> (0 <= k)%Z ->
  binary_round_aux float64.prec float64.emax s (Z.pos m * 2 ^ k) (e - k) loc_Exact
  = S754_finite s m e.
Proof.
  intros Hb Hk. unfold binary_round_aux.
  rewrite (shr_fexp_exact m e k Hb Hk).
  cbn [shr_m loc_of_shr_record shr_r shr_s round_nearest_even].
  pose proof (shr_fexp_exact m e 0 Hb ltac:(lia)) as H0.
  rewrite Z.mul_1_r, Z.sub_0_r in H0. rewrite H0. cbn [shr_m].
  apply canonical_fexp in Hb as [_ Hle].
  destruct (Z.leb_spec e (float64.emax - float64.prec)); [reflexivity|lia].
Qed.

Lemma mul_one (x : spec_float) :
  float64.valid x = true -> float64.mul x float64.one = x.
Proof.
  destruct x as [s|s| |s m e]; intros Hv; try (destruct s; reflexivity); try reflexivity.
  change (float64.mul (S754_finite s m e) float64.one)
    with (binary_round_aux float64.prec float64.emax (xorb s false)
            (Z.pos (m * 4503599627370496)) (e + -52) loc_Exact).
  rewrite xorb_false_r, Pos2Z.inj_mul.
  change (Z.pos 4503599627370496) with (2 ^ 52)%Z.
  now apply binary_round_aux_exact.
Qed.

Lemma div_eucl_exact (a b : Z) :
  (0 < b)%Z -> Z.div_eucl (a * b) b = (a, 0%Z).
Proof.
  intros Hb.
  assert (Z.div_eucl (a * b) b = ((a * b) / b, (a * b) mod b)%Z) as ->.
  { unfold Z.div, Z.modulo. now destruct (Z.div_eucl (a * b) b). }
  rewrite Z.div_mul, Z.mod_mul by lia. reflexivity.
Qed.

Lemma SFdiv_core_one (m : positive) (e : Z) :
  bounded float64.prec float64.emax m e = true ->
  exists k, (0 <= k)%Z /\
    SFdiv_core_binary float64.prec float64.emax (Z.pos m) e
      (Z.pos 4503599627370496) (-52)
    = (Z.pos m * 2 ^ k, e - k, loc_Exact)%Z.
Proof.
  intros [Hfexp _]%canonical_fexp. unfold SFdiv_core_binary.
  change (Zdigits2 (Z.pos 4503599627370496)) with 53%Z.
  set (d := Zdigits2 (Z.pos m)) in *.
  set (e' := Z.min (fexp float64.prec float64.emax (d + e - (53 + -52))) (e - -52)).
  assert (e' = e \/ e' = e - 1)%Z as He'.
  { unfold e', fexp, emin, float64.prec, float64.emax in *. lia. }
  exists (e - e')%Z. split; [lia|].
  assert (e - -52 - e' = 52 + (e - e'))%Z as -> by lia.
  replace (e - (e - e'))%Z with e' by lia.
  destruct He' as [-> | ->].
  - replace (e - e)%Z with 0%Z by lia.
    change (52 + 0)%Z with 52%Z. cbv beta iota.
    rewrite Z.shiftl_mul_pow2 by lia.
    change (Z.pos 4503599627370496) with (2 ^ 52)%Z.
    rewrite (div_eucl_exact (Z.pos m) (2 ^ 52)) by lia.
    rewrite Z.mul_1_r. reflexivity.
  - replace (e - (e - 1))%Z with 1%Z by lia.
    change (52 + 1)%Z with 53%Z. cbv beta iota.
    rewrite Z.shiftl_mul_pow2 by lia.
    change (Z.pos 4503599627370496) with (2 ^ 52)%Z.
    replace (Z.pos m * 2 ^ 53)%Z with ((Z.pos m * 2 ^ 1) * 2 ^ 52)%Z by lia.
    rewrite (div_eucl_exact (Z.pos m * 2 ^ 1) (2 ^ 52)) by lia.
    reflexivity.
Qed.

Lemma div_one (x : spec_float) :
  float64.valid x = true -> float64.div x float64.one = x.
Proof.
  destruct x as [s|s| |s m e]; intros Hv; try (destruct s; reflexivity); try reflexivity.
  destruct (SFdiv_core_one m e Hv) as (k & Hk & Hcore).
  change (float64.div (S754_finite s m e) float64.one)
    with (let '(mz, ez, lz) :=
            SFdiv_core_binary float64.prec float64.emax (Z.pos m) e
              (Z.pos 4503599627370496) (-52) in
          binary_round_aux float64.prec float64.emax (xorb s false) mz ez lz).
  rewrite Hcore, xorb_false_r. now apply binary_round_aux_exact.
Qed.

Lemma iter_xO_pow (q d : positive) :
  Z.pos (Pos.iter xO q d) = (Z.pos q * 2 ^ Z.pos d)%Z.
Proof.
  induction d as [|d IH] using Pos.peano_ind.
  - simpl. lia.
  - rewrite Pos.iter_succ, Pos2Z.inj_xO, IH, Pos2Z.inj_succ, Z.pow_succ_r by lia.
    ring.
Qed.

Lemma binary_round_valid (sx : bool) (q : positive) :
  (Zdigits2 (Z.pos q) <= 53)%Z ->
  float64.valid (binary_round float64.prec float64.emax sx q 0) = true.
Proof.
  intros Hd. unfold binary_round.
  assert (1 <= Zdigits2 (Z.pos q))%Z as Hd1 by (simpl; lia).
  change (Z.pos (digits2_pos q)) with (Zdigits2 (Z.pos q)).
  assert (fexp float64.prec float64.emax (Zdigits2 (Z.pos q) + 0)
          = Zdigits2 (Z.pos q) - 53)%Z as ->.
  { unfold fexp, emin, float64.prec, float64.emax. lia. }
  unfold shl_align.
  destruct (Zdigits2 (Z.pos q) - 53 - 0)%Z as [|d|d] eqn:Hshift; try lia.
  - assert (bounded float64.prec float64.emax q 0 = true) as Hb.
    { unfold bounded, canonical_mantissa.
      change (Z.pos (digits2_pos q)) with (Zdigits2 (Z.pos q)).
      unfold fexp, emin, float64.prec, float64.emax.
      apply andb_true_iff. split; [apply Z.eqb_eq|apply Z.leb_le]; lia. }
    pose proof (binary_round_aux_exact sx q 0 0 Hb ltac:(lia)) as H.
    rewrite Z.mul_1_r in H. change (0 - 0)%Z with 0%Z in H. rewrite H. exact Hb.
  - set (e := (Zdigits2 (Z.pos q) - 53)%Z).
    assert (Zdigits2 (Z.pos (Pos.iter xO q d)) = 53)%Z as Hdig.
    { rewrite iter_xO_pow, Zdigits2_shift by lia. lia. }
    assert (bounded float64.prec float64.emax (Pos.iter xO q d) e = true) as Hb.
    { unfold bounded, canonical_mantissa.
      change (Z.pos (digits2_pos (Pos.iter xO q d)))
        with (Zdigits2 (Z.pos (Pos.iter xO q d))).
      rewrite Hdig. unfold fexp, emin, float64.prec, float64.emax, e.
      apply andb_true_iff. split; [apply Z.eqb_eq|apply Z.leb_le]; lia. }
    pose proof (binary_round_aux_exact sx (Pos.iter xO q d) e 0 Hb ltac:(lia)) as H.
    rewrite Z.mul_1_r, Z.sub_0_r in H. rewrite H. exact Hb.
Qed.

Lemma Round_valid (x : spec_float) :
  float64.valid x = true -> float64.valid (float64.Round x) = true.
Proof.
  destruct x as [s|s| |s m e]; intros Hv; try reflexivity.
  unfold float64.Round.
  destruct (Z.leb_spec 0 e) as [He|He]; [exact Hv|].
  apply canonical_fexp in Hv as [Hfexp _].
  assert (Zdigits2 (Z.pos m) <= 53)%Z as Hd.
  { unfold fexp, emin, float64.prec, float64.emax in Hfexp. lia. }
  assert (Z.pos m < 2 ^ 53)%Z as Hm.
  { rewrite Zdigits2_log2 in Hd by lia. apply Z.log2_lt_pow2; lia. }
  set (unit := (2 ^ (- e))%Z).
  assert (2 <= unit)%Z as Hunit.
  { unfold unit. replace (- e)%Z with (1 + (- e - 1))%Z by lia.
    rewrite Z.pow_add_r by lia.
    assert (0 < 2 ^ (- e - 1))%Z by (apply Z.pow_pos_nonneg; lia). lia. }
  set (t := (Z.pos m / unit)%Z).
  assert (0 <= t /\ 2 * t <= Z.pos m)%Z as [Ht0 Ht].
  { unfold t. split; [apply Z.div_pos; lia|].
    pose proof (Z.mul_div_le (Z.pos m) unit ltac:(lia)). nia. }
  set (n := if (unit <=? 2 * (Z.pos m mod unit))%Z then (t + 1)%Z else t).
  assert (0 <= n <= 2 ^ 52)%Z as Hn.
  { change (2 ^ 53)%Z with (2 * 2 ^ 52)%Z in Hm. unfold n.
    destruct (unit <=? 2 * (Z.pos m mod unit))%Z; lia. }
  destruct n as [|q|q] eqn:Hq; try lia.
  - destruct s; reflexivity.
  - assert (Zdigits2 (Z.pos q) <= 53)%Z as Hdq.
    { rewrite Zdigits2_log2 by lia.
      assert (Z.log2 (Z.pos q) < 53)%Z; [|lia].
      apply Z.log2_lt_pow2; [lia|]. change (2 ^ 53)%Z with (2 * 2 ^ 52)%Z. lia. }
    destruct s; simpl; now apply binary_round_valid.
Qed.

(** ** The label store *)

Lemma newOrderedMap_wellFormed : wellFormed newOrderedMap.
Proof.
  split; simpl; [constructor|].
  intros key. rewrite lookup_empty. split; [intros [v Hv]; discriminate|intros []].
Qed.

Lemma orderedMap_set_lookup (om : orderedMap) (key l : string) (val : spec_float) :
  m (orderedMap_set om key val) !! l =
  if String.eqb l key then Some val else m om !! l.
Proof.
  assert (m (orderedMap_set om key val) = <[key := val]> (m om)) as ->.
  { unfold orderedMap_set. destruct (m om !! key); reflexivity. }
  destruct (String.eqb_spec l key) as [->|Hne].
  - apply lookup_insert_eq.
  - apply lookup_insert_ne. congruence.
Qed.

Lemma orderedMap_set_keys (om : orderedMap) (key : string) (val : spec_float) :
  wellFormed om ->
  (In key (k om) -> k (orderedMap_set om key val) = k om) /\
  (~ In key (k om) -> k (orderedMap_set om key val) = k om ++ [key]).
Proof.
  intros [_ Hdom]. unfold orderedMap_set.
  destruct (m om !! key) eqn:Hk; simpl; split; intros Hin; try reflexivity.
  - exfalso. apply Hin, Hdom. rewrite Hk. eauto.
  - apply Hdom in Hin. rewrite Hk in Hin. destruct Hin; discriminate.
Qed.

Lemma orderedMap_set_wellFormed (om : orderedMap) (key : string) (val : spec_float) :
  wellFormed om -> wellFormed (orderedMap_set om key val).
Proof.
  intros Hwf. pose proof Hwf as [Hnd Hdom].
  destruct (orderedMap_set_keys om key val Hwf) as [Hin Hout].
  split.
  - destruct (in_dec string_dec key (k om)) as [H|H].
    + now rewrite (Hin H).
    + rewrite (Hout H). apply NoDup_app. repeat split; try assumption.
      * intros x Hx [<-|[]]%list_elem_of_In. apply H. now apply list_elem_of_In.
      * apply NoDup_singleton.
  - intros l. rewrite orderedMap_set_lookup.
    destruct (String.eqb_spec l key) as [->|Hne].
    + split; [intros _|eauto].
      destruct (in_dec string_dec key (k om)) as [H|H].
      * now rewrite (Hin H).
      * rewrite (Hout H). apply in_or_app. right. now left.
    + rewrite Hdom.
      destruct (in_dec string_dec key (k om)) as [H|H].
      * now rewrite (Hin H).
      * rewrite (Hout H), in_app_iff. simpl. intuition congruence.
Qed.

Lemma step_data (c : Chart) (o : call) :
  exists val, data (step c o) = orderedMap_set (data c) (callLabel o) val.
Proof. destruct o; simpl; eauto. Qed.

Lemma step_config (c : Chart) (o : call) :
  sort (step c o) = sort c /\ sortDir (step c o) = sortDir c /\ p (step c o) = p c.
Proof. destruct o; simpl; auto. Qed.

Lemma run_snoc (c : Chart) (calls : list call) (o : call) :
  run c (calls ++ [o]) = step (run c calls) o.
Proof. unfold run. now rewrite fold_left_app. Qed.

Lemma run_config (c : Chart) (calls : list call) :
  sort (run c calls) = sort c /\ sortDir (run c calls) = sortDir c /\
  p (run c calls) = p c.
Proof.
  induction calls as [|o calls IH] using rev_ind; [simpl; auto|].
  rewrite run_snoc. destruct (step_config (run c calls) o) as (-> & -> & ->).
  exact IH.
Qed.

Lemma run_wellFormed (c : Chart) (calls : list call) :
  wellFormed (data c) -> wellFormed (data (run c calls)).
Proof.
  intros Hwf. induction calls as [|o calls IH] using rev_ind; [exact Hwf|].
  rewrite run_snoc. destruct (step_data (run c calls) o) as [val ->].
  now apply orderedMap_set_wellFormed.
Qed.

(** *** Insertion order, as a function of the labels of the calls *)

Lemma firstOccurrences_In (x : string) (l : list string) :
  In x (firstOccurrences l) <-> In x l.
Proof.
  induction l as [|y l IH]; simpl; [tauto|].
  rewrite List.filter_In, IH.
  destruct (String.eqb_spec y x); simpl; intuition congruence.
Qed.

Lemma firstOccurrences_snoc (l : list string) (x : string) :
  firstOccurrences (l ++ [x]) =
  if in_dec string_dec x l then firstOccurrences l else firstOccurrences l ++ [x].
Proof.
  induction l as [|y l IH]; simpl.
  - reflexivity.
  - rewrite IH. destruct (string_dec y x) as [->|Hne].
    + destruct (in_dec string_dec x l) as [Hin|Hin]; [reflexivity|].
      rewrite List.filter_app. simpl. rewrite String.eqb_refl. simpl.
      now rewrite app_nil_r.
    + destruct (in_dec string_dec x l) as [Hin|Hin]; [reflexivity|].
      rewrite List.filter_app. simpl.
      destruct (String.eqb_spec y x); [contradiction|]. reflexivity.
Qed.

Lemma run_keys (c : Chart) (calls : list call) :
  data c = newOrderedMap ->
  orderedMap_keys (data (run c calls)) = firstOccurrences (map callLabel calls).
Proof.
  intros Hc. induction calls as [|o calls IH] using rev_ind.
  - simpl. now rewrite Hc.
  - rewrite run_snoc, map_app. cbn [map]. rewrite firstOccurrences_snoc.
    assert (wellFormed (data (run c calls))) as Hwf.
    { apply run_wellFormed. rewrite Hc. apply newOrderedMap_wellFormed. }
    destruct (step_data (run c calls) o) as [val ->].
    destruct (orderedMap_set_keys _ (callLabel o) val Hwf) as [Hin Hout].
    unfold orderedMap_keys in *.
    destruct (in_dec string_dec (callLabel o) (map callLabel calls)) as [H|H];
      rewrite <- firstOccurrences_In, <- IH in H.
    + rewrite (Hin H). exact IH.
    + rewrite (Hout H). now rewrite IH.
Qed.

(** *** The value of a label, as a function of the calls *)

Lemma stored_snoc (calls : list call) (o : call) :
  stored (calls ++ [o]) = storedStep (stored calls) o.
Proof. unfold stored. now rewrite fold_left_app. Qed.

Lemma run_lookup (c : Chart) (calls : list call) (l : string) :
  data c = newOrderedMap ->
  m (data (run c calls)) !! l = stored calls l.
Proof.
  intros Hc. induction calls as [|o calls IH] using rev_ind.
  - simpl. rewrite Hc. apply lookup_empty.
  - rewrite run_snoc, stored_snoc. unfold storedStep.
    destruct o as [label v|label v]; simpl.
    + rewrite orderedMap_set_lookup, IH. reflexivity.
    + unfold Chart_Add, Chart_Set, orderedMap_get. simpl.
      rewrite orderedMap_set_lookup.
      destruct (String.eqb_spec l label) as [->|Hne]; [|exact IH].
      rewrite IH. destruct (stored calls label); reflexivity.
Qed.

Lemma stored_None (calls : list call) (l : string) :
  stored calls l = None <-> ~ In l (map callLabel calls).
Proof.
  induction calls as [|o calls IH] using rev_ind; [simpl; tauto|].
  rewrite stored_snoc, map_app, in_app_iff. unfold storedStep. simpl.
  destruct (String.eqb_spec l (callLabel o)) as [->|Hne].
  - split; [|tauto]. destruct o; [discriminate|].
    destruct (stored calls _); discriminate.
  - rewrite IH. intuition congruence.
Qed.

(** ** Charts as [New] makes them *)

Lemma New_configured (s : SortOption) (d : SortDirection) (prec : Z) :
  New [WithSorting s d; WithPrecision prec] = Ok (configured s d prec).
Proof.
  unfold New, configured. simpl. unfold WithPrecision. simpl.
  destruct (Z.ltb_spec prec 0).
  - now rewrite Z.max_l by lia.
  - now rewrite Z.max_r by lia.
Qed.

Lemma New_inv (s : SortOption) (d : SortDirection) (prec : Z) (c0 : Chart) :
  New [WithSorting s d; WithPrecision prec] = Ok c0 -> c0 = configured s d prec.
Proof. rewrite New_configured. congruence. Qed.

(** Whatever the options and their order, [New] returns a chart that the
    two options in the order of [New_configured] make as well. *)
Lemma New_options (opts : list optionName) :
  exists s d prec, New (map optionOf opts) = Ok (configured s d prec).
Proof.
  unfold New.
  change {| data := newOrderedMap; sort := DefaultSort;
            sortDir := DefaultSortDirection;
            p := float64.Pow10 (float64.ofZ DefaultPrecision) |}
    with (configured SortNone OrderNone 2).
  generalize 0%Z, SortNone, OrderNone, 2%Z.
  induction opts as [|[s' d'|prec'] opts IH]; intros i s d prec; cbn [map applyOptions].
  - eauto.
  - apply (IH (i + 1)%Z s' d' prec).
  - assert (optionOf (precision prec') (configured s d prec)
            = Ok (configured s d prec')) as ->; [|apply IH].
    unfold optionOf, WithPrecision, configured. cbn [data sort sortDir].
    destruct (Z.ltb_spec prec' 0).
    + now rewrite Z.max_l by lia.
    + now rewrite Z.max_r by lia.
Qed.

(** ** Insertion order *)

(** C5 (amended).  For every sequence of Set and Add calls on a new chart
    the labels of the store are distinct and stand in the order of their
    first insertion; a call on a label that is present leaves the sequence
    as it is.  Under SortNone, Labels() returns that sequence when the
    direction is not Descending, and the reversed sequence when it is. *)
Theorem Labels_SortNone_insertion_order
    (d : SortDirection) (prec : Z) (calls : list call) (c0 : Chart) :
  New [WithSorting SortNone d; WithPrecision prec] = Ok c0 ->
  let c := run c0 calls in
  let inserted := firstOccurrences (map callLabel calls) in
  NoDup (orderedMap_keys (data c)) /\
  orderedMap_keys (data c) = inserted /\
  (forall o, In (callLabel o) (orderedMap_keys (data c)) ->
             orderedMap_keys (data (step c o)) = orderedMap_keys (data c)) /\
  (forall label v old, m (data c) !! label = Some old ->
     m (data (step c (CallSet label v))) !! label = Some v /\
     m (data (step c (CallAdd label v))) !! label = Some (float64.add v old)) /\
  (d <> OrderDesc -> Chart_Labels c = inserted) /\
  (d = OrderDesc -> Chart_Labels c = rev inserted).
Proof.
  intros ->%New_inv c inserted.
  assert (wellFormed (data c)) as Hwf
      by (apply run_wellFormed, newOrderedMap_wellFormed).
  assert (orderedMap_keys (data c) = inserted) as Hkeys by now apply run_keys.
  destruct (run_config (configured SortNone d prec) calls) as (Hs & Hd & _).
  fold c in Hs, Hd. simpl in Hs, Hd.
  repeat split.
  - apply Hwf.
  - exact Hkeys.
  - intros o Hin. destruct (step_data c o) as [val ->].
    now apply (orderedMap_set_keys _ _ val Hwf).
  - simpl. rewrite orderedMap_set_lookup. now rewrite String.eqb_refl.
  - simpl. unfold Chart_Add, Chart_Set, orderedMap_get. simpl.
    rewrite orderedMap_set_lookup, String.eqb_refl.
    match goal with H : m (data c) !! label = Some old |- _ => now rewrite H end.
  - intros Hdir. unfold Chart_Labels. rewrite Hs, Hd, Hkeys.
    destruct d; congruence.
  - intros ->. unfold Chart_Labels. now rewrite Hs, Hd, Hkeys.
Qed.

Lemma Labels_SortNone_insertion_order_witness :
  let calls := [CallSet "b" float64.one; CallAdd "a" float64.one;
                CallSet "b" (float64.ofZ 5)] in
  let c := run (configured SortNone OrderAsc 2) calls in
  New [WithSorting SortNone OrderAsc; WithPrecision 2]
    = Ok (configured SortNone OrderAsc 2) /\
  NoDup (orderedMap_keys (data c)) /\
  orderedMap_keys (data c) = ["b"; "a"] /\
  Chart_Labels c = ["b"; "a"].
Proof.
  intros calls c.
  pose proof (New_configured SortNone OrderAsc 2) as Hnew.
  destruct (Labels_SortNone_insertion_order OrderAsc 2 calls _ Hnew)
    as (Hnd & Hkeys & _ & _ & Hasc & _).
  exact (conj Hnew (conj Hnd (conj Hkeys (Hasc ltac:(discriminate))))).
Defined.

(** C5 as stated fails: with SortNone and the direction Descending, as
    [chart --desc] sets them, the labels inserted as a, b come out as b, a. *)
Lemma Labels_SortNone_descending_counterexample :
  New [WithSorting SortNone OrderDesc; WithPrecision 2]
    = Ok (configured SortNone OrderDesc 2) /\
  let calls := [CallSet "a" float64.one; CallSet "b" (float64.ofZ 2)] in
  let c := run (configured SortNone OrderDesc 2) calls in
  sort c = SortNone /\
  firstOccurrences (map callLabel calls) = ["a"; "b"] /\
  Chart_Labels c = ["b"; "a"] /\
  Chart_Labels c <> firstOccurrences (map callLabel calls).
Proof.
  split; [apply New_configured|].
  vm_compute. repeat split; congruence.
Qed.

(** ** Values *)

(** C7.  Value(label) fails with the unknown-label error exactly when no
    Set or Add call named the label; otherwise it returns the stored value
    v as round(v * 10^p) / 10^p, for the configured precision p (a negative
    one counts as 0). *)
Theorem Value_rounded_or_unknown
    (s : SortOption) (d : SortDirection) (prec : Z) (c0 : Chart)
    (calls : list call) (label : string) :
  New [WithSorting s d; WithPrecision prec] = Ok c0 ->
  let c := run c0 calls in
  let scale := float64.Pow10 (float64.ofZ (Z.max 0 prec)) in
  (Chart_Value c label = Err unknownLabel <-> ~ In label (map callLabel calls)) /\
  Chart_Value c label =
    match stored calls label with
    | Some v => Ok (float64.div (float64.Round (float64.mul v scale)) scale)
    | None => Err unknownLabel
    end.
Proof.
  intros ->%New_inv c scale.
  assert (Chart_Value c label =
          match stored calls label with
          | Some v => Ok (float64.div (float64.Round (float64.mul v scale)) scale)
          | None => Err unknownLabel
          end) as Hval.
  { unfold Chart_Value, orderedMap_get, c.
    rewrite (run_lookup (configured s d prec) calls label eq_refl).
    destruct (run_config (configured s d prec) calls) as (_ & _ & ->).
    destruct (stored calls label); reflexivity. }
  split; [|exact Hval].
  rewrite Hval, <- stored_None.
  destruct (stored calls label); split; congruence.
Qed.

Lemma Value_rounded_or_unknown_witness :
  let calls := [CallSet "a" (S754_finite false 5429652300748554 (-42));
                CallAdd "a" float64.one] in
  let c := run (configured SortNone OrderNone 1) calls in
  New [WithSorting SortNone OrderNone; WithPrecision 1]
    = Ok (configured SortNone OrderNone 1) /\
  Chart_Value c "b" = Err unknownLabel /\
  option_map float64.FormatG (stored calls "a") = Some "1235.56" /\
  (forall v, Chart_Value c "a" = Ok v -> float64.FormatG v = "1235.6").
Proof.
  intros calls c.
  pose proof (New_configured SortNone OrderNone 1) as Hnew.
  pose proof (Value_rounded_or_unknown SortNone OrderNone 1 _ calls "a" Hnew)
    as [_ Ha].
  pose proof (Value_rounded_or_unknown SortNone OrderNone 1 _ calls "b" Hnew)
    as [Hb _].
  split; [exact Hnew|]. split.
  - apply Hb. simpl. intros [H|[H|[]]]; discriminate.
  - split; [vm_compute; reflexivity|].
    intros v Hv. fold c in Ha. rewrite Ha in Hv. vm_compute in Hv.
    injection Hv as <-. vm_compute. reflexivity.
Defined.

(** ** Negative precision *)

(** C10.  WithPrecision with a negative argument returns no error and
    configures what WithPrecision(0) configures, so that New succeeds; the
    scale is 10^0 = 1, and Value returns round(v * 1) / 1, which for every
    float64 v is round(v), the nearest whole number. *)
Theorem WithPrecision_negative_clamped (prec : Z) (c : Chart) :
  (prec < 0)%Z ->
  WithPrecision prec c = WithPrecision 0 c /\
  WithPrecision prec c =
    Ok {| data := data c; sort := sort c; sortDir := sortDir c;
          p := float64.one |} /\
  New [WithPrecision prec] = New [WithPrecision 0] /\
  New [WithPrecision prec] =
    Ok {| data := newOrderedMap; sort := SortNone; sortDir := OrderNone;
          p := float64.one |} /\
  (forall s d, New [WithSorting s d; WithPrecision prec]
               = New [WithSorting s d; WithPrecision 0]) /\
  (forall c', WithPrecision prec c = Ok c' ->
     forall label v, m (data c') !! label = Some v ->
       Chart_Value c' label =
         Ok (float64.div (float64.Round (float64.mul v float64.one)) float64.one) /\
       (float64.valid v = true -> Chart_Value c' label = Ok (float64.Round v))).
Proof.
  intros Hneg.
  assert (forall c1, WithPrecision prec c1 =
                     Ok {| data := data c1; sort := sort c1;
                           sortDir := sortDir c1; p := float64.one |}) as H.
  { intros c1. unfold WithPrecision.
    destruct (Z.ltb_spec prec 0); [reflexivity|lia]. }
  split; [rewrite H; reflexivity|]. split; [apply H|].
  split; [unfold New; cbn [applyOptions]; rewrite H; reflexivity|].
  split; [unfold New; cbn [applyOptions]; rewrite H; reflexivity|].
  split.
  - intros s d. rewrite !New_configured. unfold configured.
    now rewrite Z.max_l by lia.
  - intros c' Hc' label v Hv. rewrite H in Hc'. injection Hc' as <-.
    assert (Chart_Value
              {| data := data c; sort := sort c; sortDir := sortDir c;
                 p := float64.one |} label
            = Ok (float64.div (float64.Round (float64.mul v float64.one))
                    float64.one)) as Hval.
    { unfold Chart_Value, orderedMap_get. simpl in *. now rewrite Hv. }
    split; [exact Hval|].
    intros Hvalid. rewrite Hval.
    now rewrite (mul_one v Hvalid), (div_one _ (Round_valid v Hvalid)).
Qed.

Lemma WithPrecision_negative_clamped_witness :
  (-3 < 0)%Z /\
  WithPrecision (-3) (configured SortByValue OrderDesc 4)
    = WithPrecision 0 (configured SortByValue OrderDesc 4) /\
  New [WithPrecision (-3)] =
    Ok {| data := newOrderedMap; sort := SortNone; sortDir := OrderNone;
          p := float64.one |} /\
  (forall c, WithPrecision (-3) (configured SortNone OrderNone 2) = Ok c ->
     let c' := Chart_Set c "a" (S754_finite false 5429652300748554 (-42)) in
     Chart_Value c' "a" = Ok (float64.ofZ 1235)).
Proof.
  assert (-3 < 0)%Z as Hneg by lia.
  destruct (WithPrecision_negative_clamped (-3)
              (configured SortByValue OrderDesc 4) Hneg) as (H1 & _ & _ & H4 & _).
  destruct (WithPrecision_negative_clamped (-3)
              (configured SortNone OrderNone 2) Hneg) as (_ & H2 & _).
  split; [exact Hneg|]. split; [exact H1|]. split; [exact H4|].
  intros c Hc c'. rewrite H2 in Hc. injection Hc as <-. reflexivity.
Defined.

(** ** The maximum *)

(** C4: the code at a chart whose only value is negative.  MaxValue()
    returns 0, while the one rounded value of the chart is -1. *)
Theorem MaxValue_negative_chart :
  let c := run (configured SortNone OrderNone 2) [CallSet "a" (float64.ofZ (-1))] in
  Chart_Labels c = ["a"] /\
  Chart_Value c "a" = Ok (float64.ofZ (-1)) /\
  Chart_MaxValue c = float64.zero.
Proof. vm_compute. repeat split. Qed.

(** MaxValue() of a chart without labels is 0. *)
Lemma MaxValue_empty (s : SortOption) (d : SortDirection) (prec : Z) :
  Chart_MaxValue (configured s d prec) = float64.zero.
Proof. reflexivity. Qed.

(** ** Ties *)

Lemma Compare_zero (x y : spec_float) :
  (float64.Compare x y =? 0)%Z =
  (float64.isNaN x && float64.isNaN y) || float64.eqb x y.
Proof.
  destruct (float64.isNaN x) eqn:Hx, (float64.isNaN y) eqn:Hy.
  - unfold float64.Compare. rewrite Hx, Hy. reflexivity.
  - unfold float64.Compare. rewrite Hx, Hy. destruct x; try discriminate.
    reflexivity.
  - unfold float64.Compare. rewrite Hx, Hy. destruct y; try discriminate.
    destruct x; reflexivity.
  - rewrite Compare_rank by assumption.
    unfold float64.eqb, SFeqb. rewrite SFcompare_rank by assumption.
    destruct (lex3 (rank x) (rank y)); reflexivity.
Qed.

(** C6.  For every chart sorted ByLabel, ByLabelNumeric or ByValue: when
    the direction is not Descending, the labels with the sort key of any
    given label stand in Labels() in their insertion order; when it is
    Descending, Labels() is the ascending result reversed as a whole, and
    those labels stand in the reverse of their insertion order. *)
Theorem Labels_ties_stable_then_reversed (c : Chart) (label : string) :
  sort c <> SortNone ->
  let ties := List.filter (sameSortKey c label) in
  (sortDir c <> OrderDesc ->
     ties (Chart_Labels c) = ties (orderedMap_keys (data c))) /\
  (sortDir c = OrderDesc ->
     Chart_Labels c = rev (Chart_Labels (withDirection c OrderAsc)) /\
     ties (Chart_Labels c) = rev (ties (orderedMap_keys (data c)))).
Proof.
  intros Hsort ties.
  assert (ties (Chart_Labels (withDirection c OrderAsc))
          = ties (orderedMap_keys (data c))) as Hasc.
  { unfold ties, Chart_Labels, withDirection, sameSortKey. simpl.
    destruct (sort c); [contradiction| | |].
    - apply (SortStableFunc_stable_ext slices.CompareString CompareString_tied
               _ label).
      intros a. unfold tied. now rewrite CompareString_zero.
    - apply (SortStableFunc_stable_ext (byKey stringToInt)
               (byKey_tied stringToInt) _ label).
      intros a. unfold tied, byKey, slices.CompareInt.
      destruct (Z.compare_spec (stringToInt a) (stringToInt label)); simpl; lia.
    - set (value := fun l => fst (orderedMap_get (data c) l)).
      apply (SortStableFunc_stable_ext
               (fun i j => float64.Compare (value i) (value j))
               (fun y x k => Compare_tied (value y) (value x) (value k)) _ label).
      intros a. unfold tied. now rewrite Compare_zero. }
  assert (forall d, d <> OrderDesc ->
            Chart_Labels (withDirection c d)
            = Chart_Labels (withDirection c OrderAsc)) as Hdir.
  { intros d Hd. unfold Chart_Labels, withDirection. simpl.
    destruct d; congruence. }
  split.
  - intros Hd. rewrite <- Hasc, <- (Hdir (sortDir c) Hd).
    destruct c; reflexivity.
  - intros Hd.
    assert (Chart_Labels c = rev (Chart_Labels (withDirection c OrderAsc))) as Hrev.
    { unfold Chart_Labels, withDirection. simpl. now rewrite Hd. }
    split; [exact Hrev|].
    rewrite Hrev. unfold ties. rewrite List.filter_rev. fold ties.
    now rewrite Hasc.
Qed.

Lemma Labels_ties_stable_then_reversed_witness :
  let c := run (configured SortByValue OrderDesc 2)
             [CallSet "a" float64.one; CallSet "b" float64.zero;
              CallSet "c" float64.one] in
  sort c <> SortNone /\ sortDir c = OrderDesc /\
  Chart_Labels c = rev (Chart_Labels (withDirection c OrderAsc)) /\
  List.filter (sameSortKey c "a") (Chart_Labels c) = ["c"; "a"].
Proof.
  intros c.
  assert (sort c <> SortNone) as Hs by discriminate.
  assert (sortDir c = OrderDesc) as Hd by reflexivity.
  destruct (Labels_ties_stable_then_reversed c "a" Hs) as [_ H].
  exact (conj Hs (conj Hd (H Hd))).
Defined.

(** ** The integer of a label *)

Lemma Join_FindAllString (re : ascii -> bool) (s : string) :
  gostring.Join (FindAllString re s) EmptyString = keep re s.
Proof.
  induction s as [|c s IH]; simpl; [reflexivity|].
  destruct (re c); [|exact IH].
  destruct (FindAllString re s) as [|e rest].
  - simpl in IH. now rewrite <- IH.
  - simpl. simpl in IH. now rewrite IH.
Qed.

Lemma keep_dotless (s : string) :
  anyByte isDot s = false -> keep floatRE s = keep float64.isDigit s.
Proof.
  induction s as [|c s IH]; simpl; [reflexivity|].
  intros [Hc Hs]%orb_false_iff.
  assert (floatRE c = float64.isDigit c) as ->.
  { unfold floatRE. fold (isDot c). rewrite Hc. apply orb_false_r. }
  rewrite (IH Hs). reflexivity.
Qed.

Lemma allDigits_keep (s : string) :
  float64.allDigits (keep float64.isDigit s) = true.
Proof.
  induction s as [|c s IH]; simpl; [reflexivity|].
  destruct (float64.isDigit c) eqn:Hc; [|exact IH].
  simpl. now rewrite Hc.
Qed.

Lemma anyByte_keep (f g : ascii -> bool) (s : string) :
  anyByte f s = false -> anyByte f (keep g s) = false.
Proof.
  induction s as [|c s IH]; simpl; [reflexivity|].
  intros [Hc Hs]%orb_false_iff.
  destruct (g c); simpl; [rewrite Hc|]; auto.
Qed.

Lemma allDigits_anyByte (s : string) :
  float64.allDigits s = true -> s <> EmptyString ->
  anyByte float64.isDigit s = true.
Proof.
  destruct s as [|c s]; [congruence|]. simpl.
  intros [-> _]%andb_true_iff _. reflexivity.
Qed.

Lemma digitVal_range (c : ascii) :
  float64.isDigit c = true -> (0 <= float64.digitVal c <= 9)%Z.
Proof.
  unfold float64.isDigit, float64.digitVal.
  intros [H1 H2]%andb_true_iff.
  apply Nat.leb_le in H1. apply Nat.leb_le in H2. lia.
Qed.

Lemma decimalValue_nonneg (s : string) (acc : Z) :
  float64.allDigits s = true -> (0 <= acc)%Z ->
  (0 <= float64.decimalValue acc s)%Z.
Proof.
  revert acc. induction s as [|c s IH]; simpl; intros acc; [auto|].
  intros [Hc Hs]%andb_true_iff Hacc. apply IH; [exact Hs|].
  pose proof (digitVal_range c Hc). lia.
Qed.

(** [Atoi] on a string of digits. *)
Lemma Atoi_digits (s : string) :
  float64.allDigits s = true -> s <> EmptyString ->
  (float64.decimalValue 0 s <= 2 ^ 63 - 1)%Z ->
  strconv.Atoi s = Some (float64.decimalValue 0 s).
Proof.
  intros Hs Hne Hmax.
  pose proof (decimalValue_nonneg s 0 Hs ltac:(lia)) as Hpos.
  destruct s as [|c t]; [congruence|].
  assert (strconv.Atoi (String c t) =
          if float64.allDigits (String c t)
             && negb (String.length (String c t) =? 0)%nat
          then
            let n := float64.decimalValue 0 (String c t) in
            if (- 2 ^ 63 <=? n)%Z && (n <=? 2 ^ 63 - 1)%Z then Some n else None
          else None) as ->.
  { simpl in Hs. apply andb_true_iff in Hs as [Hc _].
    destruct c as [[] [] [] [] [] [] [] []]; try discriminate Hc; reflexivity. }
  rewrite Hs. cbn [String.length Nat.eqb negb andb].
  cbv zeta.
  destruct (Z.leb_spec (- 2 ^ 63) (float64.decimalValue 0 (String c t))); [|lia].
  destruct (Z.leb_spec (float64.decimalValue 0 (String c t)) (2 ^ 63 - 1)); [|lia].
  reflexivity.
Qed.

(** [Atoi] succeeds only on a string with a digit. *)
Lemma Atoi_Some_digit (s : string) (n : Z) :
  strconv.Atoi s = Some n -> anyByte float64.isDigit s = true.
Proof.
  unfold strconv.Atoi.
  set (split := match s with
                | String "-" t => (true, t)
                | String "+" t => (false, t)
                | _ => (false, s)
                end).
  assert (forall body, snd split = body ->
            anyByte float64.isDigit body = true ->
            anyByte float64.isDigit s = true) as Hsplit.
  { intros body <-. subst split.
    destruct s as [|c t]; [auto|].
    destruct c as [[] [] [] [] [] [] [] []]; simpl; auto;
      intros ->; apply orb_true_r. }
  destruct split as [neg body]. simpl in Hsplit.
  destruct (float64.allDigits body) eqn:Hd; [|discriminate].
  destruct body as [|c t]; [discriminate|].
  intros _. apply (Hsplit _ eq_refl).
  now apply allDigits_anyByte.
Qed.

Lemma stringToInt_Atoi (label : string) (n : Z) :
  strconv.Atoi label = Some n -> stringToInt label = n.
Proof. unfold stringToInt. now intros ->. Qed.

Lemma stringToInt_noDigit (label : string) :
  anyByte float64.isDigit label = false -> stringToInt label = 0%Z.
Proof.
  intros Hnone. unfold stringToInt.
  destruct (strconv.Atoi label) as [n|] eqn:Ha.
  { apply Atoi_Some_digit in Ha. congruence. }
  rewrite Join_FindAllString.
  destruct (String.eqb _ _); [reflexivity|].
  destruct (strconv.Atoi (keep floatRE label)) as [n|] eqn:Hb; [|reflexivity].
  apply Atoi_Some_digit in Hb.
  rewrite (anyByte_keep _ _ _ Hnone) in Hb. discriminate.
Qed.

Lemma stringToInt_digits (label : string) :
  strconv.Atoi label = None -> anyByte isDot label = false ->
  (digitsKey label <= 2 ^ 63 - 1)%Z ->
  stringToInt label = digitsKey label.
Proof.
  intros Ha Hdot Hmax. unfold stringToInt, digitsKey in *.
  rewrite Ha, Join_FindAllString, (keep_dotless _ Hdot).
  destruct (String.eqb_spec (keep float64.isDigit label) EmptyString) as [->|Hne];
    [reflexivity|].
  now rewrite (Atoi_digits _ (allDigits_keep label) Hne Hmax).
Qed.

(** ** Sorting by the integer of the label *)

(** C3 (amended).  For every chart configured with ByLabelNumeric, the
    labels of Labels(), read backwards when the direction is Descending,
    are the insertion order sorted stably by the integer key stringToInt.
    The key of a label that as a whole is a decimal integer with an
    optional sign is that integer, sign included; the key of any other
    label without a dot is the integer read from all its digit characters
    concatenated, when that fits an int; the key of a label without digits
    is 0. *)
Theorem Labels_ByLabelNumeric_sorted (c : Chart) :
  sort c = SortByLabelNumeric ->
  let keys := orderedMap_keys (data c) in
  let ascending :=
    match sortDir c with OrderDesc => rev (Chart_Labels c) | _ => Chart_Labels c end in
  (Permutation ascending keys /\
   StronglySorted (fun a b => (stringToInt a <= stringToInt b)%Z) ascending /\
   (forall n, List.filter (fun l => (stringToInt l =? n)%Z) ascending
              = List.filter (fun l => (stringToInt l =? n)%Z) keys)) /\
  (forall label,
     (forall n, strconv.Atoi label = Some n -> stringToInt label = n) /\
     (strconv.Atoi label = None -> anyByte isDot label = false ->
      (digitsKey label <= 2 ^ 63 - 1)%Z -> stringToInt label = digitsKey label) /\
     (anyByte float64.isDigit label = false -> stringToInt label = 0%Z)).
Proof.
  intros Hsort keys ascending. split.
  - assert (ascending = slices.SortStableFunc (byKey stringToInt) keys) as ->.
    { unfold ascending, Chart_Labels. rewrite Hsort. fold keys.
      destruct (sortDir c); try reflexivity. apply rev_involutive. }
    split; [apply SortStableFunc_Permutation|].
    split; [apply SortStableFunc_sorted|].
    intros n. apply (SortStableFunc_keyed stringToInt n).
  - intros label. split; [apply stringToInt_Atoi|].
    split; [apply stringToInt_digits|apply stringToInt_noDigit].
Qed.

Lemma Labels_ByLabelNumeric_sorted_witness :
  let c := run (configured SortByLabelNumeric OrderDesc 2)
             [CallSet "CWE-78" float64.one; CallSet "none" float64.one;
              CallSet "CWE-22" float64.one; CallSet "-3" float64.one] in
  sort c = SortByLabelNumeric /\
  rev (Chart_Labels c) = ["-3"; "none"; "CWE-22"; "CWE-78"] /\
  stringToInt "-3" = (-3)%Z /\ stringToInt "CWE-78" = 78%Z /\
  stringToInt "none" = 0%Z.
Proof.
  intros c.
  assert (sort c = SortByLabelNumeric) as Hs by reflexivity.
  pose proof (Labels_ByLabelNumeric_sorted c Hs) as [_ Hkey].
  split; [exact Hs|]. split; [reflexivity|].
  split; [|split].
  - apply (Hkey "-3"). reflexivity.
  - apply (Hkey "CWE-78"); [reflexivity|reflexivity|vm_compute; discriminate].
  - apply (Hkey "none"). reflexivity.
Defined.

(** C3 as stated fails: the label -12 has the key -12, not the 12 of its
    digit characters, so that it is sorted before the label 5. *)
Lemma Labels_ByLabelNumeric_sign_counterexample :
  let c := run (configured SortByLabelNumeric OrderAsc 2)
             [CallSet "5" float64.one; CallSet "-12" float64.one] in
  sort c = SortByLabelNumeric /\
  Chart_Labels c = ["-12"; "5"] /\
  digitsKey "-12" = 12%Z /\ digitsKey "5" = 5%Z /\
  ~ StronglySorted (fun a b => (digitsKey a <= digitsKey b)%Z) (Chart_Labels c).
Proof.
  intros c.
  assert (Chart_Labels c = ["-12"; "5"]) as Hl by reflexivity.
  repeat split; try reflexivity.
  rewrite Hl. intros H. apply StronglySorted_inv in H as [_ H].
  apply Forall_inv in H. vm_compute in H. now apply H.
Qed.

(** ** Lines *)

Lemma FindStringIndex_None (re : ascii -> bool) (s : string) :
  FindStringIndex re s = None <-> anyByte re s = false.
Proof.
  induction s as [|c s IH]; simpl; [tauto|].
  destruct (re c); simpl; [split; discriminate|].
  rewrite <- IH. destruct (FindStringIndex re s) as [[i j]|]; split; congruence.
Qed.

Lemma FindStringIndex_split (re : ascii -> bool) (pre post : string) (c : ascii) :
  anyByte re pre = false -> re c = true ->
  FindStringIndex re (pre +:+ String c post)
  = Some (String.length pre, S (String.length pre)).
Proof.
  intros Hpre Hc. induction pre as [|a pre IH]; simpl in *.
  - now rewrite Hc.
  - apply orb_false_iff in Hpre as [-> Hpre]. now rewrite (IH Hpre).
Qed.

Lemma FindStringIndex_Some (re : ascii -> bool) (s : string) (i j : nat) :
  FindStringIndex re s = Some (i, j) ->
  exists pre c post,
    s = pre +:+ String c post /\ anyByte re pre = false /\ re c = true.
Proof.
  revert i j. induction s as [|a s IH]; simpl; intros i j; [discriminate|].
  destruct (re a) eqn:Ha.
  - intros _. exists EmptyString, a, s. auto.
  - destruct (FindStringIndex re s) as [[i' j']|]; [|discriminate].
    intros _. destruct (IH i' j' eq_refl) as (pre & c & post & -> & Hpre & Hc).
    exists (String a pre), c, post. simpl. rewrite Ha. auto.
Qed.

Lemma substring_all (s : string) : substring 0 (String.length s) s = s.
Proof. induction s as [|a s IH]; simpl; [reflexivity|now rewrite IH]. Qed.

Lemma slice_before (pre rest : string) :
  gostring.slice (pre +:+ rest) 0 (String.length pre) = pre.
Proof.
  unfold gostring.slice. rewrite Nat.sub_0_r.
  induction pre as [|a pre IH]; simpl.
  - destruct rest; reflexivity.
  - now rewrite IH.
Qed.

Lemma slice_after (pre post : string) (c : ascii) :
  gostring.slice_from (pre +:+ String c post) (S (String.length pre)) = post.
Proof.
  unfold gostring.slice_from, gostring.len.
  induction pre as [|a pre IH]; simpl.
  - rewrite Nat.sub_0_r. apply substring_all.
  - exact IH.
Qed.

(** [TrimSpace] removes no digit and no dot. *)
Lemma keep_of_list (f : ascii -> bool) (l : list ascii) :
  keep f (string_of_list_ascii l) = string_of_list_ascii (List.filter f l).
Proof.
  induction l as [|a l IH]; simpl; [reflexivity|].
  destruct (f a); simpl; now rewrite IH.
Qed.

Lemma keep_to_list (f : ascii -> bool) (s : string) :
  keep f s = string_of_list_ascii (List.filter f (list_ascii_of_string s)).
Proof. now rewrite <- keep_of_list, string_of_list_ascii_of_string. Qed.

Lemma isSpaceByte_not_float (c : ascii) :
  gostring.isSpaceByte c = true -> floatRE c = false.
Proof.
  destruct c as [[] [] [] [] [] [] [] []]; vm_compute; congruence.
Qed.

Lemma hasPrefix_app (p l : list ascii) :
  gostring.hasPrefix p l = true -> l = p ++ skipn (length p) l.
Proof.
  revert l. induction p as [|a p IH]; intros l; simpl; [reflexivity|].
  destruct l as [|b l]; [discriminate|].
  intros [Hab Hp]%andb_true_iff. apply Ascii.eqb_eq in Hab as ->.
  simpl. now rewrite <- (IH l Hp).
Qed.

Lemma skipn_spaceWidth (encs : list (list nat)) (l : list ascii) :
  spaceOnly encs = true ->
  List.filter floatRE (skipn (gostring.spaceWidth encs l) l) = List.filter floatRE l.
Proof.
  intros Hencs. unfold gostring.spaceWidth.
  destruct l as [|c l]; [reflexivity|].
  destruct (gostring.isSpaceByte c) eqn:Hc.
  - simpl. now rewrite (isSpaceByte_not_float c Hc).
  - destruct (find _ encs) as [q|] eqn:Hfind; [|reflexivity].
    apply find_some in Hfind as [Hin Hpre].
    apply hasPrefix_app in Hpre. rewrite length_map in Hpre.
    rewrite Hpre at 2. rewrite List.filter_app.
    assert (List.filter floatRE (map gostring.byte q) = []) as ->; [|reflexivity].
    unfold spaceOnly in Hencs. rewrite forallb_forall in Hencs.
    specialize (Hencs q Hin). clear -Hencs.
    induction q as [|n q IH]; simpl in *; [reflexivity|].
    apply andb_true_iff in Hencs as [Hn Hq].
    apply negb_true_iff in Hn. rewrite Hn. auto.
Qed.

Lemma trimFront_filter (encs : list (list nat)) (fuel : nat) (l : list ascii) :
  spaceOnly encs = true ->
  List.filter floatRE (gostring.trimFront encs fuel l) = List.filter floatRE l.
Proof.
  intros Hencs. revert l. induction fuel as [|fuel IH]; intros l; simpl; [reflexivity|].
  destruct (gostring.spaceWidth encs l) as [|w] eqn:Hw; [reflexivity|].
  rewrite IH, <- Hw. now apply skipn_spaceWidth.
Qed.

Lemma keep_TrimSpace (s : string) :
  keep floatRE (gostring.TrimSpace s) = keep floatRE s.
Proof.
  unfold gostring.TrimSpace, gostring.TrimRightSpace, gostring.TrimLeftSpace.
  rewrite keep_of_list, List.filter_rev, trimFront_filter by reflexivity.
  rewrite List.filter_rev, rev_involutive, trimFront_filter by reflexivity.
  now rewrite <- keep_to_list.
Qed.

Lemma anyByte_false (f : ascii -> bool) (s : string) :
  anyByte f s = false <-> forall c, In c (list_ascii_of_string s) -> f c = false.
Proof.
  induction s as [|a s IH]; simpl.
  - split; [intros _ c []|reflexivity].
  - rewrite orb_false_iff, IH. split.
    + intros [Ha Hs] c [<-|Hc]; auto.
    + intros H. split; [apply H; now left|]. intros c Hc. apply H. now right.
Qed.

Lemma dataSepRE_separators (c : ascii) : dataSepRE c = true <-> In c separators.
Proof.
  destruct c as [[] [] [] [] [] [] [] []]; vm_compute;
    (split; [intros H; try discriminate H; tauto
            |intros H; try reflexivity;
             repeat (destruct H as [H|H]; [discriminate H|]); destruct H]).
Qed.

Lemma dataSepRE_not_separator (c : ascii) : dataSepRE c = false <-> ~ In c separators.
Proof.
  rewrite <- dataSepRE_separators. destruct (dataSepRE c); split; congruence.
Qed.

Lemma firstSeparator_code (pre : string) (sep : ascii) :
  firstSeparator pre sep <-> anyByte dataSepRE pre = false /\ dataSepRE sep = true.
Proof.
  unfold firstSeparator. rewrite anyByte_false, dataSepRE_separators.
  split; intros [H1 H2]; (split; [|exact H2]); intros c Hc;
    apply dataSepRE_not_separator; auto.
Qed.

Lemma ParseLine_split (pre post : string) (sep : ascii) :
  firstSeparator pre sep ->
  ParseLine (pre +:+ String sep post) =
  if String.eqb (gostring.TrimSpace post) EmptyString then Err missingLabel
  else if String.eqb (numeral pre) EmptyString then Err missingValue
  else match float64.ParseFloat (numeral pre) with
       | None => Err (parsingFloat (numeral pre))
       | Some count => Ok (count, gostring.TrimSpace post)
       end.
Proof.
  intros [Hpre Hsep]%firstSeparator_code. unfold ParseLine.
  rewrite (FindStringIndex_split _ _ _ _ Hpre Hsep).
  rewrite slice_before, slice_after, Join_FindAllString, keep_TrimSpace.
  reflexivity.
Qed.

Lemma TrimSuffix_dot_empty (s : string) :
  gostring.TrimSuffix s "." = EmptyString <-> s = EmptyString \/ s = ".".
Proof.
  split.
  - destruct s as [|a [|b s]]; [auto| |].
    + intros H. right. unfold gostring.TrimSuffix, gostring.HasSuffix in H.
      simpl in H. destruct (Ascii.eqb_spec a "."); [now subst|discriminate].
    + unfold gostring.TrimSuffix. destruct (gostring.HasSuffix _ _); [|discriminate].
      unfold gostring.slice, gostring.len. simpl. discriminate.
  - intros [->| ->]; reflexivity.
Qed.

(** C2 (amended).  For every line [ParseLine] has exactly one of five
    outcomes.  The separators are TAB, LF, FF, CR, SPACE, comma, semicolon,
    colon, pipe and number sign.  A line without separator: the
    missing-separator error.  Otherwise, with [pre] before and [post]
    after the first separator: the missing-label error when [post]
    trimmed of white space is empty; else the missing-value error when
    [pre], stripped of everything but digits and dots and then of one
    trailing dot, is empty (so when the stripped region is empty or a
    single dot); else the invalid-number error when what is left does not
    parse as a float64; else the parsed float and the trimmed label. *)
Theorem ParseLine_outcomes (line : string) (r : result error (spec_float * string)) :
  (ParseLine line = r <-> ParseLineSpec line r) /\
  (forall pre, numeral pre = EmptyString <->
     keep (fun c => float64.isDigit c || isDot c) pre = EmptyString \/
     keep (fun c => float64.isDigit c || isDot c) pre = ".").
Proof.
  split; [|intros pre; apply TrimSuffix_dot_empty].
  split.
  - intros <-. destruct (FindStringIndex dataSepRE line) as [[i j]|] eqn:Hfind.
    + apply FindStringIndex_Some in Hfind as (pre & sep & post & -> & Hpre & Hsep).
      assert (firstSeparator pre sep) as Hfirst by now apply firstSeparator_code.
      rewrite (ParseLine_split _ _ _ Hfirst).
      destruct (String.eqb_spec (gostring.TrimSpace post) EmptyString) as [Hl|Hl].
      { now apply PL_emptyLabel. }
      destruct (String.eqb_spec (numeral pre) EmptyString) as [Hv|Hv].
      { now apply PL_emptyValue. }
      destruct (float64.ParseFloat (numeral pre)) as [value|] eqn:Hp.
      * now apply PL_value.
      * now apply PL_invalidNumber.
    + unfold ParseLine. rewrite Hfind. apply PL_noSeparator.
      apply FindStringIndex_None in Hfind. rewrite anyByte_false in Hfind.
      intros c Hc. apply dataSepRE_not_separator. auto.
  - intros Hspec. destruct Hspec as
      [line Hnone|pre post sep Hfirst Hl|pre post sep Hfirst Hl Hv
      |pre post sep Hfirst Hl Hv Hp|pre post sep value Hfirst Hl Hv Hp].
    + unfold ParseLine.
      assert (FindStringIndex dataSepRE line = None) as ->; [|reflexivity].
      apply FindStringIndex_None, anyByte_false.
      intros c Hc. apply dataSepRE_not_separator. auto.
    + rewrite (ParseLine_split _ _ _ Hfirst), Hl. reflexivity.
    + rewrite (ParseLine_split _ _ _ Hfirst), Hv.
      destruct (String.eqb_spec (gostring.TrimSpace post) EmptyString);
        [contradiction|reflexivity].
    + rewrite (ParseLine_split _ _ _ Hfirst), Hp.
      destruct (String.eqb_spec (gostring.TrimSpace post) EmptyString);
        [contradiction|].
      destruct (String.eqb_spec (numeral pre) EmptyString);
        [contradiction|reflexivity].
    + rewrite (ParseLine_split _ _ _ Hfirst), Hp.
      destruct (String.eqb_spec (gostring.TrimSpace post) EmptyString);
        [contradiction|].
      destruct (String.eqb_spec (numeral pre) EmptyString);
        [contradiction|reflexivity].
Qed.

Example ParseLine_examples :
  ParseLine "18.67,2021-Q1"
    = Ok (S754_finite false 5255137815187948 (-48), "2021-Q1") /\
  float64.FormatG (S754_finite false 5255137815187948 (-48)) = "18.67" /\
  ParseLine "42 " = Err missingLabel /\
  ParseLine "not a data line" = Err missingValue /\
  ParseLine "unseparated" = Err missingSeparator /\
  ParseLine ". dot" = Err missingValue /\
  ParseLine "1.2.3 version" = Err (parsingFloat "1.2.3").
Proof. vm_compute. repeat split. Qed.

(** C2 as stated fails: a carriage return is none of space, tab, comma,
    semicolon, colon, pipe and number sign, and yet it separates. *)
Lemma ParseLine_carriage_return_counterexample :
  let line := "1" +:+ String (gostring.byte 13) "apples" in
  (forall c, In c (list_ascii_of_string line) ->
             ~ In c (map gostring.byte [32; 9; 44; 59; 58; 124; 35])) /\
  ParseLine line = Ok (float64.one, "apples") /\
  ParseLine line <> Err missingSeparator.
Proof.
  intros line. split; [|split; [reflexivity|discriminate]].
  intros c Hc Hsep. simpl in Hc, Hsep.
  repeat (destruct Hc as [<-|Hc];
          [repeat (destruct Hsep as [Hsep|Hsep]; [discriminate Hsep|]);
           destruct Hsep|]).
  destruct Hc.
Qed.

(** C1 (amended).  In "$1,234.56 Revenue" the first separator is the comma:
    the value is 1, read from "$1" without its currency symbol, and the
    label is "234.56 Revenue".  Without the thousands separator,
    "$1234.56 Revenue" has the value 1234.56 and the label "Revenue". *)
Theorem ParseLine_currency_and_comma :
  ParseLine "$1,234.56 Revenue" = Ok (float64.one, "234.56 Revenue") /\
  ParseLine "$1234.56 Revenue"
    = Ok (S754_finite false 5429652300748554 (-42), "Revenue") /\
  float64.ParseFloat "1234.56" = Some (S754_finite false 5429652300748554 (-42)) /\
  float64.FormatG (S754_finite false 5429652300748554 (-42)) = "1234.56".
Proof. vm_compute. repeat split. Qed.

(** C1 as stated fails: the label is not "Revenue" and the value is not
    1234.56. *)
Lemma ParseLine_thousands_separator_counterexample :
  float64.ParseFloat "1234.56" = Some (S754_finite false 5429652300748554 (-42)) /\
  ParseLine "$1,234.56 Revenue"
    <> Ok (S754_finite false 5429652300748554 (-42), "Revenue") /\
  ~ (exists value, ParseLine "$1,234.56 Revenue" = Ok (value, "Revenue")).
Proof.
  assert (ParseLine "$1,234.56 Revenue" = Ok (float64.one, "234.56 Revenue")) as H
      by (vm_compute; reflexivity).
  split; [vm_compute; reflexivity|]. rewrite H. split.
  - discriminate.
  - intros [value Hv]. discriminate.
Qed.

(** ** The Mermaid renderer *)

(** C8.  For a chart whose labels are One, Two with the values 1, 2, the
    renderer with the title T hands its writer, in one call, exactly the
    four lines xychart-beta, title "T", x-axis ["One", "Two"] and
    bar [1, 2], each ended by a newline; without title it hands it the
    three other lines. *)
Theorem Render_one_two
    (W : Type) (Write : W -> string -> Z * option error * W)
    (c : Chart) (out : W) :
  Chart_Labels c = ["One"; "Two"] ->
  Chart_Value c "One" = Ok (float64.ofZ 1) ->
  Chart_Value c "Two" = Ok (float64.ofZ 2) ->
  let wrap w :=
    match w with
    | (n, Some err, out') => (n, Some (writingToOut err), out')
    | (n, None, out') => (n, None, out')
    end in
  mermaid.NewRenderer [mermaid.WithTitle "T"] = Ok {| mermaid.title := "T" |} /\
  mermaid.NewRenderer [] = Ok {| mermaid.title := EmptyString |} /\
  mermaid.Render Write {| mermaid.title := "T" |} c out =
    wrap (Write out
            (lines [ "xychart-beta";
                     "  title " +:+ quoted "T";
                     "  x-axis [" +:+ quoted "One" +:+ ", " +:+ quoted "Two" +:+ "]";
                     "  bar [1, 2]" ])) /\
  mermaid.Render Write {| mermaid.title := EmptyString |} c out =
    wrap (Write out
            (lines [ "xychart-beta";
                     "  x-axis [" +:+ quoted "One" +:+ ", " +:+ quoted "Two" +:+ "]";
                     "  bar [1, 2]" ])).
Proof.
  intros Hlabels Hone Htwo wrap.
  split; [reflexivity|]. split; [reflexivity|].
  unfold mermaid.Render. rewrite Hlabels.
  cbn [mermaid.formatValues]. rewrite Hone, Htwo.
  split; reflexivity.
Qed.

Lemma Render_one_two_witness :
  let c := run (configured SortNone OrderNone 2)
             [CallSet "One" (float64.ofZ 1); CallSet "Two" (float64.ofZ 2)] in
  Chart_Labels c = ["One"; "Two"] /\
  mermaid.Render mermaid.appendWrite {| mermaid.title := "T" |} c EmptyString =
    (62%Z, None,
     lines [ "xychart-beta";
             "  title " +:+ quoted "T";
             "  x-axis [" +:+ quoted "One" +:+ ", " +:+ quoted "Two" +:+ "]";
             "  bar [1, 2]" ]).
Proof.
  intros c.
  assert (Chart_Labels c = ["One"; "Two"]) as Hl by reflexivity.
  assert (Chart_Value c "One" = Ok (float64.ofZ 1)) as H1 by reflexivity.
  assert (Chart_Value c "Two" = Ok (float64.ofZ 2)) as H2 by reflexivity.
  destruct (Render_one_two string mermaid.appendWrite c EmptyString Hl H1 H2)
    as (_ & _ & H & _).
  exact (conj Hl H).
Defined.

(** ** The bar of the terminal renderer *)

(** C9.  Whenever the rounded bar length of a row is zero, the bar is the
    small tick when the tick of the renderer is the default tick, and the
    empty string for any other tick. *)
Theorem bar_of_length_zero
    (Log10 : spec_float -> spec_float) (r : simple.Renderer) (value : spec_float) :
  float64.eqb (simple.barLength Log10 r value) float64.zero = true ->
  (simple.tick r = simple.DefaultTick ->
     simple.bar Log10 r value = simple.Returns "▏") /\
  (simple.tick r <> simple.DefaultTick ->
     simple.bar Log10 r value = simple.Returns EmptyString).
Proof.
  intros Hzero. unfold simple.bar. rewrite Hzero.
  split; intros Htick.
  - rewrite Htick. reflexivity.
  - destruct (Z.eqb_spec (simple.tick r) simple.DefaultTick); [contradiction|reflexivity].
Qed.

Lemma bar_of_length_zero_witness :
  let c := run (configured SortNone OrderNone 2)
             [CallSet "zero" float64.zero; CallSet "ten" (float64.ofZ 10)] in
  let r := simple.Render_setup (defaultRenderer simple.DefaultTick) c in
  let r' := simple.Render_setup (defaultRenderer 35) c in
  simple.NewRenderer [] = Ok (defaultRenderer simple.DefaultTick) /\
  simple.NewRenderer [simple.WithTick 35] = Ok (defaultRenderer 35) /\
  simple.barLen r = 72%Z /\
  float64.eqb (simple.barLength (fun x => x) r float64.zero) float64.zero = true /\
  simple.bar (fun x => x) r float64.zero = simple.Returns "▏" /\
  simple.bar (fun x => x) r' float64.zero = simple.Returns EmptyString.
Proof.
  intros c r r'.
  assert (float64.eqb (simple.barLength (fun x => x) r float64.zero)
            float64.zero = true) as Hr by reflexivity.
  assert (float64.eqb (simple.barLength (fun x => x) r' float64.zero)
            float64.zero = true) as Hr' by reflexivity.
  destruct (bar_of_length_zero (fun x => x) r float64.zero Hr) as [Hdefault _].
  destruct (bar_of_length_zero (fun x => x) r' float64.zero Hr') as [_ Hother].
  split; [reflexivity|]. split; [reflexivity|]. split; [reflexivity|].
  split; [exact Hr|]. split; [exact (Hdefault eq_refl)|].
  apply Hother. discriminate.
Defined.

(** * Further properties of the code *)

(** ** Set and Add on one label *)

Lemma orderedMap_set_set (om : orderedMap) (key : string) (v1 v2 : spec_float) :
  orderedMap_set (orderedMap_set om key v1) key v2 = orderedMap_set om key v2.
Proof.
  unfold orderedMap_set at 1.
  assert (m (orderedMap_set om key v1) !! key = Some v1) as ->.
  { rewrite orderedMap_set_lookup. now rewrite String.eqb_refl. }
  unfold orderedMap_set. destruct (m om !! key); simpl;
    now rewrite insert_insert_eq.
Qed.

(** A later Set on a label makes an earlier Set on it as if it had not been,
    in values and in the order of the labels; an Add after a Set is the Set
    of the sum. *)
Theorem Set_then_Set_or_Add (c : Chart) (label : string) (v1 v2 : spec_float) :
  Chart_Set (Chart_Set c label v1) label v2 = Chart_Set c label v2 /\
  Chart_Add (Chart_Set c label v1) label v2
    = Chart_Set c label (float64.add v2 v1).
Proof.
  split.
  - unfold Chart_Set. simpl. now rewrite orderedMap_set_set.
  - unfold Chart_Add, orderedMap_get. cbn [data Chart_Set].
    rewrite orderedMap_set_lookup, String.eqb_refl.
    unfold Chart_Set. simpl. now rewrite orderedMap_set_set.
Qed.

(** ** What calls leave alone *)

Lemma step_keys_extend (c : Chart) (o : call) :
  orderedMap_keys (data (step c o)) = orderedMap_keys (data c) \/
  orderedMap_keys (data (step c o)) = orderedMap_keys (data c) ++ [callLabel o].
Proof.
  destruct (step_data c o) as [val ->]. unfold orderedMap_set, orderedMap_keys.
  destruct (m (data c) !! callLabel o); simpl; auto.
Qed.

Lemma step_lookup_other (c : Chart) (o : call) (l : string) :
  l <> callLabel o -> m (data (step c o)) !! l = m (data c) !! l.
Proof.
  intros Hne. destruct (step_data c o) as [val ->].
  rewrite orderedMap_set_lookup.
  destruct (String.eqb_spec l (callLabel o)); [contradiction|reflexivity].
Qed.

(** Whatever the chart, a sequence of Set and Add calls keeps the labels it
    finds, in their order, and appends only labels that the calls name; the
    value of a label that no call names stays as it is. *)
Theorem calls_extend_labels (c : Chart) (calls : list call) :
  (exists added,
     orderedMap_keys (data (run c calls)) = orderedMap_keys (data c) ++ added /\
     forall l, In l added -> In l (map callLabel calls)) /\
  (forall l, ~ In l (map callLabel calls) ->
     m (data (run c calls)) !! l = m (data c) !! l /\
     Chart_Value (run c calls) l = Chart_Value c l).
Proof.
  induction calls as [|o calls [(added & Hkeys & Hadded) Hframe]] using rev_ind.
  - split; [exists []; simpl; split; [now rewrite app_nil_r|tauto]|].
    intros l _. split; reflexivity.
  - rewrite run_snoc, map_app. cbn [map]. split.
    + destruct (step_keys_extend (run c calls) o) as [-> | ->].
      * exists added. split; [exact Hkeys|].
        intros l Hl. apply in_or_app. left. auto.
      * exists (added ++ [callLabel o]). split.
        -- now rewrite Hkeys, app_assoc.
        -- intros l [Hl|[<-|[]]]%in_app_or; apply in_or_app;
             [left; auto|right; now left].
    + intros l Hl.
      assert (l <> callLabel o /\ ~ In l (map callLabel calls)) as [Hne Hnot].
      { split; intros H; apply Hl, in_or_app; [right; left; congruence|now left]. }
      destruct (Hframe l Hnot) as [Hm Hv].
      assert (m (data (step (run c calls) o)) !! l = m (data c) !! l) as Hm'
          by now rewrite step_lookup_other.
      split; [exact Hm'|].
      unfold Chart_Value, orderedMap_get in *. rewrite Hm'.
      destruct (step_config (run c calls) o) as (_ & _ & ->).
      destruct (run_config c calls) as (_ & _ & ->). reflexivity.
Qed.

(** ** The labels that Labels() returns *)

Lemma Labels_Permutation_keys (c : Chart) :
  Permutation (Chart_Labels c) (orderedMap_keys (data c)).
Proof.
  unfold Chart_Labels.
  assert (forall l l' : list string, Permutation l l' ->
            Permutation (match sortDir c with OrderDesc => rev l | _ => l end) l')
    as Hdir.
  { intros l l' H. destruct (sortDir c); try exact H.
    now rewrite <- Permutation_rev. }
  apply Hdir. destruct (sort c);
    [reflexivity|apply SortStableFunc_Permutation..].
Qed.

(** Whatever the sort option and the direction, Labels() returns every label
    of the store exactly as often as the store has it: sorting and reversing
    lose no label and invent none. *)
Theorem Labels_same_labels (c : Chart) :
  Permutation (Chart_Labels c) (orderedMap_keys (data c)) /\
  length (Chart_Labels c) = length (orderedMap_keys (data c)) /\
  (forall l, In l (Chart_Labels c) <-> In l (orderedMap_keys (data c))).
Proof.
  pose proof (Labels_Permutation_keys c) as H.
  split; [exact H|]. split; [now apply Permutation_length|].
  intros l. split; apply Permutation_in; [exact H|now symmetry].
Qed.

Lemma New_options_inv (opts : list optionName) (c0 : Chart) :
  New (map optionOf opts) = Ok c0 -> exists s d prec, c0 = configured s d prec.
Proof.
  destruct (New_options opts) as (s & d & prec & ->). intros [= <-]. eauto.
Qed.

Lemma Value_Ok_iff_key (c : Chart) (l : string) :
  wellFormed (data c) ->
  (In l (orderedMap_keys (data c)) <-> exists v, Chart_Value c l = Ok v).
Proof.
  intros [_ Hdom]. unfold orderedMap_keys. rewrite <- Hdom.
  unfold Chart_Value, orderedMap_get.
  destruct (m (data c) !! l) as [v|]; split.
  - eauto.
  - intros _. eauto.
  - intros [v Hv]. discriminate.
  - intros [v Hv]. discriminate.
Qed.

(** For a chart that New returned, whatever the options, and that any
    calls populated: Labels() has no label twice, and Value succeeds on
    exactly the labels of Labels(), so that a renderer that asks for the
    value of each of them never meets the unknown-label error. *)
Theorem Value_succeeds_on_Labels
    (opts : list optionName) (c0 : Chart) (calls : list call) :
  New (map optionOf opts) = Ok c0 ->
  let c := run c0 calls in
  NoDup (Chart_Labels c) /\
  (forall l, In l (Chart_Labels c) <-> exists v, Chart_Value c l = Ok v) /\
  (forall l, ~ In l (Chart_Labels c) <-> Chart_Value c l = Err unknownLabel).
Proof.
  intros (s & d & prec & ->)%New_options_inv c.
  assert (wellFormed (data c)) as Hwf
      by (apply run_wellFormed, newOrderedMap_wellFormed).
  pose proof (Labels_Permutation_keys c) as Hperm.
  assert (forall l, In l (Chart_Labels c) <-> exists v, Chart_Value c l = Ok v)
    as Hin.
  { intros l. rewrite <- (Value_Ok_iff_key c l Hwf).
    split; apply Permutation_in; [exact Hperm|now symmetry]. }
  split; [|split; [exact Hin|]].
  - rewrite Hperm. apply Hwf.
  - intros l. rewrite Hin. unfold Chart_Value.
    destruct (orderedMap_get (data c) l) as [v []]; split; try congruence.
    + intros H. exfalso. apply H. eauto.
    + intros _ [v' Hv']. discriminate.
Qed.

Lemma Value_succeeds_on_Labels_witness :
  let c := run (configured SortByValue OrderDesc 2)
             [CallSet "b" (float64.ofZ 2); CallAdd "a" float64.one] in
  New (map optionOf [precision 2; sorting SortByValue OrderDesc])
    = Ok (configured SortByValue OrderDesc 2) /\
  Chart_Labels c = ["b"; "a"] /\
  NoDup (Chart_Labels c) /\
  Chart_Value c "c" = Err unknownLabel.
Proof.
  intros c.
  assert (New (map optionOf [precision 2; sorting SortByValue OrderDesc])
          = Ok (configured SortByValue OrderDesc 2)) as Hnew by reflexivity.
  destruct (Value_succeeds_on_Labels _ _
              [CallSet "b" (float64.ofZ 2); CallAdd "a" float64.one] Hnew)
    as (Hnd & _ & Hnot).
  split; [exact Hnew|]. split; [reflexivity|]. split; [exact Hnd|].
  apply Hnot. intros [H|[H|[]]]; discriminate.
Defined.

(** ** The longest label *)

Lemma MaxLabel_fold (labels : list string) (acc : string) :
  let r := fold_left (fun maxLabel label =>
                        if (gostring.len maxLabel <? gostring.len label)%nat
                        then label else maxLabel) labels acc in
  (r = acc /\ forall l, In l labels -> (gostring.len l <= gostring.len acc)%nat) \/
  (exists pre post,
     labels = pre ++ r :: post /\
     (gostring.len acc < gostring.len r)%nat /\
     (forall l, In l pre -> (gostring.len l < gostring.len r)%nat) /\
     (forall l, In l post -> (gostring.len l <= gostring.len r)%nat)).
Proof.
  revert acc. induction labels as [|x labels IH]; intros acc; simpl.
  - left. split; [reflexivity|intros l []].
  - destruct (Nat.ltb_spec (gostring.len acc) (gostring.len x)) as [Hlt|Hge].
    + destruct (IH x) as [[Hr Hall]|(pre & post & Heq & Hacc & Hpre & Hpost)].
      * right. exists [], labels. simpl in *. rewrite Hr.
        repeat split; [exact Hlt|intros l []|exact Hall].
      * right. exists (x :: pre), post. simpl in *.
        repeat split; [now rewrite <- Heq|lia| |exact Hpost].
        intros l [<-|Hl]; [exact Hacc|auto].
    + destruct (IH acc) as [[Hr Hall]|(pre & post & Heq & Hacc & Hpre & Hpost)].
      * left. simpl in *. split; [exact Hr|].
        intros l [<-|Hl]; [exact Hge|auto].
      * right. exists (x :: pre), post. simpl in *.
        repeat split; [now rewrite <- Heq|exact Hacc| |exact Hpost].
        intros l [<-|Hl]; [lia|auto].
Qed.

(** MaxLabel() of a chart without labels is the empty string.  Otherwise it
    is a label of the chart, at least as long in bytes as every label, and
    the first of that length in insertion order: every label before it is
    shorter. *)
Theorem MaxLabel_first_longest (c : Chart) :
  let labels := orderedMap_keys (data c) in
  (labels = [] -> Chart_MaxLabel c = EmptyString) /\
  (labels <> [] ->
   exists pre post,
     labels = pre ++ Chart_MaxLabel c :: post /\
     (forall l, In l pre ->
        (gostring.len l < gostring.len (Chart_MaxLabel c))%nat) /\
     (forall l, In l post ->
        (gostring.len l <= gostring.len (Chart_MaxLabel c))%nat)).
Proof.
  intros labels. split.
  - unfold Chart_MaxLabel. fold labels. now intros ->.
  - intros Hne. unfold Chart_MaxLabel. fold labels.
    destruct labels as [|x rest] eqn:Hl; [congruence|].
    cbn [length Nat.eqb].
    destruct (MaxLabel_fold (x :: rest) EmptyString)
      as [[Hr Hall]|(pre & post & Heq & _ & Hpre & Hpost)].
    + rewrite Hr. exists [], rest. simpl in *.
      assert (x = EmptyString) as ->.
      { specialize (Hall x (or_introl eq_refl)).
        destruct x; [reflexivity|simpl in Hall; lia]. }
      repeat split; [intros l []|]. intros l Hl'. apply Hall. now right.
    + exists pre, post. auto.
Qed.

(** ** The order of the floats *)

Lemma lex3_ge_trans (a b c : Z * Z * Z) :
  lex3 a b <> Lt -> lex3 b c <> Lt -> lex3 a c <> Lt.
Proof.
  destruct a as [[a1 a2] a3], b as [[b1 b2] b3], c as [[c1 c2] c3]. simpl.
  destruct (Z.compare_spec a1 b1), (Z.compare_spec b1 c1); try congruence;
    destruct (Z.compare_spec a2 b2), (Z.compare_spec b2 c2); try congruence;
    destruct (Z.compare_spec a3 b3), (Z.compare_spec b3 c3); try congruence;
    intros _ _; subst;
    repeat match goal with
           | |- context [(?u ?= ?v)%Z] => destruct (Z.compare_spec u v)
           end; try discriminate; lia.
Qed.

Lemma Compare_rank_all (x y : spec_float) :
  float64.Compare x y = slices.ofComparison (lex3 (rank x) (rank y)).
Proof.
  destruct (float64.isNaN x) eqn:Hx, (float64.isNaN y) eqn:Hy;
    [| | |now apply Compare_rank];
    unfold float64.Compare; rewrite Hx, Hy;
    destruct x as [sx|sx| |sx mx ex]; try discriminate;
    destruct y as [sy|sy| |sy my ey]; try discriminate;
    try reflexivity; try (destruct sy; reflexivity); destruct sx; reflexivity.
Qed.

Lemma Compare_le_total (x y : spec_float) :
  ~ (float64.Compare y x < 0)%Z -> (float64.Compare x y <= 0)%Z.
Proof.
  rewrite !Compare_rank_all, (lex3_antisym (rank y) (rank x)).
  destruct (lex3 (rank y) (rank x)); simpl; lia.
Qed.

Lemma Compare_le_trans (x y z : spec_float) :
  (float64.Compare x y <= 0)%Z -> (float64.Compare y z <= 0)%Z ->
  (float64.Compare x z <= 0)%Z.
Proof.
  rewrite !Compare_rank_all. intros Hxy Hyz.
  assert (lex3 (rank z) (rank x) <> Lt) as H.
  { apply (lex3_ge_trans _ (rank y)).
    - rewrite (lex3_antisym (rank y) (rank z)).
      destruct (lex3 (rank y) (rank z)); simpl in *; try discriminate; lia.
    - rewrite (lex3_antisym (rank x) (rank y)).
      destruct (lex3 (rank x) (rank y)); simpl in *; try discriminate; lia. }
  rewrite (lex3_antisym (rank x) (rank z)) in H.
  destruct (lex3 (rank x) (rank z)); simpl in *; try lia. congruence.
Qed.

Lemma ltb_rank (x y : spec_float) :
  float64.isNaN x = false -> float64.isNaN y = false ->
  float64.ltb x y = true <-> lex3 (rank x) (rank y) = Lt.
Proof.
  intros Hx Hy. unfold float64.ltb, SFltb. rewrite (SFcompare_rank x y Hx Hy).
  destruct (lex3 (rank x) (rank y)); split; congruence.
Qed.

Lemma ltb_NaN (x y : spec_float) :
  float64.ltb x y = true -> float64.isNaN x = false /\ float64.isNaN y = false.
Proof.
  unfold float64.ltb, SFltb.
  destruct x as [sx|sx| |sx mx ex], y as [sy|sy| |sy my ey];
    simpl; auto; discriminate.
Qed.

(** ** The order of the byte strings *)

Lemma String_compare_refl (s : string) : String.compare s s = Eq.
Proof.
  pose proof (String.compare_antisym s s) as H.
  destruct (String.compare s s); simpl in H; congruence.
Qed.

Lemma String_compare_ge_trans (a b c : string) :
  String.compare a b <> Lt -> String.compare b c <> Lt -> String.compare a c <> Lt.
Proof.
  revert b c. induction a as [|x a IH]; intros [|y b] [|z c]; simpl;
    try congruence.
  unfold Ascii.compare.
  destruct (N.compare_spec (N_of_ascii x) (N_of_ascii y)) as [Hxy|Hxy|Hxy];
    destruct (N.compare_spec (N_of_ascii y) (N_of_ascii z)) as [Hyz|Hyz|Hyz];
    try congruence;
    destruct (N.compare_spec (N_of_ascii x) (N_of_ascii z)) as [Hxz|Hxz|Hxz];
    try lia; try congruence.
  apply IH.
Qed.

Lemma CompareString_le_total (x y : string) :
  ~ (slices.CompareString y x < 0)%Z -> (slices.CompareString x y <= 0)%Z.
Proof.
  unfold slices.CompareString. rewrite (String.compare_antisym y x).
  destruct (String.compare x y); simpl; lia.
Qed.

Lemma CompareString_le_trans (x y z : string) :
  (slices.CompareString x y <= 0)%Z -> (slices.CompareString y z <= 0)%Z ->
  (slices.CompareString x z <= 0)%Z.
Proof.
  unfold slices.CompareString. intros Hxy Hyz.
  assert (String.compare z x <> Lt) as H.
  { apply (String_compare_ge_trans _ y).
    - rewrite (String.compare_antisym z y).
      destruct (String.compare y z); simpl in *; try discriminate; lia.
    - rewrite (String.compare_antisym y x).
      destruct (String.compare x y); simpl in *; try discriminate; lia. }
  rewrite (String.compare_antisym z x) in H.
  destruct (String.compare x z); simpl in *; try lia. congruence.
Qed.

Lemma CompareString_leb (x y : string) :
  (slices.CompareString x y <= 0)%Z <-> String.leb x y = true.
Proof.
  unfold slices.CompareString, String.leb.
  destruct (String.compare x y); simpl; split; intros; try lia; congruence.
Qed.

(** ** Sortedness of a stable sort by a total preorder *)

Section SortedFacts.
Context {A : Type} (cmp : A -> A -> Z).
Hypothesis cmp_total : forall x y, ~ (cmp y x < 0)%Z -> (cmp x y <= 0)%Z.
Hypothesis cmp_trans :
  forall x y z, (cmp x y <= 0)%Z -> (cmp y z <= 0)%Z -> (cmp x z <= 0)%Z.

Lemma insert_StronglySorted (x : A) (l : list A) :
  StronglySorted (fun a b => (cmp a b <= 0)%Z) l ->
  StronglySorted (fun a b => (cmp a b <= 0)%Z) (slices.insert cmp x l).
Proof.
  induction 1 as [|y l Hs IH Hall]; simpl.
  - repeat constructor.
  - destruct (Z.ltb_spec (cmp y x) 0) as [Hlt|Hge].
    + constructor; [exact IH|].
      eapply Permutation_Forall; [symmetry; apply insert_Permutation|].
      constructor; [lia|exact Hall].
    + assert (cmp x y <= 0)%Z as Hxy by (apply cmp_total; lia).
      constructor; [now constructor|].
      constructor; [exact Hxy|].
      eapply Forall_impl; [exact Hall|]. simpl. intros z Hz.
      now apply (cmp_trans x y z).
Qed.

Lemma SortStableFunc_StronglySorted (l : list A) :
  StronglySorted (fun a b => (cmp a b <= 0)%Z) (slices.SortStableFunc cmp l).
Proof.
  induction l as [|x l IH]; simpl; [constructor|].
  now apply insert_StronglySorted.
Qed.
End SortedFacts.

Lemma StronglySorted_snoc {A : Type} (R : A -> A -> Prop) (l : list A) (x : A) :
  StronglySorted R l -> Forall (fun a => R a x) l -> StronglySorted R (l ++ [x]).
Proof.
  induction 1 as [|y l Hs IH Hall]; simpl; intros Hx.
  - repeat constructor.
  - apply Forall_cons_1 in Hx as [Hyx Hx].
    constructor; [now apply IH|].
    apply Forall_app. split; [exact Hall|]. now repeat constructor.
Qed.

Lemma StronglySorted_rev {A : Type} (R : A -> A -> Prop) (l : list A) :
  StronglySorted R l -> StronglySorted (fun a b => R b a) (rev l).
Proof.
  induction 1 as [|y l Hs IH Hall]; simpl; [constructor|].
  apply StronglySorted_snoc; [exact IH|].
  apply List.Forall_forall. intros a Ha%in_rev.
  rewrite List.Forall_forall in Hall. now apply Hall.
Qed.

Lemma StronglySorted_ext {A : Type} (R R' : A -> A -> Prop) (l : list A) :
  (forall a b, R a b -> R' a b) -> StronglySorted R l -> StronglySorted R' l.
Proof.
  intros HR. induction 1 as [|y l Hs IH Hall]; constructor; [exact IH|].
  eapply Forall_impl; [exact Hall|]. simpl. auto.
Qed.

(** ** Labels() is sorted *)

Lemma Labels_ascending (c : Chart) :
  sortDir c <> OrderDesc -> StronglySorted (sortedBefore c) (Chart_Labels c).
Proof.
  intros Hd. unfold Chart_Labels, sortedBefore.
  assert (forall l : list string,
            match sortDir c with OrderDesc => rev l | _ => l end = l) as ->
      by (intros l; destruct (sortDir c); congruence).
  destruct (sort c).
  - induction (orderedMap_keys (data c)) as [|x l IH]; constructor; [exact IH|].
    apply List.Forall_forall. auto.
  - eapply StronglySorted_ext;
      [|apply (SortStableFunc_StronglySorted slices.CompareString
                 CompareString_le_total CompareString_le_trans)].
    intros a b. apply CompareString_leb.
  - apply SortStableFunc_sorted.
  - apply (SortStableFunc_StronglySorted
             (fun i j => float64.Compare (fst (orderedMap_get (data c) i))
                           (fst (orderedMap_get (data c) j)))).
    + intros x y. apply Compare_le_total.
    + intros x y z. apply Compare_le_trans.
Qed.

(** Under ByLabel, ByLabelNumeric and ByValue, Labels() is in ascending
    order of the sort key when the direction is not Descending, and in
    descending order when it is: of two labels of the result the earlier
    one has the key that is not greater (not smaller).  The keys are the
    bytes of the label, its integer, and its stored value with NaN below
    every number. *)
Theorem Labels_sorted_by_key (c : Chart) :
  sort c <> SortNone ->
  (sortDir c <> OrderDesc ->
     StronglySorted (sortedBefore c) (Chart_Labels c)) /\
  (sortDir c = OrderDesc ->
     StronglySorted (fun a b => sortedBefore c b a) (Chart_Labels c)).
Proof.
  intros _. split; [apply Labels_ascending|].
  intros Hd.
  assert (Chart_Labels c = rev (Chart_Labels (withDirection c OrderAsc))) as ->.
  { unfold Chart_Labels, withDirection. simpl. now rewrite Hd. }
  apply StronglySorted_rev.
  apply (Labels_ascending (withDirection c OrderAsc)). discriminate.
Qed.

Lemma Labels_sorted_by_key_witness :
  let c := run (configured SortByValue OrderDesc 2)
             [CallSet "low" float64.one; CallSet "nan" S754_nan;
              CallSet "high" (float64.ofZ 3)] in
  sort c <> SortNone /\ sortDir c = OrderDesc /\
  Chart_Labels c = ["high"; "low"; "nan"] /\
  StronglySorted (fun a b => sortedBefore c b a) (Chart_Labels c).
Proof.
  intros c.
  assert (sort c <> SortNone) as Hs by discriminate.
  assert (sortDir c = OrderDesc) as Hd by reflexivity.
  destruct (Labels_sorted_by_key c Hs) as [_ H].
  exact (conj Hs (conj Hd (conj eq_refl (H Hd)))).
Defined.

(** ** The greatest value *)

Lemma MaxValue_fold (vals : list spec_float) (acc M : spec_float) :
  float64.isNaN acc = false ->
  M = fold_left (fun maxVal val =>
                   if float64.gtb val maxVal then val else maxVal) vals acc ->
  float64.isNaN M = false /\
  (M = acc \/ In M vals) /\
  float64.ltb M acc = false /\
  (forall v, In v vals -> float64.gtb v M = false).
Proof.
  revert acc M. induction vals as [|x vals IH]; intros acc M Hacc HM;
    cbn [fold_left] in HM.
  - subst M. repeat split; auto.
    + destruct (float64.ltb acc acc) eqn:H; [|reflexivity].
      apply ltb_rank in H; [|assumption..].
      pose proof (lex3_antisym (rank acc) (rank acc)) as Ha.
      rewrite H in Ha. discriminate.
    + intros v [].
  - destruct (float64.gtb x acc) eqn:Hgt.
    + unfold float64.gtb in Hgt. destruct (ltb_NaN _ _ Hgt) as [_ Hx].
      destruct (IH x M Hx HM) as (HMn & Hin & Hge & Hall).
      split; [exact HMn|]. split; [right; destruct Hin as [->|]; simpl; auto|].
      assert (lex3 (rank M) (rank acc) <> Lt) as HMacc.
      { apply (lex3_ge_trans _ (rank x)).
        - intros H. apply ltb_rank in H; [congruence|assumption..].
        - apply ltb_rank in Hgt; [|assumption..].
          rewrite (lex3_antisym (rank acc) (rank x)), Hgt. discriminate. }
      split.
      * destruct (float64.ltb M acc) eqn:H; [|reflexivity].
        apply ltb_rank in H; [contradiction|assumption..].
      * intros v [<-|Hv]; [|auto]. exact Hge.
    + destruct (IH acc M Hacc HM) as (HMn & Hin & Hge & Hall).
      split; [exact HMn|]. split; [destruct Hin; simpl; auto|].
      split; [exact Hge|].
      intros v [<-|Hv]; [|auto].
      unfold float64.gtb in *. change (float64.ltb M x = false).
      change (float64.ltb acc x = false) in Hgt.
      destruct (float64.ltb M x) eqn:H; [|reflexivity].
      destruct (ltb_NaN _ _ H) as [_ Hx].
      apply ltb_rank in H; [|assumption..].
      assert (lex3 (rank M) (rank x) <> Lt) as Hcontra; [|contradiction].
      apply (lex3_ge_trans _ (rank acc)).
      * intros H'. apply ltb_rank in H'; [congruence|assumption..].
      * intros H'. apply ltb_rank in H'; [congruence|assumption..].
Qed.

(** When some value of the chart is not negative, MaxValue() is the rounded
    greatest value: it is round(M * P) / P for an M that equals a value of
    the chart and that no value of the chart exceeds. *)
Theorem MaxValue_greatest (c : Chart) :
  let vals := orderedMap_values (data c) in
  (exists v, In v vals /\ float64.isNaN v = false /\
             float64.ltb v float64.zero = false) ->
  exists M,
    Chart_MaxValue c
      = float64.div (float64.Round (float64.mul M (p c))) (p c) /\
    (exists v, In v vals /\ float64.eqb v M = true) /\
    (forall v, In v vals -> float64.gtb v M = false).
Proof.
  intros vals (v0 & Hin0 & Hnan0 & Hpos0).
  destruct (MaxValue_fold vals float64.zero _ eq_refl eq_refl)
    as (HM & Hin & Hge & Hall).
  set (M := fold_left _ vals float64.zero) in *.
  exists M. split; [|split; [|exact Hall]].
  - unfold Chart_MaxValue. fold vals. fold M.
    destruct vals; [destruct Hin0|reflexivity].
  - destruct Hin as [HM0|Hin].
    + exists v0. split; [exact Hin0|]. rewrite HM0.
      specialize (Hall v0 Hin0). rewrite HM0 in Hall. unfold float64.gtb in Hall.
      unfold float64.eqb, SFeqb.
      rewrite (SFcompare_rank v0 float64.zero Hnan0 eq_refl).
      destruct (lex3 (rank v0) (rank float64.zero)) eqn:Hc; [reflexivity| |].
      * apply ltb_rank in Hc; [congruence|assumption|reflexivity].
      * assert (lex3 (rank float64.zero) (rank v0) = Lt) as Hc'
            by (rewrite (lex3_antisym (rank v0)), Hc; reflexivity).
        apply ltb_rank in Hc'; [|reflexivity|assumption].
        unfold float64.ltb in Hc'. congruence.
    + exists M. split; [exact Hin|].
      unfold float64.eqb, SFeqb. rewrite (SFcompare_rank M M HM HM).
      pose proof (lex3_antisym (rank M) (rank M)) as Ha.
      destruct (lex3 (rank M) (rank M)); simpl in Ha; congruence.
Qed.

Lemma MaxValue_greatest_witness :
  let c := run (configured SortNone OrderNone 0)
             [CallSet "a" (float64.ofZ (-4)); CallSet "b" (float64.ofZ 7);
              CallSet "c" S754_nan; CallSet "d" (float64.ofZ 2)] in
  (exists v, In v (orderedMap_values (data c)) /\ float64.isNaN v = false /\
             float64.ltb v float64.zero = false) /\
  Chart_MaxValue c = float64.ofZ 7 /\
  exists M,
    Chart_MaxValue c
      = float64.div (float64.Round (float64.mul M (p c))) (p c) /\
    (forall v, In v (orderedMap_values (data c)) -> float64.gtb v M = false).
Proof.
  intros c.
  assert (exists v, In v (orderedMap_values (data c)) /\
                    float64.isNaN v = false /\
                    float64.ltb v float64.zero = false) as Hpos.
  { exists (float64.ofZ 7). split; [right; left; reflexivity|].
    split; reflexivity. }
  destruct (MaxValue_greatest c Hpos) as (M & HM & _ & Hall).
  split; [exact Hpos|]. split; [reflexivity|]. exists M. auto.
Defined.

(** ** Integers as float64

    An integer of at most 53 bits is a float64, and sums, products,
    quotients and roundings of such integers are exact as long as they
    stay within 53 bits. *)

Section IntegerFloats.
Local Open Scope Z_scope.

(** The positive mantissa of an integer below 2^53, at its canonical exponent. *)
Lemma canonical_int (N : positive) :
  Zdigits2 (Z.pos N) <= 53 ->
  exists m0 : positive,
    Z.pos m0 = Z.pos N * 2 ^ (53 - Zdigits2 (Z.pos N)) /\
    bounded float64.prec float64.emax m0 (Zdigits2 (Z.pos N) - 53) = true.
Proof.
  intros Hd. set (d := Zdigits2 (Z.pos N)) in *.
  assert (1 <= d) as Hd1 by (unfold d; simpl; lia).
  assert (0 < Z.pos N * 2 ^ (53 - d)) as Hpos by (apply Z.mul_pos_pos; [lia|apply Z.pow_pos_nonneg; lia]).
  destruct (Z.pos N * 2 ^ (53 - d)) as [|m0|m0] eqn:Hm0; try lia.
  exists m0. split; [reflexivity|].
  unfold bounded, canonical_mantissa.
  change (Z.pos (digits2_pos m0)) with (Zdigits2 (Z.pos m0)).
  rewrite <- Hm0, Zdigits2_shift by lia. fold d.
  unfold fexp, emin, float64.prec, float64.emax.
  apply andb_true_iff. split; [apply Z.eqb_eq|apply Z.leb_le]; lia.
Qed.

Lemma binary_round_aux_int (s : bool) (N : positive) (j : Z) (m0 : positive) :
  Zdigits2 (Z.pos N) <= 53 ->
  53 - Zdigits2 (Z.pos N) <= j ->
  Z.pos m0 = Z.pos N * 2 ^ (53 - Zdigits2 (Z.pos N)) ->
  bounded float64.prec float64.emax m0 (Zdigits2 (Z.pos N) - 53) = true ->
  binary_round_aux float64.prec float64.emax s (Z.pos N * 2 ^ j) (- j) loc_Exact
  = S754_finite s m0 (Zdigits2 (Z.pos N) - 53).
Proof.
  intros Hd Hj Hm0 Hb. set (d := Zdigits2 (Z.pos N)) in *.
  pose proof (binary_round_aux_exact s m0 (d - 53) (j - (53 - d)) Hb ltac:(lia)) as H.
  rewrite Hm0 in H. rewrite <- Z.mul_assoc, <- Z.pow_add_r in H by lia.
  replace (53 - d + (j - (53 - d))) with j in H by lia.
  replace (d - 53 - (j - (53 - d))) with (- j) in H by lia. exact H.
Qed.

Lemma binary_round_int (s : bool) (m N : positive) (j : Z) (m0 : positive) :
  0 <= j -> Z.pos m = Z.pos N * 2 ^ j ->
  Zdigits2 (Z.pos N) <= 53 ->
  Z.pos m0 = Z.pos N * 2 ^ (53 - Zdigits2 (Z.pos N)) ->
  bounded float64.prec float64.emax m0 (Zdigits2 (Z.pos N) - 53) = true ->
  binary_round float64.prec float64.emax s m (- j)
  = S754_finite s m0 (Zdigits2 (Z.pos N) - 53).
Proof.
  intros Hj Hm Hd Hm0 Hb. unfold binary_round.
  change (Z.pos (digits2_pos m)) with (Zdigits2 (Z.pos m)).
  rewrite Hm, Zdigits2_shift by lia.
  set (d := Zdigits2 (Z.pos N)) in *.
  assert (1 <= d) as Hd1 by (unfold d; simpl; lia).
  assert (fexp float64.prec float64.emax (d + j + - j) = d - 53) as ->.
  { unfold fexp, emin, float64.prec, float64.emax. lia. }
  unfold shl_align.
  destruct (d - 53 - - j) as [|q|q] eqn:Hshift.
  - rewrite Hm. apply binary_round_aux_int; try assumption. fold d. lia.
  - rewrite Hm. apply binary_round_aux_int; try assumption. fold d. lia.
  - rewrite iter_xO_pow, Hm.
    pose proof (binary_round_aux_exact s m0 (d - 53) 0 Hb ltac:(lia)) as H.
    rewrite Z.mul_1_r, Z.sub_0_r in H. rewrite <- H. f_equal.
    rewrite Hm0, <- Z.mul_assoc, <- Z.pow_add_r by lia. f_equal. f_equal. lia.
Qed.

Lemma Zdigits2_le_53 (N : positive) : Z.pos N < 2 ^ 53 <-> Zdigits2 (Z.pos N) <= 53.
Proof.
  rewrite Zdigits2_log2 by lia. split; intros H.
  - assert (Z.log2 (Z.pos N) < 53); [|lia]. apply Z.log2_lt_pow2; lia.
  - apply Z.log2_lt_pow2; lia.
Qed.

Lemma Zdigits2_mul (a b : positive) :
  Zdigits2 (Z.pos a) + Zdigits2 (Z.pos b) - 1 <= Zdigits2 (Z.pos a * Z.pos b)
  <= Zdigits2 (Z.pos a) + Zdigits2 (Z.pos b).
Proof.
  rewrite !Zdigits2_log2 by lia.
  pose proof (Z.log2_mul_below (Z.pos a) (Z.pos b) ltac:(lia) ltac:(lia)).
  pose proof (Z.log2_mul_above (Z.pos a) (Z.pos b) ltac:(lia) ltac:(lia)).
  lia.
Qed.

(** [float64(n)] for an integer [n] of at most 53 bits. *)
Lemma ofZ_pos (s : bool) (N : positive) :
  Z.pos N < 2 ^ 53 ->
  exists m0 : positive,
    Z.pos m0 = Z.pos N * 2 ^ (53 - Zdigits2 (Z.pos N)) /\
    bounded float64.prec float64.emax m0 (Zdigits2 (Z.pos N) - 53) = true /\
    float64.ofZ (cond_Zopp s (Z.pos N))
    = S754_finite s m0 (Zdigits2 (Z.pos N) - 53).
Proof.
  intros Hd%Zdigits2_le_53. destruct (canonical_int N Hd) as (m0 & Hm0 & Hb).
  exists m0. split; [exact Hm0|]. split; [exact Hb|].
  pose proof (binary_round_int s N N 0 m0 ltac:(lia) ltac:(lia) Hd Hm0 Hb) as H.
  destruct s; exact H.
Qed.

Lemma normalize_int (z n j : Z) :
  0 <= j -> z = n * 2 ^ j -> Z.abs n < 2 ^ 53 ->
  binary_normalize float64.prec float64.emax z (- j) false = float64.ofZ n.
Proof.
  intros Hj Hz Hn.
  assert (0 < 2 ^ j) as Hp by (apply Z.pow_pos_nonneg; lia).
  destruct n as [|N|N].
  - subst z. reflexivity.
  - destruct z as [|m|m]; try nia.
    destruct (ofZ_pos false N ltac:(lia)) as (m0 & Hm0 & Hb & H).
    cbn [cond_Zopp] in H. rewrite H. unfold binary_normalize.
    apply (binary_round_int false m N j m0); try assumption.
    apply Zdigits2_le_53. lia.
  - destruct z as [|m|m]; try nia.
    destruct (ofZ_pos true N ltac:(lia)) as (m0 & Hm0 & Hb & H).
    cbn [cond_Zopp] in H. change (- Z.pos N) with (Z.neg N) in H.
    rewrite H. unfold binary_normalize.
    apply (binary_round_int true m N j m0); try assumption; [nia|].
    apply Zdigits2_le_53. lia.
Qed.

Lemma mul_ofZ (a b : Z) :
  0 < b < 2 ^ 53 -> Z.abs (a * b) < 2 ^ 53 ->
  float64.mul (float64.ofZ a) (float64.ofZ b) = float64.ofZ (a * b).
Proof.
  intros Hb Hab.
  destruct b as [|B|B]; try lia.
  destruct (ofZ_pos false B ltac:(lia)) as (mb & Hmb & Hbb & HB).
  cbn [cond_Zopp] in HB. rewrite HB.
  assert (forall (s : bool) (A : positive), Z.pos A * Z.pos B < 2 ^ 53 ->
            float64.mul (float64.ofZ (cond_Zopp s (Z.pos A)))
              (S754_finite false mb (Zdigits2 (Z.pos B) - 53))
            = float64.ofZ (cond_Zopp s (Z.pos A * Z.pos B))) as Hmul.
  { intros s A HAB.
    destruct (ofZ_pos s A ltac:(nia)) as (ma & Hma & Hba & ->).
    change (Z.pos A * Z.pos B) with (Z.pos (A * B)) in *.
    destruct (ofZ_pos s (A * B) HAB) as (mab & Hmab & Hbab & ->).
    unfold float64.mul, SFmul. rewrite xorb_false_r.
    pose proof (Zdigits2_mul A B) as Hdig.
    change (Z.pos A * Z.pos B) with (Z.pos (A * B)) in Hdig.
    assert (Zdigits2 (Z.pos A) <= 53 /\ Zdigits2 (Z.pos B) <= 53 /\
            Zdigits2 (Z.pos (A * B)) <= 53) as (HdA & HdB & HdAB).
    { repeat split; apply Zdigits2_le_53; nia. }
    pose proof (binary_round_aux_int s (A * B)
                  (53 - Zdigits2 (Z.pos A) + (53 - Zdigits2 (Z.pos B)))
                  mab HdAB ltac:(lia) Hmab Hbab) as H.
    rewrite <- H. f_equal; [|lia].
    rewrite Pos2Z.inj_mul, Hma, Hmb, Z.pow_add_r by lia.
    rewrite Pos2Z.inj_mul. ring. }
  destruct a as [|A|A].
  - reflexivity.
  - apply (Hmul false A). lia.
  - apply (Hmul true A). lia.
Qed.

Lemma new_location_zero (n : Z) : new_location n 0 = loc_Exact.
Proof. unfold new_location. destruct (Z.even n); reflexivity. Qed.

Lemma div_ofZ (a b : Z) :
  0 < b < 2 ^ 53 -> Z.abs (a * b) < 2 ^ 53 ->
  float64.div (float64.ofZ (a * b)) (float64.ofZ b) = float64.ofZ a.
Proof.
  intros Hb Hab.
  destruct b as [|B|B]; try lia.
  destruct (ofZ_pos false B ltac:(lia)) as (mb & Hmb & Hbb & HB).
  cbn [cond_Zopp] in HB. rewrite HB.
  assert (forall (s : bool) (A : positive), Z.pos A * Z.pos B < 2 ^ 53 ->
            float64.div (float64.ofZ (cond_Zopp s (Z.pos A * Z.pos B)))
              (S754_finite false mb (Zdigits2 (Z.pos B) - 53))
            = float64.ofZ (cond_Zopp s (Z.pos A))) as Hdiv.
  { intros s A HAB.
    destruct (ofZ_pos s A ltac:(nia)) as (ma & Hma & Hba & ->).
    change (Z.pos A * Z.pos B) with (Z.pos (A * B)) in *.
    destruct (ofZ_pos s (A * B) HAB) as (mab & Hmab & Hbab & ->).
    pose proof (Zdigits2_mul A B) as Hdig.
    change (Z.pos A * Z.pos B) with (Z.pos (A * B)) in Hdig.
    assert (Zdigits2 (Z.pos A) <= 53 /\ Zdigits2 (Z.pos B) <= 53 /\
            Zdigits2 (Z.pos (A * B)) <= 53) as (HdA & HdB & HdAB).
    { repeat split; apply Zdigits2_le_53; nia. }
    set (dA := Zdigits2 (Z.pos A)) in *. set (dB := Zdigits2 (Z.pos B)) in *.
    set (dAB := Zdigits2 (Z.pos (A * B))) in *.
    assert (1 <= dA /\ 1 <= dB /\ 1 <= dAB) as (HA1 & HB1 & HAB1)
        by (unfold dA, dB, dAB; simpl; lia).
    assert (Zdigits2 (Z.pos mab) = 53 /\ Zdigits2 (Z.pos mb) = 53) as [Hd1 Hd2].
    { rewrite Hmab, Hmb, !Zdigits2_shift by lia. fold dAB dB. lia. }
    unfold float64.div, SFdiv, SFdiv_core_binary. rewrite xorb_false_r, Hd1, Hd2.
    assert (fexp float64.prec float64.emax (53 + (dAB - 53) - (53 + (dB - 53)))
            = dAB - dB - 53) as ->.
    { unfold fexp, emin, float64.prec, float64.emax. lia. }
    assert (Z.min (dAB - dB - 53) (dAB - 53 - (dB - 53)) = dAB - dB - 53) as ->
        by lia.
    replace (dAB - 53 - (dB - 53) - (dAB - dB - 53)) with 53 by lia.
    cbv beta iota zeta.
    rewrite Z.shiftl_mul_pow2 by lia.
    assert (Z.pos mab * 2 ^ 53 = (Z.pos A * 2 ^ (53 - dAB + dB)) * Z.pos mb) as ->.
    { rewrite Hmab, Hmb, Pos2Z.inj_mul.
      replace (53 - dAB + dB) with (53 - dAB + 53 - (53 - dB)) by lia.
      rewrite (Z.pow_sub_r 2 (53 - dAB + 53) (53 - dB)) by lia.
      rewrite Z.pow_add_r by lia.
      assert (2 ^ (53 - dAB) * 2 ^ 53 = (2 ^ (53 - dAB) * 2 ^ 53 / 2 ^ (53 - dB)) * 2 ^ (53 - dB)) as Hq.
      { rewrite <- Z.pow_add_r, <- Z.pow_sub_r, <- Z.pow_add_r by lia. f_equal. lia. }
      nia. }
    rewrite div_eucl_exact by lia. rewrite new_location_zero.
    replace (dAB - dB - 53) with (- (53 - dAB + dB)) by lia.
    apply binary_round_aux_int; try assumption; fold dA; lia. }
  destruct a as [|A|A].
  - reflexivity.
  - apply (Hdiv false A). lia.
  - apply (Hdiv true A). lia.
Qed.

Lemma Round_ofZ (n : Z) :
  Z.abs n < 2 ^ 53 -> float64.Round (float64.ofZ n) = float64.ofZ n.
Proof.
  intros Hn.
  assert (forall (s : bool) (N : positive), Z.pos N < 2 ^ 53 ->
            float64.Round (float64.ofZ (cond_Zopp s (Z.pos N)))
            = float64.ofZ (cond_Zopp s (Z.pos N))) as H.
  { intros s N HN.
    destruct (ofZ_pos s N HN) as (m0 & Hm0 & Hb & HE).
    rewrite HE at 1. unfold float64.Round.
    set (d := Zdigits2 (Z.pos N)) in *.
    assert (1 <= d <= 53) as Hd.
    { split; [unfold d; simpl; lia|apply Zdigits2_le_53; exact HN]. }
    destruct (Z.leb_spec 0 (d - 53)) as [He|He]; [now rewrite HE|].
    replace (- (d - 53)) with (53 - d) by lia.
    assert (0 < 2 ^ (53 - d)) as Hp by (apply Z.pow_pos_nonneg; lia).
    assert (2 <= 2 ^ (53 - d)) as Hp2.
    { replace (53 - d) with (1 + (52 - d)) by lia. rewrite Z.pow_add_r by lia.
      assert (0 < 2 ^ (52 - d)) by (apply Z.pow_pos_nonneg; lia). lia. }
    rewrite Hm0, Z.div_mul, Z.mod_mul by lia.
    destruct (Z.leb_spec (2 ^ (53 - d)) (2 * 0)) as [Hc|Hc]; [lia|].
    destruct s; reflexivity. }
  destruct n as [|N|N].
  - reflexivity.
  - apply (H false N). lia.
  - apply (H true N). lia.
Qed.

Lemma trunc_ofZ (n : Z) :
  Z.abs n < 2 ^ 53 -> float64.trunc (float64.ofZ n) = Some n.
Proof.
  intros Hn.
  assert (forall (s : bool) (N : positive), Z.pos N < 2 ^ 53 ->
            float64.trunc (float64.ofZ (cond_Zopp s (Z.pos N)))
            = Some (cond_Zopp s (Z.pos N))) as H.
  { intros s N HN.
    destruct (ofZ_pos s N HN) as (m0 & Hm0 & Hb & ->).
    unfold float64.trunc.
    set (d := Zdigits2 (Z.pos N)) in *.
    assert (1 <= d <= 53) as Hd.
    { split; [unfold d; simpl; lia|apply Zdigits2_le_53; exact HN]. }
    assert (0 < 2 ^ (53 - d)) as Hp by (apply Z.pow_pos_nonneg; lia).
    destruct (Z.leb_spec 0 (d - 53)) as [He|He].
    - assert (d = 53) as Hd53 by lia. rewrite Hd53 in *.
      change (53 - 53) with 0 in *. rewrite Hm0. do 2 f_equal. lia.
    - replace (- (d - 53)) with (53 - d) by lia.
      rewrite Hm0, Z.div_mul by lia. reflexivity. }
  destruct n as [|N|N].
  - reflexivity.
  - apply (H false N). lia.
  - apply (H true N). lia.
Qed.

Lemma ofZ_not_zero (n : Z) :
  n <> 0 -> Z.abs n < 2 ^ 53 -> float64.eqb (float64.ofZ n) float64.zero = false.
Proof.
  intros Hn0 Hn.
  destruct n as [|N|N]; [contradiction| |].
  - destruct (ofZ_pos false N ltac:(lia)) as (m0 & _ & _ & H).
    cbn [cond_Zopp] in H. rewrite H. reflexivity.
  - destruct (ofZ_pos true N ltac:(lia)) as (m0 & _ & _ & H).
    cbn [cond_Zopp] in H. change (- Z.pos N) with (Z.neg N) in H.
    rewrite H. reflexivity.
Qed.

Lemma shl_align_value (mx : positive) (ex ez : Z) :
  ez <= ex -> Z.pos (fst (shl_align mx ex ez)) = Z.pos mx * 2 ^ (ex - ez).
Proof.
  intros Hle. unfold shl_align.
  destruct (ez - ex) as [|q|q] eqn:Hd; try lia.
  - replace (ex - ez) with 0 by lia. simpl. lia.
  - cbn [fst]. rewrite iter_xO_pow. f_equal. f_equal. lia.
Qed.

Lemma add_ofZ (a b : Z) :
  0 < a -> 0 < b -> a + b < 2 ^ 53 ->
  float64.add (float64.ofZ a) (float64.ofZ b) = float64.ofZ (a + b).
Proof.
  intros Ha Hb Hab.
  destruct a as [|A|A]; try lia. destruct b as [|B|B]; try lia.
  destruct (ofZ_pos false A ltac:(lia)) as (ma & Hma & _ & HA).
  destruct (ofZ_pos false B ltac:(lia)) as (mb & Hmb & _ & HB).
  cbn [cond_Zopp] in HA, HB. rewrite HA, HB.
  set (dA := Zdigits2 (Z.pos A)) in *. set (dB := Zdigits2 (Z.pos B)) in *.
  assert (1 <= dA <= 53 /\ 1 <= dB <= 53) as [HdA HdB].
  { repeat split; try (unfold dA, dB; simpl; lia);
      apply Zdigits2_le_53; lia. }
  unfold float64.add, SFadd. cbv zeta.
  set (ez := Z.min (dA - 53) (dB - 53)).
  rewrite !shl_align_value by (unfold ez; lia). cbn [cond_Zopp].
  replace ez with (- (- ez)) at 3 by lia.
  apply normalize_int; [unfold ez; lia| |lia].
  rewrite Hma, Hmb, <- !Z.mul_assoc, <- !Z.pow_add_r by (unfold ez; lia).
  replace (53 - dA + (dA - 53 - ez)) with (- ez) by lia.
  replace (53 - dB + (dB - 53 - ez)) with (- ez) by lia. ring.
Qed.

Lemma div_self (s : bool) (m : positive) (e : Z) :
  float64.div (S754_finite s m e) (S754_finite s m e) = float64.one.
Proof.
  unfold float64.div, SFdiv, SFdiv_core_binary. rewrite xorb_nilpotent.
  replace (Zdigits2 (Z.pos m) + e - (Zdigits2 (Z.pos m) + e)) with 0 by lia.
  replace (e - e) with 0 by lia.
  change (Z.min (fexp float64.prec float64.emax 0) 0) with (-53).
  change (0 - -53) with 53. cbv beta iota zeta.
  rewrite Z.shiftl_mul_pow2 by lia.
  rewrite (Z.mul_comm (Z.pos m)), div_eucl_exact by lia.
  rewrite new_location_zero. reflexivity.
Qed.

Lemma one_mul (x : spec_float) :
  float64.valid x = true -> float64.mul float64.one x = x.
Proof.
  destruct x as [s|s| |s m e]; intros Hv; try (destruct s; reflexivity); try reflexivity.
  change (float64.mul float64.one (S754_finite s m e))
    with (binary_round_aux float64.prec float64.emax (xorb false s)
            (Z.pos (4503599627370496 * m)) (-52 + e) loc_Exact).
  rewrite xorb_false_l, Pos2Z.inj_mul.
  change (Z.pos 4503599627370496) with (2 ^ 52)%Z.
  rewrite Z.mul_comm. replace (-52 + e) with (e - 52) by lia.
  now apply binary_round_aux_exact.
Qed.

End IntegerFloats.

(** ** The options of the terminal renderer *)

Lemma applyOptions_positive (opts : list rendererOptionName) (i : Z)
    (r : simple.Renderer) :
  forallb positiveLength opts = true ->
  (0 < simple.maxLen r)%Z -> (0 < simple.maxLabelLen r)%Z ->
  exists r', simple.applyOptions i (map rendererOptionOf opts) r = Ok r' /\
             (0 < simple.maxLen r')%Z /\ (0 < simple.maxLabelLen r')%Z.
Proof.
  revert i r. induction opts as [|o opts IH]; intros i r Hall Hlen Hlabel.
  - exists r. auto.
  - cbn [forallb] in Hall. apply andb_true_iff in Hall as [Ho Hall].
    cbn [map simple.applyOptions].
    destruct o as [n|n|enable|tick]; cbn [rendererOptionOf positiveLength] in *.
    + unfold simple.WithMaxLength. apply Z.ltb_lt in Ho.
      destruct (Z.leb_spec n 0); [lia|]. apply IH; auto.
    + unfold simple.WithMaxLabelLength. apply Z.ltb_lt in Ho.
      destruct (Z.leb_spec n 0); [lia|]. apply IH; auto.
    + unfold simple.WithScaling. apply IH; auto.
    + unfold simple.WithTick. apply IH; auto.
Qed.

Lemma applyOptions_rejected (pre post : list rendererOptionName)
    (o : rendererOptionName) (i : Z) (r : simple.Renderer) :
  forallb positiveLength pre = true -> positiveLength o = false ->
  simple.applyOptions i (map rendererOptionOf (pre ++ o :: post)) r
  = Err (applyingOption (i + Z.of_nat (length pre) + 1)
           (invalidOption
              match o with
              | maxLength _ => "maximum length must be a positive integer"
              | _ => "maximum label length must be a positive integer"
              end)).
Proof.
  revert i r. induction pre as [|o' pre IH]; intros i r Hall Ho.
  - cbn [app map simple.applyOptions length Z.of_nat]. rewrite Z.add_0_r.
    destruct o as [n|n|enable|tick]; try discriminate;
      cbn [rendererOptionOf positiveLength] in *; apply Z.ltb_ge in Ho.
    + unfold simple.WithMaxLength. destruct (Z.leb_spec n 0); [reflexivity|lia].
    + unfold simple.WithMaxLabelLength.
      destruct (Z.leb_spec n 0); [reflexivity|lia].
  - cbn [forallb] in Hall. apply andb_true_iff in Hall as [Ho' Hall].
    cbn [app map simple.applyOptions].
    assert (exists r', rendererOptionOf o' r = Ok r') as [r' ->].
    { destruct o' as [n|n|enable|tick]; cbn [rendererOptionOf positiveLength] in *.
      - unfold simple.WithMaxLength. apply Z.ltb_lt in Ho'.
        destruct (Z.leb_spec n 0); [lia|eauto].
      - unfold simple.WithMaxLabelLength. apply Z.ltb_lt in Ho'.
        destruct (Z.leb_spec n 0); [lia|eauto].
      - unfold simple.WithScaling. eauto.
      - unfold simple.WithTick. eauto. }
    rewrite (IH (i + 1)%Z r' Hall Ho). do 2 f_equal.
    cbn [length]. lia.
Qed.

Lemma forallb_split {A : Type} (f : A -> bool) (l : list A) :
  forallb f l = false ->
  exists pre x post, l = pre ++ x :: post /\ forallb f pre = true /\ f x = false.
Proof.
  induction l as [|x l IH]; [discriminate|]. cbn [forallb].
  destruct (f x) eqn:Hx.
  - intros (pre & y & post & -> & Hpre & Hy)%IH.
    exists (x :: pre), y, post. cbn [forallb]. rewrite Hx. auto.
  - intros _. exists [], x, l. auto.
Qed.

(** NewRenderer returns a renderer exactly when every WithMaxLength and
    WithMaxLabelLength option gives a positive length, and both lengths of
    the renderer are then positive; otherwise it returns the error of the
    first option that does not, with the position of that option counted
    from one. *)
Theorem NewRenderer_positive_lengths (opts : list rendererOptionName) :
  match simple.NewRenderer (map rendererOptionOf opts) with
  | Ok r =>
      forallb positiveLength opts = true /\
      (0 < simple.maxLen r)%Z /\ (0 < simple.maxLabelLen r)%Z
  | Err e =>
      exists pre o post,
        opts = pre ++ o :: post /\
        forallb positiveLength pre = true /\ positiveLength o = false /\
        e = applyingOption (Z.of_nat (length pre) + 1)
              (invalidOption
                 match o with
                 | maxLength _ => "maximum length must be a positive integer"
                 | _ => "maximum label length must be a positive integer"
                 end)
  end.
Proof.
  unfold simple.NewRenderer.
  destruct (forallb positiveLength opts) eqn:Hall.
  - edestruct (applyOptions_positive opts 0) as (r' & -> & Hlen & Hlabel);
      [exact Hall| | |auto]; reflexivity.
  - destruct (forallb_split _ _ Hall) as (pre & o & post & -> & Hpre & Ho).
    rewrite (applyOptions_rejected pre post o 0 _ Hpre Ho).
    exists pre, o, post. auto.
Qed.

(** ** Labels with a dot *)

Lemma allDigits_dot (s : string) :
  anyByte isDot s = true -> float64.allDigits s = false.
Proof.
  induction s as [|c s IH]; simpl; [discriminate|].
  intros [Hc|Hs]%orb_true_iff.
  - unfold isDot in Hc. apply Ascii.eqb_eq in Hc as ->. reflexivity.
  - rewrite (IH Hs). apply andb_false_r.
Qed.

Lemma Atoi_dot (s : string) : anyByte isDot s = true -> strconv.Atoi s = None.
Proof.
  intros Hdot. unfold strconv.Atoi.
  assert (forall body, anyByte isDot body = true ->
            (if float64.allDigits body && negb (String.length body =? 0)%nat
             then
               let n := float64.decimalValue 0 body in
               let v := n in
               if ((- 2 ^ 63 <=? v) && (v <=? 2 ^ 63 - 1))%Z then Some v else None
             else None) = None) as Hbody.
  { intros body Hb. now rewrite (allDigits_dot _ Hb). }
  destruct s as [|c t]; [discriminate|].
  destruct (Ascii.eqb_spec c "-") as [->|Hm].
  - simpl in Hdot. now rewrite (allDigits_dot _ Hdot).
  - destruct (Ascii.eqb_spec c "+") as [->|Hp].
    + simpl in Hdot. now rewrite (allDigits_dot _ Hdot).
    + etransitivity; [|exact (Hbody (String c t) Hdot)].
      destruct c as [[] [] [] [] [] [] [] []]; try reflexivity;
        try (exfalso; apply Hm; reflexivity); exfalso; apply Hp; reflexivity.
Qed.

Lemma anyByte_keep_true (f g : ascii -> bool) (s : string) :
  (forall c, f c = true -> g c = true) ->
  anyByte f s = true -> anyByte f (keep g s) = true.
Proof.
  intros Hfg. induction s as [|c s IH]; simpl; [auto|].
  intros [Hc|Hs]%orb_true_iff.
  - rewrite (Hfg c Hc). simpl. now rewrite Hc.
  - destruct (g c); simpl; rewrite (IH Hs); auto using orb_true_r.
Qed.

Lemma Atoi_range (s : string) (n : Z) :
  strconv.Atoi s = Some n -> (- 2 ^ 63 <= n <= 2 ^ 63 - 1)%Z.
Proof.
  unfold strconv.Atoi.
  destruct (match s with
            | String "-" t => (true, t)
            | String "+" t => (false, t)
            | _ => (false, s)
            end) as [neg body].
  destruct (_ && _); [|discriminate]. cbv zeta.
  destruct (_ && _) eqn:H; [|discriminate].
  intros [= <-]. apply andb_true_iff in H as [H1 H2].
  apply Z.leb_le in H1. apply Z.leb_le in H2. lia.
Qed.

Lemma Atoi_unsigned_nonneg (s : string) (n : Z) :
  anyByte (fun c => Ascii.eqb c "-") s = false ->
  strconv.Atoi s = Some n -> (0 <= n)%Z.
Proof.
  intros Hminus. unfold strconv.Atoi.
  assert (match s with
          | String "-" t => (true, t)
          | String "+" t => (false, t)
          | _ => (false, s)
          end = (false, match s with String "+" t => t | _ => s end)) as ->.
  { destruct s as [|c t]; [reflexivity|].
    simpl in Hminus. apply orb_false_iff in Hminus as [Hc _].
    destruct c as [[] [] [] [] [] [] [] []]; try reflexivity; discriminate. }
  set (body := match s with String "+" t => t | _ => s end).
  destruct (float64.allDigits body) eqn:Hd; [|discriminate].
  destruct (negb _); [|discriminate]. cbv beta iota zeta.
  pose proof (decimalValue_nonneg body 0 Hd ltac:(lia)) as Hpos.
  destruct (((- 2 ^ 63 <=? float64.decimalValue 0 body)
             && (float64.decimalValue 0 body <=? 2 ^ 63 - 1))%Z);
    [|discriminate].
  intros H. injection H as <-. exact Hpos.
Qed.

Lemma Atoi_digits_overflow (s : string) :
  float64.allDigits s = true ->
  (2 ^ 63 <= float64.decimalValue 0 s)%Z -> strconv.Atoi s = None.
Proof.
  intros Hs Hbig. destruct s as [|c t]; [reflexivity|].
  assert (strconv.Atoi (String c t) =
          if float64.allDigits (String c t)
             && negb (String.length (String c t) =? 0)%nat
          then
            let n := float64.decimalValue 0 (String c t) in
            if (- 2 ^ 63 <=? n)%Z && (n <=? 2 ^ 63 - 1)%Z then Some n else None
          else None) as ->.
  { simpl in Hs. apply andb_true_iff in Hs as [Hc _].
    destruct c as [[] [] [] [] [] [] [] []]; try discriminate Hc; reflexivity. }
  rewrite Hs. cbn [String.length Nat.eqb negb andb]. cbv zeta.
  destruct (Z.leb_spec (float64.decimalValue 0 (String c t)) (2 ^ 63 - 1));
    [lia|]. now rewrite andb_false_r.
Qed.

(** stringToInt, the key of SortByLabelNumeric, is 0 for every label that
    contains a dot, and for every label that is not a decimal integer as a
    whole and whose digits, read together, exceed the largest int; it is
    always in the range of int, and it is negative only for a label that is
    a negative decimal integer as a whole. *)
Theorem stringToInt_dot_and_range (label : string) :
  (anyByte isDot label = true -> stringToInt label = 0%Z) /\
  (strconv.Atoi label = None -> anyByte isDot label = false ->
   (2 ^ 63 <= digitsKey label)%Z -> stringToInt label = 0%Z) /\
  (- 2 ^ 63 <= stringToInt label <= 2 ^ 63 - 1)%Z /\
  (strconv.Atoi label = None -> (0 <= stringToInt label)%Z).
Proof.
  assert (forall n, strconv.Atoi (keep floatRE label) = Some n -> (0 <= n)%Z)
    as Hpos.
  { intros n. apply Atoi_unsigned_nonneg.
    induction label as [|c s IH]; simpl; [reflexivity|].
    destruct (floatRE c) eqn:Hc; [|exact IH]. simpl. rewrite IH.
    destruct (Ascii.eqb_spec c "-") as [->|]; [discriminate|reflexivity]. }
  split; [|split; [|split]].
  - intros Hdot. unfold stringToInt. rewrite (Atoi_dot _ Hdot).
    rewrite Join_FindAllString.
    destruct (String.eqb _ _); [reflexivity|].
    rewrite Atoi_dot; [reflexivity|].
    apply anyByte_keep_true; [|exact Hdot].
    intros c Hc. unfold isDot in Hc. apply Ascii.eqb_eq in Hc as ->. reflexivity.
  - intros Ha Hdot Hbig. unfold stringToInt, digitsKey in *.
    rewrite Ha, Join_FindAllString, (keep_dotless _ Hdot).
    destruct (String.eqb _ _); [reflexivity|].
    now rewrite (Atoi_digits_overflow _ (allDigits_keep label) Hbig).
  - unfold stringToInt.
    destruct (strconv.Atoi label) as [n|] eqn:Ha; [now apply Atoi_range in Ha|].
    rewrite Join_FindAllString.
    destruct (String.eqb _ _); [lia|].
    destruct (strconv.Atoi (keep floatRE label)) as [n|] eqn:Hn; [|lia].
    now apply Atoi_range in Hn.
  - intros Ha. unfold stringToInt. rewrite Ha, Join_FindAllString.
    destruct (String.eqb _ _); [lia|].
    destruct (strconv.Atoi (keep floatRE label)) as [n|] eqn:Hn; [|lia].
    now apply Hpos.
Qed.

(** ** Bytes and runes *)

Lemma len_append (s t : string) :
  gostring.len (s +:+ t) = (gostring.len s + gostring.len t)%nat.
Proof. induction s as [|c s IH]; simpl; [reflexivity|]. now rewrite <- IH. Qed.

Lemma len_substring (s : string) (i n : nat) :
  (i + n <= gostring.len s)%nat -> gostring.len (substring i n s) = n.
Proof.
  revert i n. induction s as [|c s IH]; intros i n; simpl.
  - intros H. assert (i = 0 /\ n = 0)%nat as [-> ->] by lia. reflexivity.
  - intros H. destruct i as [|i].
    + destruct n as [|n]; simpl; [reflexivity|]. f_equal. apply IH. lia.
    + apply IH. lia.
Qed.

Lemma allBytes_append (f : ascii -> bool) (s t : string) :
  allBytes f (s +:+ t) = allBytes f s && allBytes f t.
Proof.
  induction s as [|c s IH]; simpl; [reflexivity|].
  now rewrite IH, andb_assoc.
Qed.

Lemma allBytes_substring (f : ascii -> bool) (s : string) (i n : nat) :
  allBytes f s = true -> allBytes f (substring i n s) = true.
Proof.
  revert i n. induction s as [|c s IH]; intros i n; simpl.
  - destruct i, n; reflexivity.
  - intros [Hc Hs]%andb_true_iff. destruct i as [|i]; [|now apply IH].
    destruct n as [|n]; simpl; [reflexivity|]. rewrite Hc. now apply IH.
Qed.

Lemma runeSize_ascii (c : ascii) (rest : string) :
  isASCII c = true -> gostring.runeSize c rest = 1%nat.
Proof. unfold isASCII, gostring.runeSize. now intros ->. Qed.

Lemma RuneCount_ascii (s : string) :
  allBytes isASCII s = true -> gostring.RuneCountInString s = gostring.len s.
Proof.
  unfold gostring.RuneCountInString.
  induction s as [|c s IH]; simpl; [reflexivity|].
  intros [Hc Hs]%andb_true_iff. rewrite (runeSize_ascii _ _ Hc). simpl.
  now rewrite IH.
Qed.

Lemma runeCount_le (s : string) (skip : nat) :
  (gostring.runeCount skip s <= gostring.len s)%nat.
Proof.
  revert skip. induction s as [|c s IH]; intros skip; simpl; [lia|].
  destruct skip as [|skip].
  - specialize (IH (gostring.runeSize c s - 1)%nat). lia.
  - specialize (IH skip). lia.
Qed.

Lemma RuneCount_append_ascii (s t : string) :
  allBytes isASCII s = true ->
  gostring.RuneCountInString (s +:+ t)
  = (gostring.len s + gostring.RuneCountInString t)%nat.
Proof.
  unfold gostring.RuneCountInString.
  induction s as [|c s IH]; simpl; [reflexivity|].
  intros [Hc Hs]%andb_true_iff. rewrite (runeSize_ascii _ _ Hc). simpl.
  now rewrite IH.
Qed.

Lemma int_id (z : Z) : (- 2 ^ 63 <= z <= 2 ^ 63 - 1)%Z -> simple.int z = z.
Proof.
  intros H. unfold simple.int. rewrite Z.mod_small by lia. lia.
Qed.

(** ** Truncated labels *)

Lemma quot2 (z : Z) :
  ((Z.quot z 2 < 0 <-> z <= -2) /\ (0 <= z -> 0 <= 2 * Z.quot z 2 <= z) /\
   (z <= 0 -> Z.quot z 2 <= 0))%Z.
Proof. Z.to_euclidean_division_equations. lia. Qed.

Lemma truncate_long (s : string) (maxLen : Z) :
  (- 2 ^ 63 + 3 <= maxLen <= 2 ^ 63 - 1)%Z ->
  (maxLen < Z.of_nat (gostring.RuneCountInString s))%Z ->
  let part := Z.quot (maxLen - 3) 2 in
  let sLen := gostring.RuneCountInString s in
  simple.truncate s maxLen =
    if (part <? 0)%Z then simple.Panics
    else simple.Returns
           (gostring.slice s 0 (Z.to_nat part) +:+ "..." +:+
            gostring.slice_from s (sLen - Z.to_nat part)).
Proof.
  intros Hrange Hlong part sLen. unfold simple.truncate.
  destruct (Z.leb_spec (Z.of_nat (gostring.RuneCountInString s)) maxLen); [lia|].
  cbv zeta. change (Z.of_nat (gostring.len "...")) with 3%Z.
  rewrite int_id by lia. fold part. fold sLen.
  pose proof (runeCount_le s 0) as Hle.
  change (gostring.runeCount 0 s) with sLen in Hle.
  destruct (Z.ltb_spec part 0) as [Hneg|Hpos]; [reflexivity|].
  destruct (quot2 (maxLen - 3)) as (Hq1 & Hq2 & Hq3). fold part in Hq1, Hq2, Hq3.
  fold sLen in Hlong.
  assert (part <= Z.max 0 maxLen)%Z as Hpart by lia.
  destruct (Z.ltb_spec (Z.of_nat (gostring.len s)) part); [lia|].
  cbn [orb].
  destruct (Z.ltb_spec (Z.of_nat sLen - part) 0); [lia|].
  destruct (Z.ltb_spec (Z.of_nat (gostring.len s)) (Z.of_nat sLen - part)); [lia|].
  cbn [orb]. do 4 f_equal. lia.
Qed.

Lemma substring_none (u : string) (n : nat) :
  (gostring.len u <= n)%nat -> substring n 0 u = EmptyString.
Proof.
  revert n. induction u as [|c u IH]; intros [|n]; simpl; intros;
    try reflexivity; try lia.
  apply IH. lia.
Qed.

Lemma truncate_ascii (s : string) (maxLen : Z) :
  (- 2 ^ 63 + 3 <= maxLen <= 2 ^ 63 - 1)%Z ->
  allBytes isASCII s = true -> (2 <= maxLen < Z.of_nat (gostring.len s))%Z ->
  let part := Z.to_nat (Z.quot (maxLen - 3) 2) in
  exists t,
    simple.truncate s maxLen = simple.Returns t /\
    t = gostring.slice s 0 part +:+ "..." +:+
        gostring.slice_from s (gostring.len s - part) /\
    gostring.len t = (2 * part + 3)%nat /\
    allBytes isASCII t = true /\
    ((3 <= maxLen)%Z -> (Z.of_nat (gostring.len t) <= maxLen)%Z) /\
    (maxLen = 2%Z -> t = "...").
Proof.
  intros Hrange Hascii Hlen part.
  destruct (quot2 (maxLen - 3)) as (Hq1 & Hq2 & Hq3).
  rewrite (truncate_long s maxLen Hrange)
    by (rewrite RuneCount_ascii by assumption; lia).
  destruct (Z.ltb_spec (Z.quot (maxLen - 3) 2) 0) as [Hneg|Hpos]; [lia|].
  rewrite (RuneCount_ascii s Hascii). fold part.
  assert (Z.of_nat part = Z.quot (maxLen - 3) 2) as Hpart by (unfold part; lia).
  assert (part <= gostring.len s)%nat as Hle.
  { destruct (Z.le_gt_cases 0 (maxLen - 3)); lia. }
  eexists. split; [reflexivity|]. split; [reflexivity|].
  unfold gostring.slice, gostring.slice_from.
  replace (gostring.len s - (gostring.len s - part))%nat with part by lia.
  split; [|split; [|split]].
  - rewrite !len_append, !len_substring by lia. simpl. lia.
  - rewrite !allBytes_append, !allBytes_substring by assumption. reflexivity.
  - intros H3. rewrite !len_append, !len_substring by lia. simpl.
    specialize (Hq2 ltac:(lia)). lia.
  - intros ->. assert (part = 0)%nat as -> by (unfold part; reflexivity).
    replace (0 - 0)%nat with 0%nat by lia.
    rewrite (substring_none s (gostring.len s - 0)) by lia.
    destruct s; reflexivity.
Qed.

(** truncate(s, maxLen), for a maxLen of at least -2^63+3, returns s when s
    has at most maxLen runes.  When s has more, it panics exactly when
    maxLen is at most 1, since the length of each part, (maxLen-3)/2, is
    then negative.  For an s of ASCII characters that is longer than a
    maxLen of at least 2, it returns the first (maxLen-3)/2 bytes of s,
    three dots and the last (maxLen-3)/2 bytes of s, which are
    2*((maxLen-3)/2)+3 bytes: at most maxLen when maxLen is 3 or more, and
    the three dots alone, one more than maxLen, when maxLen is 2. *)
Theorem truncate_outcomes (s : string) (maxLen : Z) :
  (- 2 ^ 63 + 3 <= maxLen <= 2 ^ 63 - 1)%Z ->
  let runes := Z.of_nat (gostring.RuneCountInString s) in
  let part := Z.to_nat (Z.quot (maxLen - 3) 2) in
  ((runes <= maxLen)%Z -> simple.truncate s maxLen = simple.Returns s) /\
  (simple.truncate s maxLen = simple.Panics <->
   (maxLen < runes)%Z /\ (maxLen <= 1)%Z) /\
  (allBytes isASCII s = true -> (2 <= maxLen < Z.of_nat (gostring.len s))%Z ->
   exists t,
     simple.truncate s maxLen = simple.Returns t /\
     t = gostring.slice s 0 part +:+ "..." +:+
         gostring.slice_from s (gostring.len s - part) /\
     gostring.len t = (2 * part + 3)%nat /\
     allBytes isASCII t = true /\
     ((3 <= maxLen)%Z -> (Z.of_nat (gostring.len t) <= maxLen)%Z) /\
     (maxLen = 2%Z -> t = "...")).
Proof.
  intros Hrange runes part.
  destruct (quot2 (maxLen - 3)) as (Hq1 & Hq2 & Hq3).
  split; [|split].
  - intros Hshort. unfold simple.truncate. fold runes.
    destruct (Z.leb_spec runes maxLen); [reflexivity|lia].
  - destruct (Z.leb_spec runes maxLen) as [Hshort|Hlong].
    + unfold simple.truncate. fold runes.
      destruct (Z.leb_spec runes maxLen); [|lia].
      split; [discriminate|lia].
    + rewrite (truncate_long s maxLen Hrange Hlong).
      destruct (Z.ltb_spec (Z.quot (maxLen - 3) 2) 0); split; try lia; auto.
      discriminate.
  - intros Hascii Hlen. exact (truncate_ascii s maxLen Hrange Hascii Hlen).
Qed.

Lemma truncate_outcomes_witness :
  (- 2 ^ 63 + 3 <= 7 <= 2 ^ 63 - 1)%Z /\
  simple.truncate "abcdefghij" 7 = simple.Returns "ab...ij" /\
  simple.truncate "abcdefghij" 10 = simple.Returns "abcdefghij" /\
  simple.truncate "abcdefghij" 1 = simple.Panics.
Proof.
  destruct (truncate_outcomes "abcdefghij" 7 ltac:(lia)) as (_ & _ & Hlong).
  destruct (Hlong eq_refl ltac:(split; [lia|reflexivity])) as (t & -> & -> & _).
  destruct (truncate_outcomes "abcdefghij" 10 ltac:(lia)) as (Hshort & _ & _).
  destruct (truncate_outcomes "abcdefghij" 1 ltac:(lia)) as (_ & Hpanic & _).
  split; [lia|].
  split; [reflexivity|]. split; [apply Hshort; discriminate|].
  apply Hpanic. split; [reflexivity|lia].
Defined.

(** ** The column of the labels *)

Lemma MaxLabel_longest (c : Chart) (l : string) :
  In l (orderedMap_keys (data c)) ->
  (gostring.len l <= gostring.len (Chart_MaxLabel c))%nat.
Proof.
  intros Hin. unfold Chart_MaxLabel.
  destruct (orderedMap_keys (data c)) as [|x rest] eqn:Hl; [destruct Hin|].
  cbn [length Nat.eqb].
  destruct (MaxLabel_fold (x :: rest) EmptyString)
    as [[Hr Hall]|(pre & post & Heq & _ & Hpre & Hpost)].
  - specialize (Hall l Hin). simpl in Hall. lia.
  - rewrite Heq in Hin. apply in_app_or in Hin as [H|[<-|H]].
    + specialize (Hpre l H). lia.
    + lia.
    + now apply Hpost.
Qed.

Lemma len_padding (n : Z) : gostring.len (fmt.padding n) = Z.to_nat n.
Proof.
  unfold fmt.padding. induction (Z.to_nat n) as [|k IH]; [reflexivity|].
  cbn [gostring.Repeat]. rewrite len_append, IH. reflexivity.
Qed.

Lemma SprintfWidth_ascii (n : Z) (s : string) :
  (0 <= n <= 10000000)%Z -> allBytes isASCII s = true ->
  (Z.of_nat (gostring.len s) <= n)%Z ->
  fmt.SprintfWidth n s = fmt.padding (n - Z.of_nat (gostring.len s)) +:+ s.
Proof.
  intros Hn Hascii Hlen. unfold fmt.SprintfWidth.
  rewrite (RuneCount_ascii s Hascii).
  assert (Z.abs n / 10 <= 1000000)%Z as Hdiv.
  { rewrite Z.abs_eq by lia. apply Z.div_le_upper_bound; lia. }
  destruct (Z.ltb_spec 1000000 (Z.abs n / 10)); [lia|].
  destruct (Z.eqb_spec n 0) as [->|Hne].
  - assert (gostring.len s = 0)%nat as Hs by lia. rewrite Hs. reflexivity.
  - destruct (Z.ltb_spec 0 n); [reflexivity|lia].
Qed.

(** In the rows of a chart whose labels are ASCII, for a renderer with a
    maximum label length from 3 to 10000000: the label column of every row
    has the same width, the byte length of the longest label or the
    maximum label length if that is less; a label is written at the right
    of the column, after as many spaces as it is shorter, and a label
    longer than the maximum label length is written truncated. *)
Theorem label_right_aligned (r : simple.Renderer) (c : Chart) (l : string) :
  (3 <= simple.maxLabelLen r <= 10000000)%Z ->
  In l (orderedMap_keys (data c)) ->
  allBytes isASCII l = true ->
  let width :=
    Z.min (Z.of_nat (gostring.len (Chart_MaxLabel c))) (simple.maxLabelLen r) in
  exists t,
    simple.truncate l (simple.maxLabelLen r) = simple.Returns t /\
    (Z.of_nat (gostring.len t) <= width)%Z /\
    simple.label (simple.Render_setup r c) l
    = simple.Returns (fmt.padding (width - Z.of_nat (gostring.len t)) +:+ t) /\
    Z.of_nat (gostring.len (fmt.padding (width - Z.of_nat (gostring.len t)) +:+ t))
    = width.
Proof.
  intros HM Hin Hascii width.
  pose proof (MaxLabel_longest c l Hin) as Hlongest.
  assert ((Z.of_nat (gostring.RuneCountInString l) <= simple.maxLabelLen r)%Z ->
          simple.truncate l (simple.maxLabelLen r) = simple.Returns l) as Hshort.
  { intros Hle. unfold simple.truncate.
    destruct (Z.leb_spec (Z.of_nat (gostring.RuneCountInString l))
                (simple.maxLabelLen r)); [reflexivity|lia]. }
  pose proof (truncate_ascii l (simple.maxLabelLen r) ltac:(lia)) as Hlong.
  assert (exists t,
            simple.truncate l (simple.maxLabelLen r) = simple.Returns t /\
            allBytes isASCII t = true /\
            (Z.of_nat (gostring.len t) <= width)%Z /\
            (if (simple.maxLabelLen r <? Z.of_nat (gostring.len l))%Z
             then simple.truncate l (simple.maxLabelLen r)
             else simple.Returns l) = simple.Returns t)
    as (t & Ht & Hta & Htw & Hsel).
  { destruct (Z.ltb_spec (simple.maxLabelLen r) (Z.of_nat (gostring.len l)))
      as [Hlt|Hge].
    - destruct (Hlong Hascii ltac:(lia)) as (t & Ht & _ & _ & Hta & Hle & _).
      exists t. repeat split; try assumption. specialize (Hle ltac:(lia)).
      unfold width. lia.
    - exists l. rewrite Hshort by (rewrite RuneCount_ascii by assumption; lia).
      repeat split; try assumption. unfold width. lia. }
  exists t. split; [exact Ht|]. split; [exact Htw|]. split.
  - unfold simple.label. cbn [simple.Render_setup simple.maxLabelLen
                               simple.longestLabelLen].
    rewrite Hsel. fold width.
    rewrite Z.min_l by (unfold width; lia).
    rewrite SprintfWidth_ascii; [reflexivity| |assumption|assumption].
    unfold width. lia.
  - rewrite len_append, len_padding. lia.
Qed.

Lemma label_right_aligned_witness :
  let r := defaultRenderer simple.DefaultTick in
  let c := run (configured SortNone OrderNone 2)
             [CallSet "apples" float64.one;
              CallSet "a label of more than twenty bytes" float64.one] in
  (3 <= simple.maxLabelLen r <= 10000000)%Z /\
  simple.label (simple.Render_setup r c) "apples"
  = simple.Returns "              apples" /\
  simple.label (simple.Render_setup r c) "a label of more than twenty bytes"
  = simple.Returns " a label ...ty bytes".
Proof.
  intros r c.
  assert (3 <= simple.maxLabelLen r <= 10000000)%Z as HM
      by (split; discriminate).
  destruct (label_right_aligned r c "apples" HM
              ltac:(left; reflexivity) eq_refl) as (t & Ht & _ & -> & _).
  destruct (label_right_aligned r c "a label of more than twenty bytes" HM
              ltac:(right; left; reflexivity) eq_refl) as (t' & Ht' & _ & -> & _).
  injection Ht as <-. injection Ht' as <-.
  split; [exact HM|]. split; reflexivity.
Defined.

(** ** Integer values *)

Lemma Pow10_integer (prec : Z) :
  (0 <= prec <= 15)%Z ->
  float64.Pow10 (float64.ofZ prec) = float64.ofZ (10 ^ prec).
Proof.
  intros H. rewrite <- (Z2Nat.id prec) by lia.
  assert (Z.to_nat prec <= 15)%nat as Hn by lia.
  generalize dependent (Z.to_nat prec). clear H. intros n Hn.
  do 16 (destruct n as [|n]; [vm_compute; reflexivity|]). lia.
Qed.

Lemma Value_integer (c : Chart) (l : string) (n prec : Z) :
  (0 <= prec <= 15)%Z -> (Z.abs n * 10 ^ prec < 2 ^ 53)%Z ->
  p c = float64.Pow10 (float64.ofZ prec) ->
  m (data c) !! l = Some (float64.ofZ n) ->
  Chart_Value c l = Ok (float64.ofZ n).
Proof.
  intros Hprec Hn Hp Hl. unfold Chart_Value, orderedMap_get. rewrite Hl, Hp.
  rewrite (Pow10_integer prec Hprec).
  assert (0 < 10 ^ prec)%Z as Hpos by (apply Z.pow_pos_nonneg; lia).
  assert (10 ^ prec < 2 ^ 53)%Z as Hlt.
  { apply (Z.le_lt_trans _ (10 ^ 15)); [apply Z.pow_le_mono_r; lia|reflexivity]. }
  assert (Z.abs (n * 10 ^ prec) < 2 ^ 53)%Z as Hab by (rewrite Z.abs_mul; lia).
  rewrite mul_ofZ, Round_ofZ, div_ofZ by lia. reflexivity.
Qed.

(** For a chart with a precision from 0 to 15, Value returns an integer
    value n exactly as it is stored, as long as n * 10^precision is below
    2^53 in absolute value: rounding to the precision loses nothing. *)
Theorem Value_of_integer
    (s : SortOption) (d : SortDirection) (prec : Z) (calls : list call)
    (l : string) (n : Z) :
  (prec <= 15)%Z -> (Z.abs n * 10 ^ Z.max 0 prec < 2 ^ 53)%Z ->
  let c := run (configured s d prec) calls in
  m (data c) !! l = Some (float64.ofZ n) ->
  Chart_Value c l = Ok (float64.ofZ n).
Proof.
  intros Hprec Hn c Hl.
  apply (Value_integer c l n (Z.max 0 prec)); [lia|exact Hn| |exact Hl].
  unfold c. destruct (run_config (configured s d prec) calls) as (_ & _ & ->).
  reflexivity.
Qed.

Lemma Value_of_integer_witness :
  let c := run (configured SortNone OrderNone 2)
             [CallSet "a" (float64.ofZ 41); CallAdd "a" float64.one] in
  (2 <= 15)%Z /\ (Z.abs 42 * 10 ^ Z.max 0 2 < 2 ^ 53)%Z /\
  m (data c) !! "a" = Some (float64.ofZ 42) /\
  Chart_Value c "a" = Ok (float64.ofZ 42).
Proof.
  intros c.
  assert (m (data c) !! "a" = Some (float64.ofZ 42)) as Hl by reflexivity.
  split; [lia|]. split; [reflexivity|]. split; [exact Hl|].
  exact (Value_of_integer SortNone OrderNone 2 _ "a" 42
           ltac:(lia) ltac:(reflexivity) Hl).
Defined.

(** ** The bar of the greatest value *)

Lemma len_utf8 (r : Z) : (1 <= gostring.len (gostring.utf8 r) <= 4)%nat.
Proof.
  unfold gostring.utf8.
  destruct (_ || _); [simpl; lia|].
  destruct (r <? 128)%Z; [simpl; lia|].
  destruct (r <? 2048)%Z; [simpl; lia|].
  destruct (r <? 65536)%Z; simpl; lia.
Qed.

Lemma bar_full (Log10 : spec_float -> spec_float) (r : simple.Renderer)
    (s : bool) (mx : positive) (e : Z) :
  simple.scale r = false ->
  simple.maxVal r = S754_finite s mx e ->
  (0 < simple.barLen r < 2 ^ 53)%Z ->
  simple.bar Log10 r (simple.maxVal r)
  = simple.Returns
      (gostring.Repeat (gostring.utf8 (simple.tick r)) (Z.to_nat (simple.barLen r))).
Proof.
  intros Hscale Hmax Hlen. unfold simple.bar, simple.barLength.
  rewrite Hscale, Hmax, div_self.
  change float64.one with (float64.ofZ 1).
  rewrite mul_ofZ by lia. rewrite Z.mul_1_l, Round_ofZ by lia.
  rewrite ofZ_not_zero, trunc_ofZ by lia.
  destruct (Z.leb_spec (- 2 ^ 63) (simple.barLen r)); [|lia].
  destruct (Z.leb_spec (simple.barLen r) (2 ^ 63 - 1)); [|lia].
  cbn [andb]. destruct (Z.ltb_spec (simple.barLen r) 0); [lia|].
  pose proof (len_utf8 (simple.tick r)) as Hu.
  destruct (Z.ltb_spec (2 ^ 63 - 1)
              (Z.of_nat (gostring.len (gostring.utf8 (simple.tick r)))
               * simple.barLen r)); [nia|reflexivity].
Qed.

Lemma MaxValue_of_label (c : Chart) (s : bool) (mx : positive) (e : Z) :
  wellFormed (data c) ->
  Chart_MaxValue c = S754_finite s mx e ->
  exists l, In l (orderedMap_keys (data c)) /\
            Chart_Value c l = Ok (Chart_MaxValue c).
Proof.
  intros [_ Hdom] Hfin. unfold Chart_MaxValue in *.
  destruct (length (orderedMap_values (data c)) =? 0)%nat; [discriminate|].
  cbv zeta in *.
  destruct (MaxValue_fold (orderedMap_values (data c)) float64.zero _
              eq_refl eq_refl) as (_ & Hin & _).
  set (M := fold_left _ (orderedMap_values (data c)) float64.zero) in *.
  destruct Hin as [HM|Hin].
  - exfalso. rewrite HM in Hfin.
    destruct (p c) as [sp|sp| |sp mp ep]; try discriminate Hfin;
      destruct sp; discriminate Hfin.
  - unfold orderedMap_values in Hin. apply in_map_iff in Hin as (l & Hl & Hk).
    exists l. split; [exact Hk|].
    apply Hdom in Hk as [v Hv]. rewrite Hv in Hl. simpl in Hl. subst v.
    unfold Chart_Value, orderedMap_get. now rewrite Hv.
Qed.

(** For a chart that New returned and calls populated, and whose
    MaxValue() is finite and not zero: some label of Labels() has the
    value MaxValue(), and without logarithmic scaling the bar of that
    value consists of exactly as many ticks as the bar length that Render
    computes, when that length is positive (and below 2^53). *)
Theorem greatest_value_fills_bar
    (Log10 : spec_float -> spec_float) (r : simple.Renderer)
    (opts : list optionName) (c0 : Chart) (calls : list call) :
  New (map optionOf opts) = Ok c0 ->
  let c := run c0 calls in
  let r' := simple.Render_setup r c in
  simple.scale r = false ->
  (exists s mx e, Chart_MaxValue c = S754_finite s mx e) ->
  (0 < simple.barLen r' < 2 ^ 53)%Z ->
  exists l,
    In l (Chart_Labels c) /\
    Chart_Value c l = Ok (Chart_MaxValue c) /\
    simple.bar Log10 r' (Chart_MaxValue c)
    = simple.Returns
        (gostring.Repeat (gostring.utf8 (simple.tick r))
           (Z.to_nat (simple.barLen r'))).
Proof.
  intros (s & d & prec & ->)%New_options_inv c r' Hscale (sx & mx & e & Hfin) Hlen.
  assert (wellFormed (data c)) as Hwf
      by (apply run_wellFormed, newOrderedMap_wellFormed).
  destruct (MaxValue_of_label c sx mx e Hwf Hfin) as (l & Hl & Hv).
  exists l. split; [|split; [exact Hv|]].
  - apply (Permutation_in l (Permutation_sym (Labels_Permutation_keys c)) Hl).
  - exact (bar_full Log10 r' sx mx e Hscale Hfin Hlen).
Qed.

Lemma greatest_value_fills_bar_witness :
  let c := run (configured SortNone OrderNone 2)
             [CallSet "one" (float64.ofZ 1); CallSet "ten" (float64.ofZ 10)] in
  let r' := simple.Render_setup (defaultRenderer 35) c in
  New (map optionOf []) = Ok (configured SortNone OrderNone 2) /\
  simple.barLen r' = 73%Z /\
  Chart_MaxValue c = float64.ofZ 10 /\
  simple.bar (fun x => x) r' (float64.ofZ 10)
  = simple.Returns (gostring.Repeat "#" 73).
Proof.
  intros c r'.
  assert (New (map optionOf []) = Ok (configured SortNone OrderNone 2)) as Hnew
      by reflexivity.
  destruct (greatest_value_fills_bar (fun x => x) (defaultRenderer 35) []
              _ [CallSet "one" (float64.ofZ 1); CallSet "ten" (float64.ofZ 10)]
              Hnew eq_refl
              ltac:(exists false, 5629499534213120%positive, (-49)%Z; reflexivity)
              ltac:(split; reflexivity))
    as (l & _ & _ & Hbar).
  split; [exact Hnew|]. split; [reflexivity|]. split; [reflexivity|].
  exact Hbar.
Defined.

(** ** The input loop of the command *)

Lemma scan_snoc (f : cli.flags) (c : Chart) (texts : list string) (t : string) :
  cli.scan f c (texts ++ [t]) = cli.scanLine f (cli.scan f c texts) t.
Proof. unfold cli.scan. now rewrite fold_left_app. Qed.

Lemma run_app (c : Chart) (calls calls' : list call) :
  run c (calls ++ calls') = run (run c calls) calls'.
Proof. unfold run. apply fold_left_app. Qed.

Lemma stored_frame (calls calls' : list call) (l : string) :
  ~ In l (map callLabel calls') -> stored (calls ++ calls') l = stored calls l.
Proof.
  induction calls' as [|o calls' IH] using rev_ind; intros Hnot.
  - now rewrite app_nil_r.
  - rewrite app_assoc, stored_snoc. unfold storedStep.
    rewrite map_app, in_app_iff in Hnot. cbn [map In] in Hnot.
    destruct (String.eqb_spec l (callLabel o)) as [->|Hne]; [tauto|].
    apply IH. tauto.
Qed.

Lemma newChart_inv (f : cli.flags) (c0 : Chart) :
  cli.newChart f = Ok c0 ->
  c0 = configured (cli.flags_Sort f) (cli.flags_SortDirection f) (cli.Precision f).
Proof. apply New_inv. Qed.

(** A line that begins with a separator has no value. *)
Lemma ParseLine_separator_first (c : ascii) (rest : string) :
  dataSepRE c = true ->
  ParseLine (String c rest) = Err missingLabel \/
  ParseLine (String c rest) = Err missingValue.
Proof.
  intros Hc.
  change (String c rest) with (EmptyString +:+ String c rest).
  rewrite (ParseLine_split EmptyString rest c)
    by (apply firstSeparator_code; auto).
  destruct (String.eqb _ _); [now left|]. now right.
Qed.

Lemma reads_not_ignored (t : string) (v : spec_float) (l : string) :
  reads t v l -> ignored t = false.
Proof.
  unfold reads, ignored. cbv zeta.
  destruct (gostring.TrimSpace t) as [|c rest]; [discriminate|].
  cbn [String.eqb orb]. unfold gostring.HasPrefix.
  cbn [list_ascii_of_string gostring.hasPrefix].
  destruct (Ascii.eqb_spec "#" c) as [<-|Hne]; [|reflexivity].
  intros H. destruct (ParseLine_separator_first "#" rest eq_refl) as [H'|H'];
    rewrite H' in H; discriminate.
Qed.

Lemma scanLine_data (f : cli.flags) (c : Chart) (t : string) :
  cli.Count f = false ->
  cli.scanLine f c t =
  match ParseLine (gostring.TrimSpace t) with
  | Err _ => c
  | Ok (value, label) => Chart_Set c label value
  end.
Proof.
  intros Hcount. unfold cli.scanLine. cbv zeta. rewrite Hcount.
  fold (ignored t).
  destruct (ParseLine (gostring.TrimSpace t)) as [[v l]|e] eqn:Hp.
  - now rewrite (reads_not_ignored t v l Hp).
  - destruct (ignored t); reflexivity.
Qed.

Lemma scan_data (f : cli.flags) (c : Chart) (texts : list string) :
  cli.Count f = false ->
  cli.scan f c texts =
  run c (flat_map (fun t => match ParseLine (gostring.TrimSpace t) with
                            | Ok (v, l) => [CallSet l v]
                            | Err _ => []
                            end) texts).
Proof.
  intros Hcount. induction texts as [|t texts IH] using rev_ind; [reflexivity|].
  rewrite scan_snoc, flat_map_app, run_app, IH, scanLine_data by assumption.
  cbn [flat_map]. rewrite app_nil_r.
  destruct (ParseLine (gostring.TrimSpace t)) as [[v l]|e]; reflexivity.
Qed.

(** Without the count flag, the chart that the input loop leaves has the
    labels of the lines that ParseLine accepts once they are trimmed, in
    the order in which the labels first occur, and for each of them the
    value of the last line with that label; blank lines and lines that
    begin with # are among the lines that ParseLine rejects. *)
Theorem data_mode_last_line_wins
    (f : cli.flags) (c0 : Chart) (texts : list string) :
  cli.Count f = false -> cli.newChart f = Ok c0 ->
  let c := cli.scan f c0 texts in
  orderedMap_keys (data c)
  = firstOccurrences
      (flat_map (fun t => match ParseLine (gostring.TrimSpace t) with
                          | Ok (_, l) => [l]
                          | Err _ => []
                          end) texts) /\
  (forall l, In l (Chart_Labels c) <-> exists t v, In t texts /\ reads t v l) /\
  (forall pre t post v l,
     texts = pre ++ t :: post -> reads t v l ->
     (forall t' v', In t' post -> ~ reads t' v' l) ->
     m (data c) !! l = Some v) /\
  (forall t, ignored t = true -> forall v l, ~ reads t v l).
Proof.
  intros Hcount Hnew%newChart_inv c. unfold c. rewrite (scan_data f c0 texts Hcount).
  set (calls := flat_map _ texts).
  assert (data c0 = newOrderedMap) as Hdata by (subst c0; reflexivity).
  assert (forall l ts, In l (map callLabel
            (flat_map (fun t => match ParseLine (gostring.TrimSpace t) with
                                | Ok (v, l) => [CallSet l v]
                                | Err _ => []
                                end) ts))
          <-> exists t v, In t ts /\ reads t v l) as Hlabels.
  { intros l ts. rewrite in_map_iff. split.
    - intros (o & <- & (t & Ht & Ho)%in_flat_map).
      unfold reads. destruct (ParseLine (gostring.TrimSpace t)) as [[v l']|e] eqn:Hp;
        [|destruct Ho].
      destruct Ho as [<-|[]]. exists t, v. auto.
    - intros (t & v & Ht & Hr). exists (CallSet l v). split; [reflexivity|].
      apply in_flat_map. exists t. split; [exact Ht|].
      unfold reads in Hr. rewrite Hr. now left. }
  split; [|split; [|split]].
  - rewrite (run_keys c0 calls Hdata). f_equal. unfold calls.
    clear. induction texts as [|t texts IH]; [reflexivity|].
    cbn [flat_map]. rewrite map_app, IH. f_equal.
    destruct (ParseLine (gostring.TrimSpace t)) as [[v l]|e]; reflexivity.
  - intros l. rewrite <- Hlabels. fold calls.
    rewrite <- (firstOccurrences_In l (map callLabel calls)),
      <- (run_keys c0 calls Hdata).
    split; apply Permutation_in;
      [apply Labels_Permutation_keys|apply Permutation_sym, Labels_Permutation_keys].
  - intros pre t post v l -> Hr Hlast.
    rewrite (run_lookup c0 calls l Hdata). unfold calls.
    rewrite flat_map_app. cbn [flat_map]. unfold reads in Hr. rewrite Hr.
    rewrite app_assoc.
    rewrite stored_frame.
    + rewrite stored_snoc. unfold storedStep. cbn [callLabel].
      now rewrite String.eqb_refl.
    + rewrite Hlabels. intros (t' & v' & Ht' & Hr'). exact (Hlast t' v' Ht' Hr').
  - intros t Hign v l Hr. rewrite (reads_not_ignored t v l Hr) in Hign. discriminate.
Qed.

Lemma data_mode_last_line_wins_witness :
  let f := {| cli.Count := false; cli.MaxLength := 80; cli.MaxLabelLength := 20;
              cli.Precision := 2; cli.Scale := false; cli.Mermaid := false;
              cli.Chartjs := false; cli.Version := false;
              cli.Title := EmptyString; cli.in_ := EmptyString;
              cli.out := EmptyString; cli.sort := "none"; cli.desc := false;
              cli.tick := EmptyString |} in
  let texts := ["# fruit"; "3 pears"; " "; "5 apples"; "no value"; "4 pears "] in
  cli.newChart f = Ok (configured SortNone OrderAsc 2) /\
  Chart_Labels (cli.scan f (configured SortNone OrderAsc 2) texts)
  = ["pears"; "apples"] /\
  m (data (cli.scan f (configured SortNone OrderAsc 2) texts)) !! "pears"
  = Some (float64.ofZ 4).
Proof.
  intros f texts.
  assert (cli.newChart f = Ok (configured SortNone OrderAsc 2)) as Hnew
      by reflexivity.
  destruct (data_mode_last_line_wins f _ texts eq_refl Hnew)
    as (_ & _ & Hlast & _).
  split; [exact Hnew|]. split; [reflexivity|].
  apply (Hlast ["# fruit"; "3 pears"; " "; "5 apples"; "no value"] "4 pears " []).
  - reflexivity.
  - reflexivity.
  - intros t' v' [].
Defined.

(** ** Counting lines *)

Lemma scanLine_count (f : cli.flags) (c : Chart) (t : string) :
  cli.Count f = true ->
  cli.scanLine f c t =
  if ignored t then c else Chart_Add c (gostring.TrimSpace t) float64.one.
Proof.
  intros Hcount. unfold cli.scanLine. cbv zeta. rewrite Hcount. reflexivity.
Qed.

Lemma scan_count (f : cli.flags) (c : Chart) (texts : list string) :
  cli.Count f = true ->
  cli.scan f c texts =
  run c (map (fun t => CallAdd (gostring.TrimSpace t) float64.one)
           (List.filter (fun t => negb (ignored t)) texts)).
Proof.
  intros Hcount. induction texts as [|t texts IH] using rev_ind; [reflexivity|].
  rewrite scan_snoc, List.filter_app, map_app, run_app, IH, scanLine_count
    by assumption.
  cbn [List.filter]. destruct (ignored t); reflexivity.
Qed.

Lemma stored_count (labels : list string) (l : string) :
  (Z.of_nat (length labels) < 2 ^ 53)%Z ->
  stored (map (fun x => CallAdd x float64.one) labels) l =
  let n := length (List.filter (String.eqb l) labels) in
  if (n =? 0)%nat then None else Some (float64.ofZ (Z.of_nat n)).
Proof.
  induction labels as [|x labels IH] using rev_ind; intros Hlen; [reflexivity|].
  rewrite length_app in Hlen. cbn [length] in Hlen.
  rewrite map_app. cbn [map]. rewrite stored_snoc. unfold storedStep.
  cbn [callLabel]. rewrite IH by lia. cbv zeta.
  rewrite List.filter_app, length_app. cbn [List.filter].
  pose proof (List.filter_length_le (String.eqb l) labels) as Hle.
  set (n := length (List.filter (String.eqb l) labels)) in *.
  destruct (String.eqb l x); cbn [length].
  - destruct n as [|n'] eqn:Hn; cbn [Nat.eqb].
    + reflexivity.
    + replace (S n' + 1 =? 0)%nat with false by (symmetry; apply Nat.eqb_neq; lia).
      change float64.one with (float64.ofZ 1).
      rewrite add_ofZ by lia. do 2 f_equal. lia.
  - now rewrite Nat.add_0_r.
Qed.

(** With the count flag, for a chart with a precision of at most 15 and
    fewer lines than 2^53 / 10^precision: after the input loop, the value
    of a label is exactly the number of lines that are that label once
    they are trimmed; a label that is no line, the empty label and a label
    that begins with # are not in the chart. *)
Theorem count_mode_counts
    (f : cli.flags) (c0 : Chart) (texts : list string) (l : string) :
  cli.Count f = true -> cli.newChart f = Ok c0 ->
  (cli.Precision f <= 15)%Z ->
  (Z.of_nat (length texts) * 10 ^ Z.max 0 (cli.Precision f) < 2 ^ 53)%Z ->
  let c := cli.scan f c0 texts in
  let n := occurrences l texts in
  Chart_Value c l =
  if (n =? 0)%nat || String.eqb l EmptyString || gostring.HasPrefix l "#"
  then Err unknownLabel
  else Ok (float64.ofZ (Z.of_nat n)).
Proof.
  intros Hcount Hnew%newChart_inv Hprec Hlen c n.
  assert (data c0 = newOrderedMap) as Hdata by (subst c0; reflexivity).
  assert (0 < 10 ^ Z.max 0 (cli.Precision f))%Z as Hpow
      by (apply Z.pow_pos_nonneg; lia).
  set (kept := List.filter (fun t => negb (ignored t)) texts).
  assert (m (data c) !! l =
          let k := length (List.filter (String.eqb l) (map gostring.TrimSpace kept)) in
          if (k =? 0)%nat then None else Some (float64.ofZ (Z.of_nat k))) as Hm.
  { unfold c. rewrite (scan_count f c0 texts Hcount). fold kept.
    rewrite (run_lookup c0 _ l Hdata).
    replace (map (fun t => CallAdd (gostring.TrimSpace t) float64.one) kept)
      with (map (fun x => CallAdd x float64.one) (map gostring.TrimSpace kept))
      by (now rewrite map_map).
    apply stored_count. rewrite length_map.
    pose proof (List.filter_length_le (fun t => negb (ignored t)) texts) as H.
    fold kept in H. nia. }
  assert (length (List.filter (String.eqb l) (map gostring.TrimSpace kept))
          = if String.eqb l EmptyString || gostring.HasPrefix l "#" then 0%nat
            else n) as Hk.
  { unfold kept, n, occurrences. clear.
    induction texts as [|t texts IH]; cbn [List.filter map length].
    - destruct (_ || _); reflexivity.
    - unfold ignored at 1. cbv zeta.
      destruct (String.eqb_spec (gostring.TrimSpace t) l) as [He|Hne].
      + rewrite !He. destruct (String.eqb l EmptyString || gostring.HasPrefix l "#") eqn:Hbad;
          cbn [negb map List.filter length].
        * exact IH.
        * rewrite !He, String.eqb_refl. cbn [length]. now rewrite IH.
      + destruct (negb _); cbn [map List.filter length]; [|exact IH].
        destruct (String.eqb_spec l (gostring.TrimSpace t)); [congruence|exact IH]. }
  cbv zeta in Hm. rewrite Hk in Hm.
  destruct (String.eqb l EmptyString || gostring.HasPrefix l "#") eqn:Hbad.
  - rewrite <- orb_assoc, Hbad, orb_true_r.
    unfold Chart_Value, orderedMap_get. now rewrite Hm.
  - rewrite <- orb_assoc, Hbad, orb_false_r.
    destruct (n =? 0)%nat eqn:Hn.
    + unfold Chart_Value, orderedMap_get. now rewrite Hm.
    + apply (Value_integer c l (Z.of_nat n) (Z.max 0 (cli.Precision f)));
        [lia| | |exact Hm].
      * pose proof (List.filter_length_le
                      (fun text => String.eqb (gostring.TrimSpace text) l) texts) as H.
        fold (occurrences l texts) in H. fold n in H. nia.
      * unfold c. rewrite (scan_count f c0 texts Hcount).
        destruct (run_config c0
                    (map (fun t => CallAdd (gostring.TrimSpace t) float64.one)
                       (List.filter (fun t => negb (ignored t)) texts)))
          as (_ & _ & ->).
        subst c0. reflexivity.
Qed.

Lemma count_mode_counts_witness :
  let f := {| cli.Count := true; cli.MaxLength := 80; cli.MaxLabelLength := 20;
              cli.Precision := 2; cli.Scale := false; cli.Mermaid := false;
              cli.Chartjs := false; cli.Version := false;
              cli.Title := EmptyString; cli.in_ := EmptyString;
              cli.out := EmptyString; cli.sort := "none"; cli.desc := false;
              cli.tick := EmptyString |} in
  let texts := ["GET"; " POST"; "# verbs"; "GET "; "GET"] in
  cli.newChart f = Ok (configured SortNone OrderAsc 2) /\
  (Z.of_nat (length texts) * 10 ^ Z.max 0 (cli.Precision f) < 2 ^ 53)%Z /\
  Chart_Value (cli.scan f (configured SortNone OrderAsc 2) texts) "GET"
  = Ok (float64.ofZ 3) /\
  Chart_Value (cli.scan f (configured SortNone OrderAsc 2) texts) "# verbs"
  = Err unknownLabel.
Proof.
  intros f texts.
  assert (cli.newChart f = Ok (configured SortNone OrderAsc 2)) as Hnew
      by reflexivity.
  assert (Z.of_nat (length texts) * 10 ^ Z.max 0 (cli.Precision f) < 2 ^ 53)%Z
    as Hlen by reflexivity.
  split; [exact Hnew|]. split; [exact Hlen|]. split.
  - exact (count_mode_counts f _ texts "GET" eq_refl Hnew ltac:(simpl; lia) Hlen).
  - exact (count_mode_counts f _ texts "# verbs" eq_refl Hnew ltac:(simpl; lia) Hlen).
Defined.

(** ** The tick of the command line *)

Lemma utf8_byte (c : ascii) (t : string) :
  gostring.utf8 (Z.of_nat (gostring.code c)) = String c t <->
  (t = EmptyString /\ isASCII c = true) \/
  String c t = gostring.bytes [195; 131]%nat.
Proof.
  destruct c as [[] [] [] [] [] [] [] []];
    (split;
     [ intros H; vm_compute in H;
       first [ left; split; [congruence|reflexivity]
             | right; vm_compute; congruence
             | discriminate H ]
     | intros [[-> H]|H];
       [ first [reflexivity | discriminate H]
       | vm_compute in H; first [discriminate H | injection H as ->; reflexivity] ] ]).
Qed.

(** The tick that the command passes to the renderer for a tick flag that
    is not empty is the first byte of the flag, read as a code point
    below 256: it is never the default tick, and the bars are drawn with
    the symbol that was given only when that symbol is a single ASCII
    character, or the two bytes of U+00C3. *)
Theorem Tick_first_byte (f : cli.flags) :
  cli.tick f <> EmptyString ->
  (0 <= cli.flags_Tick f < 256)%Z /\
  cli.flags_Tick f <> simple.DefaultTick /\
  (gostring.utf8 (cli.flags_Tick f) = cli.tick f <->
   (exists c, cli.tick f = String c EmptyString /\ isASCII c = true) \/
   cli.tick f = gostring.bytes [195; 131]%nat).
Proof.
  unfold cli.flags_Tick. destruct (cli.tick f) as [|c t]; [congruence|].
  intros _. pose proof (nat_ascii_bounded c) as Hc.
  unfold gostring.code.
  split; [lia|]. split; [unfold simple.DefaultTick; lia|].
  rewrite (utf8_byte c t). split.
  - intros [[-> Ha]|H]; [left; eauto|now right].
  - intros [(c' & H & Ha)|H]; [|now right].
    injection H as -> ->. now left.
Qed.

Lemma Tick_first_byte_witness :
  let f := {| cli.Count := false; cli.MaxLength := 80; cli.MaxLabelLength := 20;
              cli.Precision := 2; cli.Scale := false; cli.Mermaid := false;
              cli.Chartjs := false; cli.Version := false;
              cli.Title := EmptyString; cli.in_ := EmptyString;
              cli.out := EmptyString; cli.sort := "none"; cli.desc := false;
              cli.tick := "█" |} in
  cli.tick f <> EmptyString /\
  cli.flags_Tick f = 226%Z /\
  gostring.utf8 (cli.flags_Tick f) = "â" /\
  gostring.utf8 (cli.flags_Tick f) <> cli.tick f.
Proof.
  intros f.
  assert (cli.tick f <> EmptyString) as Hne by discriminate.
  destruct (Tick_first_byte f Hne) as (_ & _ & Hiff).
  split; [exact Hne|]. split; [reflexivity|]. split; [reflexivity|].
  intros H. apply Hiff in H as [(c & H & _)|H]; discriminate H.
Defined.

(** ** Rendering a chart that calls populated *)

Lemma Value_of_Labels (c : Chart) (l : string) :
  wellFormed (data c) -> In l (Chart_Labels c) ->
  exists v, m (data c) !! l = Some v /\
            Chart_Value c l
            = Ok (float64.div (float64.Round (float64.mul v (p c))) (p c)).
Proof.
  intros [_ Hdom] Hin.
  apply (Permutation_in l (Labels_Permutation_keys c)) in Hin.
  apply Hdom in Hin as [v Hv]. exists v. split; [exact Hv|].
  unfold Chart_Value, orderedMap_get. now rewrite Hv.
Qed.

Lemma formatValues_Ok (c : Chart) (labels : list string) :
  (forall l, In l labels -> exists v, Chart_Value c l = Ok v) ->
  exists values,
    mermaid.formatValues c labels = Ok values /\
    Forall2 (fun l s => exists v, Chart_Value c l = Ok v /\ s = float64.FormatG v)
      labels values.
Proof.
  induction labels as [|l labels IH]; intros Hall.
  - exists []. split; [reflexivity|constructor].
  - destruct (Hall l (or_introl eq_refl)) as [v Hv].
    destruct IH as (values & Hvalues & Hf); [intros l' Hl'; apply Hall; now right|].
    exists (float64.FormatG v :: values). cbn [mermaid.formatValues].
    rewrite Hv, Hvalues. split; [reflexivity|]. constructor; eauto.
Qed.

(** For a chart that New returned and calls populated, whatever the
    renderer and the writer: Render of package mermaid never fails on a
    label; it calls Write exactly once, with the header line, the title
    line if there is a title, the x-axis line of the labels of Labels() and
    the bar line of their values as Value returns and %g formats them; it
    returns the count of that call, and its error wrapped if there is
    one. *)
Theorem mermaid_Render_writes_once
    (W : Type) (Write : W -> string -> Z * option error * W)
    (r : mermaid.Renderer) (opts : list optionName) (c0 : Chart)
    (calls : list call) (out : W) :
  New (map optionOf opts) = Ok c0 ->
  let c := run c0 calls in
  exists values,
    Forall2 (fun l s => exists v, Chart_Value c l = Ok v /\ s = float64.FormatG v)
      (Chart_Labels c) values /\
    mermaid.Render Write r c out =
    match Write out (mermaid.buffer r (Chart_Labels c) values) with
    | (n, Some err, out') => (n, Some (writingToOut err), out')
    | (n, None, out') => (n, None, out')
    end.
Proof.
  intros (s & d & prec & ->)%New_options_inv c.
  assert (wellFormed (data c)) as Hwf
      by (apply run_wellFormed, newOrderedMap_wellFormed).
  destruct (formatValues_Ok c (Chart_Labels c)) as (values & Hvalues & Hall).
  { intros l Hl. destruct (Value_of_Labels c l Hwf Hl) as (v & _ & Hv). eauto. }
  exists values. split; [exact Hall|].
  unfold mermaid.Render. now rewrite Hvalues.
Qed.

Lemma mermaid_Render_writes_once_witness :
  let c := run (configured SortByValue OrderDesc 0)
             [CallSet "a" (float64.ofZ 2); CallAdd "b" (float64.ofZ 7)] in
  New (map optionOf [sorting SortByValue OrderDesc; precision 0])
  = Ok (configured SortByValue OrderDesc 0) /\
  exists values,
    values = ["7"; "2"] /\
    mermaid.Render mermaid.appendWrite {| mermaid.title := EmptyString |} c
      EmptyString
    = mermaid.appendWrite EmptyString
        (mermaid.buffer {| mermaid.title := EmptyString |} ["b"; "a"] values).
Proof.
  intros c.
  assert (New (map optionOf [sorting SortByValue OrderDesc; precision 0])
          = Ok (configured SortByValue OrderDesc 0)) as Hnew by reflexivity.
  split; [exact Hnew|].
  destruct (mermaid_Render_writes_once string mermaid.appendWrite
              {| mermaid.title := EmptyString |} _ _
              [CallSet "a" (float64.ofZ 2); CallAdd "b" (float64.ofZ 7)]
              EmptyString Hnew) as (values & Hall & Hrender).
  exists values. split; [|exact Hrender].
  change (Chart_Labels (run (configured SortByValue OrderDesc 0)
            [CallSet "a" (float64.ofZ 2); CallAdd "b" (float64.ofZ 7)]))
    with ["b"; "a"] in Hall.
  inversion Hall as [|l1 s1 ls1 vs1 (v1 & Hv1 & ->) Hrest]; subst.
  inversion Hrest as [|l2 s2 ls2 vs2 (v2 & Hv2 & ->) Hnil]; subst.
  inversion Hnil; subst.
  injection Hv1 as <-. injection Hv2 as <-. reflexivity.
Defined.

(** ** The rows of the terminal renderer *)

Lemma append_assoc (s t u : string) : (s +:+ t) +:+ u = s +:+ (t +:+ u).
Proof.
  induction s as [|c s IH]; [reflexivity|].
  change (String c ((s +:+ t) +:+ u) = String c (s +:+ (t +:+ u))).
  now rewrite IH.
Qed.

Lemma rows_appended (Log10 : spec_float -> spec_float) (r : simple.Renderer)
    (c : Chart) (labels texts : list string) (written : Z) (out : string) :
  Forall2 (fun l s => exists v, Chart_Value c l = Ok v /\
                                simple.row Log10 r l v = simple.Returns s)
    labels texts ->
  (0 <= written)%Z ->
  (written + Z.of_nat (gostring.len (fold_right String.append EmptyString texts))
   < 2 ^ 63)%Z ->
  simple.rows Log10 mermaid.appendWrite r c labels written out
  = simple.Rendered
      (written + Z.of_nat (gostring.len (fold_right String.append EmptyString texts)))
      None (out +:+ fold_right String.append EmptyString texts).
Proof.
  intros Hall. revert written out.
  induction Hall as [|l s labels texts (v & Hv & Hrow) Hall IH];
    intros written out Hpos Hlen; cbn [simple.rows fold_right] in *.
  - change (Z.of_nat (gostring.len EmptyString)) with 0%Z.
    rewrite Z.add_0_r. f_equal.
    clear. induction out as [|a out IH]; [reflexivity|].
    change (String a out = String a (out +:+ EmptyString)). now rewrite <- IH.
  - rewrite Hv. unfold simple.write. rewrite Hrow.
    unfold mermaid.appendWrite. rewrite len_append in Hlen.
    rewrite int_id by lia. rewrite IH by lia.
    rewrite len_append, append_assoc. f_equal. lia.
Qed.

Lemma rows_exist (Log10 : spec_float -> spec_float) (r : simple.Renderer)
    (c : Chart) (labels : list string) :
  (forall l, In l labels -> exists v, Chart_Value c l = Ok v) ->
  (forall l v, In l labels -> Chart_Value c l = Ok v ->
     exists s, simple.row Log10 r l v = simple.Returns s) ->
  exists texts,
    Forall2 (fun l s => exists v, Chart_Value c l = Ok v /\
                                  simple.row Log10 r l v = simple.Returns s)
      labels texts.
Proof.
  induction labels as [|l labels IH]; intros Hval Hrow.
  - exists []. constructor.
  - destruct (Hval l (or_introl eq_refl)) as [v Hv].
    destruct (Hrow l v (or_introl eq_refl) Hv) as [s Hs].
    destruct IH as [texts Htexts].
    + intros l' Hl'. apply Hval. now right.
    + intros l' v' Hl'. apply Hrow. now right.
    + exists (s :: texts). constructor; eauto.
Qed.

(** For a chart that New returned and calls populated, and a writer that
    appends what it is given: when the label and the bar of every row
    return, Render of package simple never meets the unknown-label error;
    it writes one row for each label of Labels(), in that order, and when
    all rows together are shorter than 2^63 bytes it returns their number
    of bytes with no error. *)
Theorem simple_Render_rows
    (Log10 : spec_float -> spec_float) (r : simple.Renderer)
    (opts : list optionName) (c0 : Chart) (calls : list call) (out : string) :
  New (map optionOf opts) = Ok c0 ->
  let c := run c0 calls in
  let r' := simple.Render_setup r c in
  (forall l v, In l (Chart_Labels c) -> Chart_Value c l = Ok v ->
     exists s, simple.row Log10 r' l v = simple.Returns s) ->
  exists texts,
    Forall2 (fun l s => exists v,
               Chart_Value c l = Ok v /\
               simple.row Log10 r' l v = simple.Returns s)
      (Chart_Labels c) texts /\
    let all := fold_right String.append EmptyString texts in
    ((Z.of_nat (gostring.len all) < 2 ^ 63)%Z ->
     simple.Render Log10 mermaid.appendWrite r c out
     = simple.Rendered (Z.of_nat (gostring.len all)) None (out +:+ all)).
Proof.
  intros (s & d & prec & ->)%New_options_inv c r' Hrows.
  assert (wellFormed (data c)) as Hwf
      by (apply run_wellFormed, newOrderedMap_wellFormed).
  destruct (rows_exist Log10 r' c (Chart_Labels c)) as [texts Htexts].
  { intros l Hl. destruct (Value_of_Labels c l Hwf Hl) as (v & _ & Hv). eauto. }
  { exact Hrows. }
  exists texts. split; [exact Htexts|]. intros all Hlen. unfold simple.Render.
  fold r'.
  rewrite (rows_appended Log10 _ c _ texts 0 out Htexts); [reflexivity|lia|].
  fold all. lia.
Qed.

Lemma simple_Render_rows_witness :
  let c := run (configured SortNone OrderNone 2)
             [CallSet "one" (float64.ofZ 1); CallSet "three" (float64.ofZ 3)] in
  New (map optionOf []) = Ok (configured SortNone OrderNone 2) /\
  simple.Render (fun x => x) mermaid.appendWrite (defaultRenderer 35) c EmptyString
  = simple.Rendered 114 None
      (lines ["  one " +:+ gostring.Repeat "#" 24 +:+ " 1";
              "three " +:+ gostring.Repeat "#" 72 +:+ " 3"]).
Proof.
  intros c.
  assert (New (map optionOf []) = Ok (configured SortNone OrderNone 2)) as Hnew
      by reflexivity.
  split; [exact Hnew|].
  destruct (simple_Render_rows (fun x => x) (defaultRenderer 35) [] _
              [CallSet "one" (float64.ofZ 1); CallSet "three" (float64.ofZ 3)]
              EmptyString Hnew) as (texts & Hall & Hrender).
  { intros l v [<-|[<-|[]]] Hv; vm_compute in Hv; injection Hv as <-;
      eexists; vm_compute; reflexivity. }
  change (Chart_Labels (run (configured SortNone OrderNone 2)
            [CallSet "one" (float64.ofZ 1); CallSet "three" (float64.ofZ 3)]))
    with ["one"; "three"] in Hall.
  inversion Hall as [|l1 s1 ls1 vs1 (v1 & Hv1 & Hs1) Hrest]; subst.
  inversion Hrest as [|l2 s2 ls2 vs2 (v2 & Hv2 & Hs2) Hnil]; subst.
  inversion Hnil; subst.
  vm_compute in Hv1. injection Hv1 as <-. vm_compute in Hv2. injection Hv2 as <-.
  vm_compute in Hs1. injection Hs1 as <-. vm_compute in Hs2. injection Hs2 as <-.
  cbv zeta in Hrender. unfold c. rewrite Hrender by (vm_compute; reflexivity).
  vm_compute. reflexivity.
Defined.

(** ** The values that ParseLine returns *)

Lemma shr_1_nonneg (mrs : shr_record) :
  (0 <= shr_m mrs)%Z -> (0 <= shr_m (shr_1 mrs))%Z.
Proof.
  destruct mrs as [mm r s]. simpl.
  destruct mm as [|[q|q|]|q]; simpl; lia.
Qed.

Lemma iter_shr_1_nonneg (n : positive) (mrs : shr_record) :
  (0 <= shr_m mrs)%Z -> (0 <= shr_m (SpecFloat.iter_pos shr_1 n mrs))%Z.
Proof.
  revert mrs. induction n as [n IH|n IH|]; intros mrs H; cbn [SpecFloat.iter_pos].
  - apply IH, IH, shr_1_nonneg, H.
  - apply IH, IH, H.
  - apply shr_1_nonneg, H.
Qed.

Lemma shr_fexp_nonneg (mx ex : Z) (l : location) :
  (0 <= mx)%Z ->
  (0 <= shr_m (fst (shr_fexp float64.prec float64.emax mx ex l)))%Z.
Proof.
  intros H. unfold shr_fexp, shr.
  assert (0 <= shr_m (shr_record_of_loc mx l))%Z as H0.
  { destruct l as [|[]]; exact H. }
  destruct (_ - ex)%Z; cbn [fst]; try exact H0.
  now apply iter_shr_1_nonneg.
Qed.

Lemma binary_round_aux_nonneg (mx ex : Z) (l : location) :
  (0 <= mx)%Z ->
  match binary_round_aux float64.prec float64.emax false mx ex l with
  | S754_zero s | S754_infinity s | S754_finite s _ _ => s = false
  | S754_nan => False
  end.
Proof.
  intros H. unfold binary_round_aux.
  pose proof (shr_fexp_nonneg mx ex l H) as H1.
  destruct (shr_fexp float64.prec float64.emax mx ex l) as [mrs' e'].
  cbn [fst] in H1.
  assert (0 <= round_nearest_even (shr_m mrs') (loc_of_shr_record mrs'))%Z as H2.
  { unfold round_nearest_even.
    destruct (loc_of_shr_record mrs') as [|[]]; try lia.
    destruct (Z.even (shr_m mrs')); lia. }
  pose proof (shr_fexp_nonneg _ e' loc_Exact H2) as H3.
  destruct (shr_fexp float64.prec float64.emax _ e' loc_Exact) as [mrs'' e''].
  cbn [fst] in H3.
  destruct (shr_m mrs'') as [|q|q]; [reflexivity| |lia].
  destruct (e'' <=? _)%Z; reflexivity.
Qed.

Lemma ParseFloat_nonneg (s : string) (v : spec_float) :
  float64.ParseFloat s = Some v ->
  v = float64.zero \/ exists mx e, v = S754_finite false mx e.
Proof.
  unfold float64.ParseFloat.
  destruct (float64.splitDot s) as [int frac].
  set (fr := match frac with Some f => f | None => EmptyString end).
  destruct (_ && _) eqn:Hd; [|discriminate].
  cbv zeta. destruct (Z.eqb_spec (float64.decimalValue 0 (int +:+ fr)) 0) as [|Hn].
  { intros [= <-]. now left. }
  assert (0 <= fst (fst (SFdiv_core_binary float64.prec float64.emax
                           (float64.decimalValue 0 (int +:+ fr)) 0
                           (10 ^ Z.of_nat (String.length fr)) 0)))%Z as Hq.
  { assert (0 <= float64.decimalValue 0 (int +:+ fr))%Z as Hpos.
    { apply decimalValue_nonneg; [|lia].
      apply andb_true_iff in Hd as [Hd _]. apply andb_true_iff in Hd as [Hi Hf].
      clear -Hi Hf. induction int as [|c int IH]; [exact Hf|].
      simpl in Hi. apply andb_true_iff in Hi as [Hc Hi].
      change (String c int +:+ fr) with (String c (int +:+ fr)).
      simpl. rewrite Hc. now apply IH. }
    assert (0 < 10 ^ Z.of_nat (String.length fr))%Z as Hden
        by (apply Z.pow_pos_nonneg; lia).
    unfold SFdiv_core_binary. cbv zeta.
    set (m' := match (_ - _)%Z with
               | 0%Z => float64.decimalValue 0 (int +:+ fr)
               | Z.pos _ => Z.shiftl _ _
               | Z.neg _ => 0%Z
               end).
    assert (0 <= m')%Z as Hm'.
    { unfold m'. destruct (_ - _)%Z; try lia. apply Z.shiftl_nonneg. exact Hpos. }
    pose proof (Z.div_pos m' _ Hm' Hden) as Hdiv. unfold Z.div in Hdiv.
    destruct (Z.div_eucl m' _) as [q r]. exact Hdiv. }
  unfold float64.nearest.
  destruct (SFdiv_core_binary _ _ _ _ _ _) as [[q e] l]. cbn [fst] in Hq.
  pose proof (binary_round_aux_nonneg q e l Hq) as H.
  destruct (binary_round_aux _ _ _ _ _ _) as [sx|sx| |sx mx ex];
    try discriminate; try contradiction; intros [= <-]; subst sx.
  - now left.
  - right. eauto.
Qed.

(** Whenever ParseLine accepts a line, the label is not empty and the
    value is zero or a positive finite number: never negative, infinite or
    NaN.  A minus sign before the number is dropped with everything else
    that is not a digit or a dot. *)
Theorem ParseLine_value_not_negative
    (line : string) (value : spec_float) (label : string) :
  ParseLine line = Ok (value, label) ->
  label <> EmptyString /\
  (value = float64.zero \/ exists mx e, value = S754_finite false mx e).
Proof.
  unfold ParseLine.
  destruct (FindStringIndex dataSepRE line) as [[sep0 sep1]|]; [|discriminate].
  cbv zeta.
  destruct (String.eqb_spec (gostring.TrimSpace (gostring.slice_from line sep1))
              EmptyString) as [|Hlabel]; [discriminate|].
  destruct (String.eqb _ EmptyString); [discriminate|].
  destruct (float64.ParseFloat _) as [count|] eqn:Hp; [|discriminate].
  intros [= <- <-]. split; [exact Hlabel|]. now apply ParseFloat_nonneg in Hp.
Qed.

Lemma ParseLine_value_not_negative_witness :
  ParseLine "-5 apples" = Ok (float64.ofZ 5, "apples") /\
  "apples" <> EmptyString /\
  (float64.ofZ 5 = float64.zero \/
   exists mx e, float64.ofZ 5 = S754_finite false mx e).
Proof.
  assert (ParseLine "-5 apples" = Ok (float64.ofZ 5, "apples")) as H
      by (vm_compute; reflexivity).
  split; [exact H|].
  exact (ParseLine_value_not_negative "-5 apples" (float64.ofZ 5) "apples" H).
Defined.

(** ** The options of a chart *)

Lemma applyOptions_configured (opts : list optionName) (i : Z)
    (s : SortOption) (d : SortDirection) (prec : Z) :
  applyOptions i (map optionOf opts) (configured s d prec)
  = Ok (configured
          (fst (fold_left (fun acc o => match o with
                                        | sorting s d => (s, d)
                                        | precision _ => acc
                                        end) opts (s, d)))
          (snd (fold_left (fun acc o => match o with
                                        | sorting s d => (s, d)
                                        | precision _ => acc
                                        end) opts (s, d)))
          (fold_left (fun acc o => match o with
                                   | sorting _ _ => acc
                                   | precision prec => prec
                                   end) opts prec)).
Proof.
  revert i s d prec.
  induction opts as [|[s' d'|prec'] opts IH]; intros i s d prec;
    cbn [map applyOptions fold_left].
  - reflexivity.
  - apply (IH (i + 1)%Z s' d' prec).
  - assert (optionOf (precision prec') (configured s d prec)
            = Ok (configured s d prec')) as ->; [|apply IH].
    unfold optionOf, WithPrecision, configured. cbn [data sort sortDir].
    destruct (Z.ltb_spec prec' 0).
    + now rewrite Z.max_l by lia.
    + now rewrite Z.max_r by lia.
Qed.

(** New never fails on WithSorting and WithPrecision options, whatever
    they are and however many: the chart is empty, sorted as the last
    WithSorting option says, or not sorted when there is none, and its
    precision is that of the last WithPrecision option, or 2 when there is
    none, with a negative precision read as 0. *)
Theorem New_last_option_wins (opts : list optionName) :
  exists c,
    New (map optionOf opts) = Ok c /\
    data c = newOrderedMap /\
    (sort c, sortDir c) = lastSorting opts /\
    p c = float64.Pow10 (float64.ofZ (Z.max 0 (lastPrecision opts))) /\
    (forall s d, lastSorting (opts ++ [sorting s d]) = (s, d)) /\
    (forall prec, lastPrecision (opts ++ [precision prec]) = prec) /\
    (forall prec, lastSorting (opts ++ [precision prec]) = lastSorting opts) /\
    (forall s d, lastPrecision (opts ++ [sorting s d]) = lastPrecision opts) /\
    lastSorting [] = (SortNone, OrderNone) /\ lastPrecision [] = 2%Z.
Proof.
  eexists. split.
  - unfold New.
    change {| data := newOrderedMap; sort := DefaultSort;
              sortDir := DefaultSortDirection;
              p := float64.Pow10 (float64.ofZ DefaultPrecision) |}
      with (configured DefaultSort DefaultSortDirection DefaultPrecision).
    apply applyOptions_configured.
  - split; [reflexivity|]. split; [unfold lastSorting; now destruct (fold_left _ _ _)|].
    split; [reflexivity|]. unfold lastSorting, lastPrecision.
    repeat split; intros; rewrite ?fold_left_app; reflexivity.
Qed.

(** ** A chart that is too narrow *)

Lemma ofZ_valid (n : Z) :
  (Z.abs n < 2 ^ 53)%Z -> float64.valid (float64.ofZ n) = true.
Proof.
  intros Hn. destruct n as [|N|N]; [reflexivity| |].
  - destruct (ofZ_pos false N ltac:(lia)) as (m0 & _ & Hb & H).
    cbn [cond_Zopp] in H. rewrite H. exact Hb.
  - destruct (ofZ_pos true N ltac:(lia)) as (m0 & _ & Hb & H).
    cbn [cond_Zopp] in H. change (- Z.pos N)%Z with (Z.neg N) in H.
    rewrite H. exact Hb.
Qed.

Lemma bar_negative (Log10 : spec_float -> spec_float) (r : simple.Renderer)
    (s : bool) (mx : positive) (e : Z) :
  simple.scale r = false ->
  simple.maxVal r = S754_finite s mx e ->
  (- 2 ^ 53 < simple.barLen r < 0)%Z ->
  simple.bar Log10 r (simple.maxVal r) = simple.Panics.
Proof.
  intros Hscale Hmax Hlen. unfold simple.bar, simple.barLength.
  rewrite Hscale, Hmax, div_self.
  rewrite one_mul by (apply ofZ_valid; lia).
  rewrite Round_ofZ by lia. rewrite ofZ_not_zero, trunc_ofZ by lia.
  destruct (Z.leb_spec (- 2 ^ 63) (simple.barLen r)); [|lia].
  destruct (Z.leb_spec (simple.barLen r) (2 ^ 63 - 1)); [|lia].
  cbn [andb]. destruct (Z.ltb_spec (simple.barLen r) 0); [reflexivity|lia].
Qed.

Lemma rows_panic (Log10 : spec_float -> spec_float) (r : simple.Renderer)
    (c : Chart) (l : string) (v : spec_float) (labels : list string)
    (written : Z) (out : string) :
  In l labels -> Chart_Value c l = Ok v ->
  simple.bar Log10 r v = simple.Panics ->
  (forall l', In l' labels -> exists v', Chart_Value c l' = Ok v') ->
  exists out',
    simple.rows Log10 mermaid.appendWrite r c labels written out
    = simple.RenderPanics out' \/
    simple.rows Log10 mermaid.appendWrite r c labels written out
    = simple.RenderImplementationDefined out'.
Proof.
  intros Hin Hv Hbar. revert written out.
  induction labels as [|l0 labels IH]; intros written out Hall; [destruct Hin|].
  cbn [simple.rows].
  destruct (Hall l0 (or_introl eq_refl)) as [v0 Hv0]. rewrite Hv0.
  unfold simple.write, simple.row.
  destruct (string_dec l0 l) as [->|Hne].
  - assert (v0 = v) as -> by congruence. rewrite Hbar.
    destruct (simple.label r l); eauto.
  - destruct Hin as [Heq|Hin]; [contradiction|].
    destruct (simple.label r l0); [|eauto..].
    destruct (simple.bar Log10 r v0); [|eauto..].
    unfold mermaid.appendWrite. apply (IH Hin).
    intros l' Hl'. apply Hall. now right.
Qed.

(** For a chart that New returned and calls populated, and whose
    MaxValue() is finite and not zero: when the maximum length of the
    renderer is less than the widths of the label column and of the value
    column and 2 together, so that the bar length that Render computes is
    negative, then without logarithmic scaling the bar of the greatest
    value panics on a negative repeat count, and Render on a writer that
    does not fail does not return. *)
Theorem narrow_chart_panics
    (Log10 : spec_float -> spec_float) (r : simple.Renderer)
    (opts : list optionName) (c0 : Chart) (calls : list call) (out : string) :
  New (map optionOf opts) = Ok c0 ->
  let c := run c0 calls in
  let r' := simple.Render_setup r c in
  simple.scale r = false ->
  (exists s mx e, Chart_MaxValue c = S754_finite s mx e) ->
  (- 2 ^ 53 < simple.barLen r' < 0)%Z ->
  simple.barLen r'
  = (simple.maxLen r
     - Z.min (Z.of_nat (gostring.len (Chart_MaxLabel c))) (simple.maxLabelLen r)
     - Z.of_nat (gostring.len (float64.FormatG (Chart_MaxValue c))) - 2)%Z /\
  simple.bar Log10 r' (Chart_MaxValue c) = simple.Panics /\
  exists out',
    simple.Render Log10 mermaid.appendWrite r c out = simple.RenderPanics out' \/
    simple.Render Log10 mermaid.appendWrite r c out
    = simple.RenderImplementationDefined out'.
Proof.
  intros (s & d & prec & ->)%New_options_inv c r' Hscale (sx & mx & e & Hfin) Hlen.
  assert (wellFormed (data c)) as Hwf
      by (apply run_wellFormed, newOrderedMap_wellFormed).
  pose proof (bar_negative Log10 r' sx mx e Hscale Hfin Hlen) as Hbar.
  split; [reflexivity|]. split; [exact Hbar|].
  destruct (MaxValue_of_label c sx mx e Hwf Hfin) as (l & Hl & Hv).
  apply (Permutation_in l (Permutation_sym (Labels_Permutation_keys c))) in Hl.
  unfold simple.Render. fold r'.
  apply (rows_panic Log10 r' c l (Chart_MaxValue c)); try assumption.
  intros l' Hl'. destruct (Value_of_Labels c l' Hwf Hl') as (v' & _ & Hv'). eauto.
Qed.

Lemma narrow_chart_panics_witness :
  let r := {| simple.maxLen := 9;
              simple.maxLabelLen := simple.DefaultMaxLabelLength;
              simple.scale := false; simple.tick := simple.DefaultTick;
              simple.longestLabelLen := 0; simple.longestValLen := 0;
              simple.maxVal := float64.zero; simple.barLen := 0 |} in
  let c := run (configured SortNone OrderNone 2)
             [CallSet "apples" (float64.ofZ 10)] in
  simple.NewRenderer [simple.WithMaxLength 9] = Ok r /\
  New (map optionOf []) = Ok (configured SortNone OrderNone 2) /\
  simple.barLen (simple.Render_setup r c) = (-1)%Z /\
  simple.Render (fun x => x) mermaid.appendWrite r c EmptyString
  = simple.RenderPanics EmptyString.
Proof.
  intros r c.
  assert (New (map optionOf []) = Ok (configured SortNone OrderNone 2)) as Hnew
      by reflexivity.
  destruct (narrow_chart_panics (fun x => x) r [] _
              [CallSet "apples" (float64.ofZ 10)] EmptyString Hnew eq_refl
              ltac:(exists false, 5629499534213120%positive, (-49)%Z;
                    vm_compute; reflexivity)
              ltac:(vm_compute; split; reflexivity))
    as (_ & _ & out' & Hrender).
  split; [reflexivity|]. split; [exact Hnew|]. split; [vm_compute; reflexivity|].
  destruct Hrender as [H|H]; vm_compute in H; [|discriminate H].
  injection H as <-. vm_compute. reflexivity.
Defined.

(** ** A chart without a positive value *)

Lemma bar_zero_maximum (Log10 : spec_float -> spec_float) (r : simple.Renderer)
    (s : bool) (v : spec_float) :
  simple.scale r = false -> simple.maxVal r = S754_zero s ->
  simple.bar Log10 r v = simple.ImplementationDefined.
Proof.
  intros Hscale Hmax. unfold simple.bar, simple.barLength.
  rewrite Hscale, Hmax.
  destruct v as [sv|sv| |sv mv ev], (float64.ofZ (simple.barLen r)) as [sb|sb| |sb mb eb];
    try reflexivity; destruct sv, s; try destruct sb; reflexivity.
Qed.

(** For a chart that New returned and calls populated, that has a label,
    and whose MaxValue() is zero, as it is when no value of the chart is
    greater than zero: without logarithmic scaling every bar divides by
    zero, the length is infinite or NaN, and its conversion to int is left
    to the implementation; Render on a writer that never fails writes no
    row: at the first row it panics in the label, or it reaches that
    conversion. *)
Theorem zero_maximum_no_bars
    (Log10 : spec_float -> spec_float) (r : simple.Renderer)
    (opts : list optionName) (c0 : Chart) (calls : list call) (out : string) :
  New (map optionOf opts) = Ok c0 ->
  let c := run c0 calls in
  let r' := simple.Render_setup r c in
  simple.scale r = false ->
  (exists s, Chart_MaxValue c = S754_zero s) ->
  Chart_Labels c <> [] ->
  (forall v, simple.bar Log10 r' v = simple.ImplementationDefined) /\
  (simple.Render Log10 mermaid.appendWrite r c out = simple.RenderPanics out \/
   simple.Render Log10 mermaid.appendWrite r c out
   = simple.RenderImplementationDefined out).
Proof.
  intros (s & d & prec & ->)%New_options_inv c r' Hscale [sz Hzero] Hlabels.
  assert (wellFormed (data c)) as Hwf
      by (apply run_wellFormed, newOrderedMap_wellFormed).
  assert (forall v, simple.bar Log10 r' v = simple.ImplementationDefined) as Hbar.
  { intros v. exact (bar_zero_maximum Log10 r' sz v Hscale Hzero). }
  split; [exact Hbar|].
  unfold simple.Render. fold r'.
  destruct (Chart_Labels c) as [|l labels] eqn:Hl; [congruence|].
  destruct (Value_of_Labels c l Hwf) as (v & _ & Hv).
  { rewrite Hl. now left. }
  cbn [simple.rows]. rewrite Hv. unfold simple.write, simple.row.
  rewrite Hbar. destruct (simple.label r' l); auto.
Qed.

Lemma zero_maximum_no_bars_witness :
  let c := run (configured SortNone OrderNone 2)
             [CallSet "a" (float64.ofZ (-1)); CallSet "b" float64.zero] in
  New (map optionOf []) = Ok (configured SortNone OrderNone 2) /\
  Chart_MaxValue c = float64.zero /\
  Chart_Labels c = ["a"; "b"] /\
  simple.Render (fun x => x) mermaid.appendWrite
    (defaultRenderer simple.DefaultTick) c EmptyString
  = simple.RenderImplementationDefined EmptyString.
Proof.
  intros c.
  assert (New (map optionOf []) = Ok (configured SortNone OrderNone 2)) as Hnew
      by reflexivity.
  destruct (zero_maximum_no_bars (fun x => x) (defaultRenderer simple.DefaultTick)
              [] _ [CallSet "a" (float64.ofZ (-1)); CallSet "b" float64.zero]
              EmptyString Hnew eq_refl
              ltac:(exists false; vm_compute; reflexivity)
              ltac:(vm_compute; discriminate))
    as (_ & [H|H]).
  - vm_compute in H. discriminate H.
  - split; [exact Hnew|]. split; [vm_compute; reflexivity|].
    split; [vm_compute; reflexivity|]. exact H.
Defined.
